(** * Vault Wars front end: guess reconciliation, turn order, confirmation
      polling, event polling and invitation links

    A shallow embedding of the state-handling code of the repository:

    - [types/game] (interface [Guess]),
    - [contexts/TombSecretsProvider] (room state: [setCurrentRoom], [addGuess],
      [removeGuess], the [ResultComputed] handler, and the receipt polling of
      [createRoom], [joinRoom] and [submitGuess]),
    - [services/eventHandler] (class [VaultWarsEventHandler]),
    - [pages/GameScreen] (turn order, the guess partition, [handleSubmit],
      [copyInvitationLink]) and [pages/JoinRoom] (room id pre-fill).

    React state is passed explicitly: a state setter called with an updater
    [prev => next] is the function [prev |-> next] on the state it updates.
    JavaScript numbers that the code only ever uses as counters or indices
    (turn indices, counts, milliseconds) are [nat]. *)

From Stdlib Require Import String Ascii List Bool Arith PeanoNat Lia.
Import ListNotations.
Open Scope string_scope.
Open Scope list_scope.
Open Scope nat_scope.

(* ================================================================== *)
(** * Part I: the embedding *)
(* ================================================================== *)

(** ** JavaScript values the code relies on *)

(** An optional property of an object ([result?: ...]).  Object spread copies
    the own keys of its operand, so a key that is present and holds
    [undefined] overwrites, while an absent key does not: both states are
    kept apart. *)
Inductive field (A : Type) : Type :=
| Missing : field A
| Undefined : field A
| Holds : A -> field A.
Arguments Missing {A}.
Arguments Undefined {A}.
Arguments Holds {A} _.

(** [{...a, ...b}] on one optional key. *)
Definition spreadField {A : Type} (a b : field A) : field A :=
  match b with
  | Missing => a
  | _ => b
  end.

(** Truthiness of a [string | null]: [null] and the empty string are falsy. *)
Definition truthy (s : option string) : bool :=
  match s with
  | None => false
  | Some EmptyString => false
  | Some _ => true
  end.

(** [a || b] on [string | null]. *)
Definition orElse (a b : option string) : option string :=
  if truthy a then a else b.

(** ** [types/game]: a guess *)

Record Result : Type := mkResult { breached : nat; injured : nat }.

Record Guess : Type := mkGuess {
  turnIndex : nat;
  digits : list string;
  result : field Result;
  timestamp : nat;
  txHash : field string;
  pending : field bool
}.

(** [{...g, ...guess}]: the three required keys always come from [guess]. *)
Definition spreadGuess (g guess : Guess) : Guess :=
  {| turnIndex := turnIndex guess;
     digits := digits guess;
     result := spreadField (result g) (result guess);
     timestamp := timestamp guess;
     txHash := spreadField (txHash g) (txHash guess);
     pending := spreadField (pending g) (pending guess) |}.

(** ** The argument of the [ResultComputed] handler *)

Module SignedResult.
Record t : Type := mk { breaches : nat; signals : nat }.
End SignedResult.

Module ResultComputed.
Record t : Type := mk {
  roomId : string;
  turnIndex : nat;
  submitter : string;
  signedResult : option SignedResult.t
}.
End ResultComputed.

(** ** [contexts/TombSecretsProvider]: room state *)

Module Provider.

(** The two pieces of provider state the room functions read or write:
    [currentRoomId] and [roomGuesses]. *)
Record State : Type := mkState {
  currentRoomId : option string;
  roomGuesses : list Guess
}.

Definition initial : State :=
  {| currentRoomId := None; roomGuesses := [] |}.

(** [(guess) => guess.turnIndex === t] *)
Definition atTurn (t : nat) (g : Guess) : bool := Nat.eqb (turnIndex g) t.

(** [event.signedResult ? { breached: ..breaches, injured: ..signals }
     : undefined] *)
Definition resultOf (sr : option SignedResult.t) : field Result :=
  match sr with
  | Some r => Holds {| breached := SignedResult.breaches r;
                       injured := SignedResult.signals r |}
  | None => Undefined
  end.

(** The updater of the [try] branch: the digits were read with [getProbe]. *)
Definition mergeFetched (ev : ResultComputed.t) (guessDigits : list string)
    (now : nat) (prev : list Guess) : list Guess :=
  match find (atTurn (ResultComputed.turnIndex ev)) prev with
  | Some _ =>
      map (fun guess =>
             if atTurn (ResultComputed.turnIndex ev) guess
             then {| turnIndex := turnIndex guess;
                     digits := guessDigits;
                     result := resultOf (ResultComputed.signedResult ev);
                     timestamp := timestamp guess;
                     txHash := txHash guess;
                     pending := Holds false |}
             else guess) prev
  | None =>
      prev ++ [ {| turnIndex := ResultComputed.turnIndex ev;
                   digits := guessDigits;
                   result := resultOf (ResultComputed.signedResult ev);
                   timestamp := now;
                   txHash := Missing;
                   pending := Holds false |} ]
  end.

(** The updater of the [catch] branch: reading the probe failed. *)
Definition mergeFallback (ev : ResultComputed.t)
    (now : nat) (prev : list Guess) : list Guess :=
  match find (atTurn (ResultComputed.turnIndex ev)) prev with
  | Some _ =>
      map (fun guess =>
             if atTurn (ResultComputed.turnIndex ev) guess
             then {| turnIndex := turnIndex guess;
                     digits := digits guess;
                     result := resultOf (ResultComputed.signedResult ev);
                     timestamp := timestamp guess;
                     txHash := txHash guess;
                     pending := Holds false |}
             else guess) prev
  | None =>
      prev ++ [ {| turnIndex := ResultComputed.turnIndex ev;
                   digits := [];
                   result := resultOf (ResultComputed.signedResult ev);
                   timestamp := now;
                   txHash := Missing;
                   pending := Holds false |} ]
  end.

(** [mergeResult]: what the handler does to the guess list.  [fetched] is the
    outcome of the [getProbe] read: [Some digits], or [None] when the [try]
    block threw. *)
Definition mergeResult (ev : ResultComputed.t) (fetched : option (list string))
    (now : nat) (prev : list Guess) : list Guess :=
  match fetched with
  | Some guessDigits => mergeFetched ev guessDigits now prev
  | None => mergeFallback ev now prev
  end.

(** [event.roomId === currentRoomId?.toString()] *)
Definition forCurrentRoom (ev : ResultComputed.t) (s : State) : bool :=
  match currentRoomId s with
  | Some r => String.eqb (ResultComputed.roomId ev) r
  | None => false
  end.

(** The handler, when its callback closed over the current room id and
    nothing lands between its room test and its update; the general case,
    with the await in between, is [Handling] below. *)
Definition handleResultComputed (ev : ResultComputed.t)
    (fetched : option (list string)) (now : nat) (s : State) : State :=
  if forCurrentRoom ev s
  then {| currentRoomId := currentRoomId s;
          roomGuesses := mergeResult ev fetched now (roomGuesses s) |}
  else s.

Definition setCurrentRoom (roomId : option string) (s : State) : State :=
  {| currentRoomId := roomId;
     roomGuesses := if truthy roomId then roomGuesses s else [] |}.

(** The updater passed to [setRoomGuesses] by [addGuess]. *)
Definition addGuessTo (guess : Guess) (prev : list Guess) : list Guess :=
  match find (atTurn (turnIndex guess)) prev with
  | Some _ =>
      map (fun g => if atTurn (turnIndex guess) g
                    then spreadGuess g guess else g) prev
  | None => prev ++ [guess]
  end.

Definition removeGuessFrom (t : nat) (prev : list Guess) : list Guess :=
  filter (fun g => negb (atTurn t g)) prev.

Definition addGuess (guess : Guess) (s : State) : State :=
  {| currentRoomId := currentRoomId s;
     roomGuesses := addGuessTo guess (roomGuesses s) |}.

Definition removeGuess (t : nat) (s : State) : State :=
  {| currentRoomId := currentRoomId s;
     roomGuesses := removeGuessFrom t (roomGuesses s) |}.

(** The three operations that touch the guess list of a room. *)
Inductive Op : Type :=
| AddGuess (guess : Guess)
| ResultEvent (ev : ResultComputed.t) (fetched : option (list string)) (now : nat)
| RemoveGuess (t : nat).

Definition apply (op : Op) (s : State) : State :=
  match op with
  | AddGuess guess => addGuess guess s
  | ResultEvent ev fetched now => handleResultComputed ev fetched now s
  | RemoveGuess t => removeGuess t s
  end.

Definition run (ops : list Op) (s : State) : State :=
  fold_left (fun acc op => apply op acc) ops s.

End Provider.

(** ** [pages/GameScreen]: turn order, guess partition, submission *)

Module GameScreen.

(** [String.prototype.toLowerCase] on the characters an address is made of
    (["0x"] and hexadecimal digits): the letters [A]-[Z] are folded and
    every other byte is kept. *)
Definition lowerAscii (c : ascii) : ascii :=
  let n := nat_of_ascii c in
  if andb (65 <=? n) (n <=? 90) then ascii_of_nat (n + 32) else c.

Fixpoint toLowerCase (s : string) : string :=
  match s with
  | EmptyString => EmptyString
  | String c rest => String (lowerAscii c) (toLowerCase rest)
  end.

(** The part of [RoomMetadata] and [SubAccount] the screen reads. *)
Record RoomMetadata : Type := mkRoom {
  creator : string;
  opponent : string;
  wager : string;
  phase : nat;
  turnCount : nat
}.

Record SubAccount : Type := mkSubAccount { address : string }.

(** [a === b] where both sides come from optional chaining: [undefined]
    equals [undefined]. *)
Definition strictEq (a b : option string) : bool :=
  match a, b with
  | Some x, Some y => String.eqb x y
  | None, None => true
  | _, _ => false
  end.

(** [roomData?.creator.toLowerCase() === subAccount?.address.toLowerCase()] *)
Definition isPlayerCreator (roomData : option RoomMetadata)
    (subAccount : option SubAccount) : bool :=
  strictEq (option_map (fun r => toLowerCase (creator r)) roomData)
           (option_map (fun a => toLowerCase (address a)) subAccount).

Definition currentTurnIndex (roomGuesses : list Guess) : nat :=
  length roomGuesses.

Definition isPlayerTurn (playerIsCreator : bool) (roomGuesses : list Guess) : bool :=
  if playerIsCreator
  then Nat.eqb (currentTurnIndex roomGuesses mod 2) 0
  else Nat.eqb (currentTurnIndex roomGuesses mod 2) 1.

Definition playerGuesses (playerIsCreator : bool) (roomGuesses : list Guess)
    : list Guess :=
  filter (fun guess =>
            if playerIsCreator
            then Nat.eqb (turnIndex guess mod 2) 0
            else Nat.eqb (turnIndex guess mod 2) 1) roomGuesses.

Definition opponentGuesses (playerIsCreator : bool) (roomGuesses : list Guess)
    : list Guess :=
  filter (fun guess =>
            if playerIsCreator
            then Nat.eqb (turnIndex guess mod 2) 1
            else Nat.eqb (turnIndex guess mod 2) 0) roomGuesses.

(** The optimistic entry built by [handleSubmit]: four keys, no [result] and
    no [txHash]. *)
Definition newGuess (currentTurn : nat) (selectedDigits : list string)
    (now : nat) : Guess :=
  {| turnIndex := currentTurn;
     digits := selectedDigits;
     result := Missing;
     timestamp := now;
     txHash := Missing;
     pending := Holds true |}.

Inductive Toast : Type :=
| IncompleteGuess
| InvalidGuess
| ExcavationLaunched
| SubmissionFailed.

(** What [await submitGuess(roomId, guess)] did. *)
Inductive Submission : Type :=
| Resolved
| Threw.

Record View : Type := mkView {
  provider : Provider.State;
  selectedDigits : list string;
  toasts : list Toast
}.

Definition isEmpty (s : string) : bool :=
  match s with EmptyString => true | _ => false end.

(** [new Set(selectedDigits).size] *)
Definition distinctCount (l : list string) : nat :=
  length (nodup string_dec l).

(** [handleSubmit].  [during] are the updates of the room state that land
    while the submission is awaited (none when nothing else happens). *)
Definition handleSubmit (roomId : option string) (now : nat)
    (outcome : Submission) (during : list Provider.Op) (v : View) : View :=
  if existsb isEmpty (selectedDigits v) then
    {| provider := provider v; selectedDigits := selectedDigits v;
       toasts := toasts v ++ [IncompleteGuess] |}
  else if negb (Nat.eqb (distinctCount (selectedDigits v)) 4) then
    {| provider := provider v; selectedDigits := selectedDigits v;
       toasts := toasts v ++ [InvalidGuess] |}
  else if negb (truthy roomId) then v
  else
    let turn := currentTurnIndex (Provider.roomGuesses (provider v)) in
    let added :=
      Provider.run during
        (Provider.addGuess (newGuess turn (selectedDigits v) now) (provider v)) in
    match outcome with
    | Resolved =>
        {| provider := added;
           selectedDigits := [""; ""; ""; ""];
           toasts := toasts v ++ [ExcavationLaunched] |}
    | Threw =>
        {| provider := Provider.removeGuess turn added;
           selectedDigits := selectedDigits v;
           toasts := toasts v ++ [SubmissionFailed] |}
    end.

(** [`${window.location.origin}/join?room=${roomId}`]; an absent route
    parameter prints as ["undefined"]. *)
Definition copyInvitationLink (origin : string) (roomId : option string)
    : string :=
  (origin ++ "/join?room=" ++
     match roomId with Some r => r | None => "undefined" end)%string.

End GameScreen.

(** ** [contexts/TombSecretsProvider]: sending a transaction and waiting for
       its receipt *)

Module Transactions.

(** A log of a receipt as [contract.interface.parseLog] sees it: [None]
    when parsing throws or yields nothing. *)
Record ParsedLog : Type := mkLog { name : string; roomId : string }.

Record Receipt : Type := mkReceipt { logs : list (option ParsedLog) }.

(** What the provider answers to [eth_getTransactionReceipt]. *)
Inductive Reply : Type :=
| Found (receipt : Receipt)
| Null
| Failed (reason : string).

(** How [eth_sendTransaction] ends: with the hash, or by throwing (the
    encoding of the call or the request failed). *)
Inductive Sent : Type :=
| TxHash (hash : string)
| Refused (reason : string).

(** The answer to the receipt request made when [attempts] has a given
    value. *)
Definition Rpc : Type := nat -> Reply.

Inductive Action : Type :=
| SendTransaction
| GetReceipt (txHash : string)
| Wait (ms : nat).

Inductive Error : Type :=
| NotReady
| Rejected (reason : string)
| ReceiptNotFound.

Definition message (e : Error) : string :=
  match e with
  | NotReady => "Sub account, contract, or provider not ready"
  | Rejected reason => reason
  | ReceiptNotFound => "Transaction receipt not found after timeout"
  end.

Inductive Outcome (A : Type) : Type :=
| Returned (a : A)
| Thrown (e : Error).
Arguments Returned {A} _.
Arguments Thrown {A} _.

(** An asynchronous computation: the requests and waits it performs, in
    order, and how it ends. *)
Definition Async (A : Type) : Type := (list Action * Outcome A)%type.

Definition ret {A : Type} (a : A) : Async A := ([], Returned a).
Definition throw {A : Type} (e : Error) : Async A := ([], Thrown e).
Definition act (a : Action) : Async unit := ([a], Returned tt).

Definition bind {A B : Type} (m : Async A) (k : A -> Async B) : Async B :=
  match m with
  | (tr, Returned a) => let (tr', out) := k a in (tr ++ tr', out)
  | (tr, Thrown e) => (tr, Thrown e)
  end.

Notation "x <- m ;; k" := (bind m (fun x => k))
  (at level 61, m at next level, right associativity).
Notation "m ;;; k" := (bind m (fun _ => k))
  (at level 61, right associativity).

Definition trace {A : Type} (m : Async A) : list Action := fst m.
Definition outcome {A : Type} (m : Async A) : Outcome A := snd m.

(** The [while (attempts < maxAttempts)] loop; [remaining] is
    [maxAttempts - attempts].  It ends with the value of [receipt]. *)
Fixpoint pollReceipt (txHash : string) (rpc : Rpc) (remaining attempts : nat)
    : Async (option Receipt) :=
  match remaining with
  | 0 => ret None
  | S remaining' =>
      act (GetReceipt txHash) ;;;
      match rpc attempts with
      | Found receipt => ret (Some receipt)
      | Failed reason => throw (Rejected reason)
      | Null =>
          act (Wait 1000) ;;;
          pollReceipt txHash rpc remaining' (S attempts)
      end
  end.

(** The loop followed by [if (!receipt) throw new Error(...)]. *)
Definition waitForReceipt (maxAttempts : nat) (txHash : string) (rpc : Rpc)
    : Async Receipt :=
  receipt <- pollReceipt txHash rpc maxAttempts 0 ;;
  match receipt with
  | Some r => ret r
  | None => throw ReceiptNotFound
  end.

Definition sendTransaction (sent : Sent) : Async string :=
  act SendTransaction ;;;
  match sent with
  | TxHash hash => ret hash
  | Refused reason => throw (Rejected reason)
  end.

(** [receipt.logs.find(log => parseLog(log)?.name === eventName)] and the
    [roomId] argument of the log found. *)
Definition roomIdOfEvent (eventName : string) (receipt : Receipt)
    : option string :=
  match find (fun log => match log with
                         | Some p => String.eqb (name p) eventName
                         | None => false
                         end) (logs receipt) with
  | Some (Some p) => Some (roomId p)
  | _ => None
  end.

(** What [createRoom] and [joinRoom] resolve to. *)
Inductive RoomResult : Type :=
| NothingDone
| EventNotFound
| RoomId (id : string).

Definition roomResult (eventName : string) (receipt : Receipt) : RoomResult :=
  match roomIdOfEvent eventName receipt with
  | Some id => RoomId id
  | None => EventNotFound
  end.

(** [ready] is [subAccount && contract && isProviderReady].  The [catch]
    blocks rethrow what they caught. *)
Definition createRoom (ready : bool) (sent : Sent) (rpc : Rpc)
    : Async RoomResult :=
  if negb ready then ret NothingDone
  else
    txHash <- sendTransaction sent ;;
    let maxAttempts := 30 in
    receipt <- waitForReceipt maxAttempts txHash rpc ;;
    ret (roomResult "RoomCreated" receipt).

Definition joinRoom (ready : bool) (sent : Sent) (rpc : Rpc)
    : Async RoomResult :=
  if negb ready then ret NothingDone
  else
    txHash <- sendTransaction sent ;;
    let maxAttempts := 30 in
    receipt <- waitForReceipt maxAttempts txHash rpc ;;
    ret (roomResult "RoomJoined" receipt).

Definition submitGuess (ready : bool) (sent : Sent) (rpc : Rpc)
    : Async string :=
  if negb ready then throw NotReady
  else
    txHash <- sendTransaction sent ;;
    let maxAttempts := 30 in
    receipt <- waitForReceipt maxAttempts txHash rpc ;;
    ret txHash.

(** Observations on a run. *)
Definition isPoll (a : Action) : bool :=
  match a with GetReceipt _ => true | _ => false end.

Definition polls {A : Type} (m : Async A) : nat :=
  length (filter isPoll (trace m)).

(** The receipt requests of a run are separated by waits of [ms]
    milliseconds: the run is a sequence of rounds "request, wait", possibly
    ended by one last request. *)
Fixpoint paced (ms : nat) (tr : list Action) : bool :=
  match tr with
  | [] => true
  | [GetReceipt _] => true
  | GetReceipt _ :: Wait w :: rest => Nat.eqb w ms && paced ms rest
  | _ => false
  end.

Definition pacedAfterSend (ms : nat) (tr : list Action) : bool :=
  match tr with
  | SendTransaction :: rest => paced ms rest
  | _ => false
  end.

(** The run ends with the error of the wait, the one whose [message] is
    "Transaction receipt not found after timeout". *)
Definition timedOut {A : Type} (m : Async A) : Prop :=
  outcome m = Thrown ReceiptNotFound.

Definition noReceiptWithin (n : nat) (rpc : Rpc) : Prop :=
  forall i, i < n -> rpc i = Null.

(** The property of a confirmation wait: at most thirty requests, one second
    apart, and the time-out error exactly when all thirty came back empty. *)
Definition confirmationWait {A : Type} (rpc : Rpc) (m : Async A) : Prop :=
  polls m <= 30 /\
  pacedAfterSend 1000 (trace m) = true /\
  (timedOut m <-> noReceiptWithin 30 rpc).

End Transactions.

(** ** [services/eventHandler]: class [VaultWarsEventHandler] *)

Module EventHandler.

(** The event names of the [switch] in [processEvent]. *)
Inductive EventName : Type :=
| RoomCreated
| RoomJoined
| VaultSubmitted
| ResultComputed
| DecryptionRequested
| WinnerDecrypted
| GameFinished
| RoomCancelled.

(** A log returned by [queryFilter]: [Some n] for a decoded log whose
    [eventName] is [n]; [None] for a raw log or a name the switch does not
    know, which [processEvent] skips. *)
Definition Log : Type := option EventName.

(** [EventHandlers]: which optional callbacks are set. *)
Definition EventHandlers : Type := EventName -> bool.

Definition noHandlers : EventHandlers := fun _ => false.

(** [{ ...a, ...b }] on handler tables. *)
Definition mergeHandlers (a b : EventHandlers) : EventHandlers :=
  fun n => b n || a n.

(** The fields of the class; [contract] tells whether it is non-null. *)
Record Fields : Type := mkFields {
  contract : bool;
  handlers : EventHandlers;
  isListening : bool;
  pollInterval : option nat
}.

(** A call of [checkForNewEvents] that is suspended at one of its two
    [await]s on the network. *)
Inductive Cycle : Type :=
| AwaitingBlockNumber
| AwaitingLogs (fromBlock latestBlock : nat).

(** The object together with the part of the JavaScript run time it lives
    in: the live intervals, the suspended poll cycles, and a record of what
    happened (cycles begun, handlers called). *)
Record World : Type := mkWorld {
  this : Fields;
  timers : list nat;
  nextTimer : nat;
  inFlight : list Cycle;
  started : nat;
  invoked : list EventName
}.

Definition initial : World :=
  {| this := {| contract := false; handlers := noHandlers;
                isListening := false; pollInterval := None |};
     timers := []; nextTimer := 0; inFlight := [];
     started := 0; invoked := [] |}.

Definition withThis (f : Fields) (w : World) : World :=
  {| this := f; timers := timers w; nextTimer := nextTimer w;
     inFlight := inFlight w; started := started w; invoked := invoked w |}.

Definition clearInterval (id : nat) (w : World) : World :=
  {| this := this w; timers := remove Nat.eq_dec id (timers w);
     nextTimer := nextTimer w; inFlight := inFlight w;
     started := started w; invoked := invoked w |}.

(** [startPolling]: registers the interval and stores its id. *)
Definition startPolling (w : World) : World :=
  if negb (contract (this w)) || negb (isListening (this w)) then w
  else
    let id := nextTimer w in
    {| this := {| contract := contract (this w);
                  handlers := handlers (this w);
                  isListening := isListening (this w);
                  pollInterval := Some id |};
       timers := id :: timers w;
       nextTimer := S id;
       inFlight := inFlight w;
       started := started w;
       invoked := invoked w |}.

Definition startListening (w : World) : World :=
  if negb (contract (this w)) || isListening (this w) then w
  else
    startPolling
      (withThis {| contract := contract (this w);
                   handlers := handlers (this w);
                   isListening := true;
                   pollInterval := pollInterval (this w) |} w).

Definition initialize (hs : EventHandlers) (w : World) : World :=
  startListening
    (withThis {| contract := true;
                 handlers := hs;
                 isListening := isListening (this w);
                 pollInterval := pollInterval (this w) |} w).

Definition updateHandlers (hs : EventHandlers) (w : World) : World :=
  withThis {| contract := contract (this w);
              handlers := mergeHandlers (handlers (this w)) hs;
              isListening := isListening (this w);
              pollInterval := pollInterval (this w) |} w.

Definition stopListening (w : World) : World :=
  if negb (isListening (this w)) then w
  else
    let w1 :=
      match pollInterval (this w) with
      | Some id =>
          withThis {| contract := contract (this w);
                      handlers := handlers (this w);
                      isListening := isListening (this w);
                      pollInterval := None |} (clearInterval id w)
      | None => w
      end in
    withThis {| contract := contract (this w1);
                handlers := handlers (this w1);
                isListening := false;
                pollInterval := pollInterval (this w1) |} w1.

Definition cleanup (w : World) : World :=
  let w1 := stopListening w in
  withThis {| contract := false;
              handlers := noHandlers;
              isListening := isListening (this w1);
              pollInterval := pollInterval (this w1) |} w1.

(** [checkForNewEvents] up to its first [await]. *)
Definition checkForNewEvents (w : World) : World :=
  if negb (contract (this w)) then w
  else
    {| this := this w; timers := timers w; nextTimer := nextTimer w;
       inFlight := inFlight w ++ [AwaitingBlockNumber];
       started := S (started w);
       invoked := invoked w |}.

(** The callback given to [setInterval], for the interval [id]. *)
Definition pollCallback (id : nat) (w : World) : World :=
  if negb (isListening (this w)) then clearInterval id w
  else checkForNewEvents w.

(** [processEvent]: calls the handler of the log's event when it is set. *)
Definition processEvent (event : Log) (w : World) : World :=
  match event with
  | None => w
  | Some n =>
      if handlers (this w) n
      then {| this := this w; timers := timers w; nextTimer := nextTimer w;
              inFlight := inFlight w; started := started w;
              invoked := invoked w ++ [n] |}
      else w
  end.

Definition processAll (events : list Log) (w : World) : World :=
  fold_left (fun acc event => processEvent event acc) events w.

Fixpoint removeAt {A : Type} (k : nat) (l : list A) : list A :=
  match l, k with
  | [], _ => []
  | _ :: rest, 0 => rest
  | x :: rest, S k' => x :: removeAt k' rest
  end.

Fixpoint replaceAt {A : Type} (k : nat) (y : A) (l : list A) : list A :=
  match l, k with
  | [], _ => []
  | _ :: rest, 0 => y :: rest
  | x :: rest, S k' => x :: replaceAt k' y rest
  end.

Definition setInFlight (cs : list Cycle) (w : World) : World :=
  {| this := this w; timers := timers w; nextTimer := nextTimer w;
     inFlight := cs; started := started w; invoked := invoked w |}.

(** The [k]-th suspended cycle gets the answer of [getBlockNumber]:
    [None] when the request failed.  A cycle that finds [this.contract]
    null fails in [queryFilter] and ends in the [catch]. *)
Definition blockNumberArrives (k : nat) (latest : option nat) (w : World)
    : World :=
  match nth_error (inFlight w) k with
  | Some AwaitingBlockNumber =>
      match latest with
      | Some latestBlock =>
          if contract (this w)
          then setInFlight
                 (replaceAt k (AwaitingLogs (Nat.max 0 (latestBlock - 10))
                                            latestBlock) (inFlight w)) w
          else setInFlight (removeAt k (inFlight w)) w
      | None => setInFlight (removeAt k (inFlight w)) w
      end
  | _ => w
  end.

(** The [k]-th suspended cycle gets the answer of [queryFilter] and runs
    its [for] loop to the end. *)
Definition logsArrive (k : nat) (allEvents : option (list Log)) (w : World)
    : World :=
  match nth_error (inFlight w) k with
  | Some (AwaitingLogs _ _) =>
      let w1 := setInFlight (removeAt k (inFlight w)) w in
      match allEvents with
      | Some events => processAll events w1
      | None => w1
      end
  | _ => w
  end.

(** What can happen to the poller, one event-loop task at a time. *)
Inductive Task : Type :=
| Initialize (hs : EventHandlers)
| UpdateHandlers (hs : EventHandlers)
| StopListening
| Cleanup
| TimerFires (id : nat)
| BlockNumber (k : nat) (latest : option nat)
| Logs (k : nat) (allEvents : option (list Log)).

Definition step (t : Task) (w : World) : World :=
  match t with
  | Initialize hs => initialize hs w
  | UpdateHandlers hs => updateHandlers hs w
  | StopListening => stopListening w
  | Cleanup => cleanup w
  | TimerFires id => pollCallback id w
  | BlockNumber k latest => blockNumberArrives k latest w
  | Logs k allEvents => logsArrive k allEvents w
  end.

Definition run (ts : list Task) (w : World) : World :=
  fold_left (fun acc t => step t acc) ts w.

Definition reachable (w : World) : Prop := exists ts, w = run ts initial.

Definition restarts (t : Task) : bool :=
  match t with Initialize _ => true | _ => false end.

(** No task of the list starts the poller again. *)
Definition noRestart (ts : list Task) : Prop :=
  forallb (fun t => negb (restarts t)) ts = true.

End EventHandler.

(** ** [pages/JoinRoom]: reading the room id of an invitation link *)

Module JoinRoom.

(** *** The browser side: [location.search] and [URLSearchParams]

    The page receives its query through [useSearchParams], that is
    [new URLSearchParams(location.search)].  Both are defined by the URL
    standard; strings are sequences of bytes here, so percent-decoding
    yields the bytes and leaves their UTF-8 reading to the caller. *)

Definition isChar (x c : ascii) : bool := Ascii.eqb c x.

(** The text before the first ["#"]. *)
Fixpoint beforeFragment (s : string) : string :=
  match s with
  | EmptyString => EmptyString
  | String c rest =>
      if isChar "#" c then EmptyString else String c (beforeFragment rest)
  end.

(** [location.search]: from the first ["?"] up to the fragment; empty when
    the URL has no query or an empty one. *)
Fixpoint search (url : string) : string :=
  match url with
  | EmptyString => EmptyString
  | String c rest =>
      if isChar "#" c then EmptyString
      else if isChar "?" c then
        match beforeFragment rest with
        | EmptyString => EmptyString
        | q => String c q
        end
      else search rest
  end.

(** Splitting at every occurrence of a separator. *)
Fixpoint splitOn (sep : ascii) (s : string) : list string :=
  match s with
  | EmptyString => [EmptyString]
  | String c rest =>
      if isChar sep c then EmptyString :: splitOn sep rest
      else
        match splitOn sep rest with
        | [] => [String c EmptyString]
        | piece :: pieces => String c piece :: pieces
        end
  end.

(** Splitting at the first occurrence of a separator; the second half is
    empty when there is none. *)
Fixpoint splitFirst (sep : ascii) (s : string) : string * string :=
  match s with
  | EmptyString => (EmptyString, EmptyString)
  | String c rest =>
      if isChar sep c then (EmptyString, rest)
      else let (a, b) := splitFirst sep rest in (String c a, b)
  end.

Definition hexValue (c : ascii) : option nat :=
  let n := nat_of_ascii c in
  if (48 <=? n) && (n <=? 57) then Some (n - 48)
  else if (65 <=? n) && (n <=? 70) then Some (n - 55)
  else if (97 <=? n) && (n <=? 102) then Some (n - 87)
  else None.

Fixpoint percentDecode (s : string) : string :=
  match s with
  | EmptyString => EmptyString
  | String c rest =>
      if isChar "%" c then
        match rest with
        | String h (String l rest') =>
            match hexValue h, hexValue l with
            | Some x, Some y =>
                String (ascii_of_nat (16 * x + y)) (percentDecode rest')
            | _, _ => String c (percentDecode rest)
            end
        | _ => String c (percentDecode rest)
        end
      else String c (percentDecode rest)
  end.

Fixpoint plusToSpace (s : string) : string :=
  match s with
  | EmptyString => EmptyString
  | String c rest =>
      String (if isChar "+" c then " "%char else c) (plusToSpace rest)
  end.

Definition decodeComponent (s : string) : string :=
  percentDecode (plusToSpace s).

Definition dropQuestionMark (s : string) : string :=
  match s with
  | String c rest => if isChar "?" c then rest else s
  | EmptyString => s
  end.

Definition nonEmpty (s : string) : bool :=
  match s with EmptyString => false | _ => true end.

(** [new URLSearchParams(init)]: the list of name-value pairs. *)
Definition URLSearchParams (init : string) : list (string * string) :=
  map (fun piece =>
         let (n, v) := splitFirst "=" piece in
         (decodeComponent n, decodeComponent v))
      (filter nonEmpty (splitOn "&" (dropQuestionMark init))).

(** [searchParams.get(name)]: the first value under that name, or [null]. *)
Definition get (name : string) (params : list (string * string))
    : option string :=
  match find (fun p => String.eqb (fst p) name) params with
  | Some p => Some (snd p)
  | None => None
  end.

(** [useSearchParams()] on the page opened at [url]. *)
Definition useSearchParams (url : string) : list (string * string) :=
  URLSearchParams (search url).

(** *** The page *)

Record Form : Type := mkForm {
  roomId : string;
  showInviteMessage : bool
}.

Definition initialForm : Form :=
  {| roomId := EmptyString; showInviteMessage := false |}.

(** The effect "Auto-fill room ID from URL params". *)
Definition autoFill (searchParams : list (string * string)) (f : Form) : Form :=
  let urlRoomId :=
    orElse (get "room" searchParams) (get "roomId" searchParams) in
  match urlRoomId with
  | Some r => if truthy urlRoomId
              then {| roomId := r; showInviteMessage := true |}
              else f
  | None => f
  end.

(** The form of the join page just opened at [url]. *)
Definition openedAt (url : string) : Form :=
  autoFill (useSearchParams url) initialForm.

(** *** Room ids and origins

    A room id is the decimal print of the contract's counter
    ([args.roomId.toString()]); more generally the link keeps every id made
    of letters, digits and [-], [.], [_], [~], the characters a query
    carries unchanged. *)
Definition plainChar (c : ascii) : bool :=
  let n := nat_of_ascii c in
  ((48 <=? n) && (n <=? 57)) || ((65 <=? n) && (n <=? 90)) ||
  ((97 <=? n) && (n <=? 122)) ||
  isChar "-" c || isChar "." c || isChar "_" c || isChar "~" c.

Fixpoint allChars (p : ascii -> bool) (s : string) : bool :=
  match s with
  | EmptyString => true
  | String c rest => p c && allChars p rest
  end.

Definition plainRoomId (r : string) : bool :=
  nonEmpty r && allChars plainChar r.

(** [window.location.origin] is scheme, host and port: it holds neither
    ["?"] nor ["#"]. *)
Definition isOrigin (origin : string) : bool :=
  allChars (fun c => negb (isChar "?" c) && negb (isChar "#" c)) origin.

End JoinRoom.

(** ** Five statements of the specification, as it words them

    The code does not meet them in this form; Part II shows where it departs
    and what it guarantees instead. *)

Module Stated.

(** "Applying the same [mergeResult] twice yields identical state to
    applying it once": for an event of the active room, the guess list after
    the handler has run a second time is the list after the first run,
    whatever the two [getProbe] reads and the two clock readings were. *)
Definition duplicateIsNoOp : Prop :=
  forall (ev : ResultComputed.t) (fetched fetched' : option (list string))
         (now now' : nat) (s : Provider.State),
    Provider.forCurrentRoom ev s = true ->
    Provider.roomGuesses
      (Provider.handleResultComputed ev fetched' now'
         (Provider.handleResultComputed ev fetched now s))
    = Provider.roomGuesses (Provider.handleResultComputed ev fetched now s).

(** "Once a guess's result has been set it is never changed, and a
    confirmed guess never goes back to pending": whatever the operation, the
    entry found afterwards at the turn index of an entry has the same result
    if one was set, and is not pending if the entry was not. *)
Definition confirmedIsTerminal : Prop :=
  forall (op : Provider.Op) (s : Provider.State) (g g' : Guess),
    In g (Provider.roomGuesses s) ->
    In g' (Provider.roomGuesses (Provider.apply op s)) ->
    turnIndex g' = turnIndex g ->
    ((exists r, result g = Holds r) -> result g' = result g) /\
    (pending g = Holds false -> pending g' = Holds false).

(** "Switching to a different room id or to none clears the guess list." *)
Definition switchClearsGuesses : Prop :=
  forall (roomId : option string) (s : Provider.State),
    roomId <> Provider.currentRoomId s ->
    Provider.roomGuesses (Provider.setCurrentRoom roomId s) = [].


(** "After [stopListening] no event handler is ever invoked again", for a
    poller that is not started again. *)
Definition silentAfterStop : Prop :=
  forall (w : EventHandler.World) (ts : list EventHandler.Task),
    EventHandler.reachable w ->
    EventHandler.noRestart ts ->
    EventHandler.invoked
      (EventHandler.run ts (EventHandler.step EventHandler.StopListening w))
    = EventHandler.invoked
        (EventHandler.step EventHandler.StopListening w).

End Stated.

(** ** Notions used for what the code guarantees instead *)

(** The list has an entry at turn index [t], and every entry at [t] carries
    the result [r] and is not pending. *)
Definition confirmedAt (t : nat) (r : field Result) (gs : list Guess) : Prop :=
  (exists g, In g gs /\ turnIndex g = t) /\
  forall g, In g gs -> turnIndex g = t ->
            result g = r /\ pending g = Holds false.

(** An operation that leaves the turn index [t] alone: an [addGuess] or a
    [removeGuess] at another turn index, or a result-computed event that is
    for another turn index or carries the result [r] again. *)
Definition spares (t : nat) (r : field Result) (op : Provider.Op) : Prop :=
  match op with
  | Provider.AddGuess guess => turnIndex guess <> t
  | Provider.RemoveGuess t' => t' <> t
  | Provider.ResultEvent ev _ _ =>
      ResultComputed.turnIndex ev <> t \/
      Provider.resultOf (ResultComputed.signedResult ev) = r
  end.

(** Of two [getProbe] reads made one after the other, the digits that end
    up in the list: those of the second read when it succeeded, those of the
    first otherwise. *)
Definition lastRead (fetched fetched' : option (list string))
    : option (list string) :=
  match fetched' with
  | Some ds => Some ds
  | None => fetched
  end.



(** An [addGuess] or a result-computed event at one of the turn indices
    [ts]. *)
Definition landsOn (ts : list nat) (op : Provider.Op) : Prop :=
  match op with
  | Provider.AddGuess guess => In (turnIndex guess) ts
  | Provider.ResultEvent ev _ _ => In (ResultComputed.turnIndex ev) ts
  | Provider.RemoveGuess _ => False
  end.

(** The poller is stopped: not listening, no interval stored or live. *)
Definition stopped (w : EventHandler.World) : Prop :=
  EventHandler.isListening (EventHandler.this w) = false /\
  EventHandler.pollInterval (EventHandler.this w) = None /\
  EventHandler.timers w = [].

(** The interval of a listening poller is the only live one. *)
Definition tidy (w : EventHandler.World) : Prop :=
  if EventHandler.isListening (EventHandler.this w)
  then exists id,
         EventHandler.pollInterval (EventHandler.this w) = Some id /\
         EventHandler.timers w = [id]
  else EventHandler.pollInterval (EventHandler.this w) = None /\
       EventHandler.timers w = [].

(** ** The shape shared by the three list updaters

    [addGuess] and both branches of the [ResultComputed] handler are built the
    same way: look for an entry at the turn index, rewrite every such entry
    when there is one, append a new entry otherwise. *)

Definition upsert {A : Type} (p : A -> bool) (f : A -> A) (fresh : A)
    (l : list A) : list A :=
  match find p l with
  | Some _ => map (fun x => if p x then f x else x) l
  | None => l ++ [fresh]
  end.

(** The entry written over an existing one, and the entry appended, by the
    two branches of the handler. *)
Definition settled (ev : ResultComputed.t) (fetched : option (list string))
    (guess : Guess) : Guess :=
  {| turnIndex := turnIndex guess;
     digits := match fetched with Some ds => ds | None => digits guess end;
     result := Provider.resultOf (ResultComputed.signedResult ev);
     timestamp := timestamp guess;
     txHash := txHash guess;
     pending := Holds false |}.

Definition arrived (ev : ResultComputed.t) (fetched : option (list string))
    (now : nat) : Guess :=
  {| turnIndex := ResultComputed.turnIndex ev;
     digits := match fetched with Some ds => ds | None => [] end;
     result := Provider.resultOf (ResultComputed.signedResult ev);
     timestamp := now;
     txHash := Missing;
     pending := Holds false |}.

(* ================================================================== *)
(** * Part I, continued: the code around the reconciler *)
(* ================================================================== *)

From Stdlib Require Import DecimalString Permutation NArith.

(** ** [contexts/TombSecretsProvider]: the [ResultComputed] handler and its
       await

    The handler is asynchronous.  It first tests the room id of the event
    against [currentRoomId], the value its callback closed over in the render
    that built it; it then awaits the [getProbe] read; when the read settles
    it calls [setRoomGuesses] with its updater, which React applies to the
    list as it is by then.  Nothing is tested after the await, and other
    updates can land in between.  [Provider.handleResultComputed] is the
    handling in which nothing lands in between and the callback closed over
    the current room id. *)

Module Handling.

(** [event.roomId === currentRoomId?.toString()], on the room id the
    callback closed over. *)
Definition passes (captured : option string) (ev : ResultComputed.t) : bool :=
  match captured with
  | Some r => String.eqb (ResultComputed.roomId ev) r
  | None => false
  end.

(** The provider state, and the events whose handling is past the room test
    and awaits its [getProbe] read. *)
Record World : Type := mkWorld {
  state : Provider.State;
  reading : list ResultComputed.t
}.

Inductive Task : Type :=
| Dispatch (captured : option string) (ev : ResultComputed.t)
| ReadSettles (k : nat) (fetched : option (list string)) (now : nat)
| SetCurrentRoom (roomId : option string)
| AddGuess (guess : Guess)
| RemoveGuess (t : nat).

(** The updater of either branch, applied to the list of the moment. *)
Definition land (ev : ResultComputed.t) (fetched : option (list string))
    (now : nat) (s : Provider.State) : Provider.State :=
  {| Provider.currentRoomId := Provider.currentRoomId s;
     Provider.roomGuesses :=
       Provider.mergeResult ev fetched now (Provider.roomGuesses s) |}.

Definition step (task : Task) (w : World) : World :=
  match task with
  | Dispatch captured ev =>
      if passes captured ev
      then {| state := state w; reading := reading w ++ [ev] |}
      else w
  | ReadSettles k fetched now =>
      match nth_error (reading w) k with
      | Some ev =>
          {| state := land ev fetched now (state w);
             reading := EventHandler.removeAt k (reading w) |}
      | None => w
      end
  | SetCurrentRoom roomId =>
      {| state := Provider.setCurrentRoom roomId (state w);
         reading := reading w |}
  | AddGuess guess =>
      {| state := Provider.addGuess guess (state w); reading := reading w |}
  | RemoveGuess t =>
      {| state := Provider.removeGuess t (state w); reading := reading w |}
  end.

Definition run (tasks : list Task) (w : World) : World :=
  fold_left (fun acc task => step task acc) tasks w.

(** The handler is called for an event that fails its room test, or a read
    is said to settle. *)
Definition idle (task : Task) : Prop :=
  match task with
  | Dispatch captured ev => passes captured ev = false
  | ReadSettles _ _ _ => True
  | _ => False
  end.

End Handling.

(** ** [pages/GameScreen]: the digit keypad *)

Module Keypad.

(** [array.findIndex(p)]; [None] stands for [-1]. *)
Fixpoint findIndex {A : Type} (p : A -> bool) (l : list A) : option nat :=
  match l with
  | [] => None
  | x :: rest => if p x then Some 0 else option_map S (findIndex p rest)
  end.

(** [array.includes(value)] *)
Definition includes (value : string) (l : list string) : bool :=
  existsb (String.eqb value) l.

(** [copy[i] = value] for an index the array has.  Both handlers below take
    the index from the array itself ([findIndex], or a loop over its
    indices), so an assignment past the end never happens. *)
Fixpoint setAt (i : nat) (value : string) (l : list string) : list string :=
  match l, i with
  | [], _ => []
  | _ :: rest, 0 => value :: rest
  | x :: rest, S i' => x :: setAt i' value rest
  end.

Definition handleDigitSelect (digit : string) (selectedDigits : list string)
    : list string :=
  match findIndex GameScreen.isEmpty selectedDigits with
  | Some emptyIndex =>
      if negb (includes digit selectedDigits)
      then setAt emptyIndex digit selectedDigits
      else selectedDigits
  | None => selectedDigits
  end.

(** The [for (let i = length - 1; i >= 0; i--)] loop of [handleDeleteLast];
    [n] is [i + 1]. *)
Fixpoint deleteFrom (n : nat) (selectedDigits : list string) : list string :=
  match n with
  | 0 => selectedDigits
  | S i =>
      if negb (GameScreen.isEmpty (nth i selectedDigits EmptyString))
      then setAt i EmptyString selectedDigits
      else deleteFrom i selectedDigits
  end.

Definition handleDeleteLast (selectedDigits : list string) : list string :=
  deleteFrom (length selectedDigits) selectedDigits.

Definition handleClear : list string := [""; ""; ""; ""].

(** [selectedDigits.every((digit) => digit !== "")] *)
Definition isComplete (selectedDigits : list string) : bool :=
  forallb (fun digit => negb (GameScreen.isEmpty digit)) selectedDigits.

Definition canSubmit (selectedDigits : list string) (isSubmitting : bool)
    (isPlayerTurn : bool) : bool :=
  isComplete selectedDigits && negb isSubmitting && isPlayerTurn.

(** The three kinds of keypad buttons. *)
Inductive Key : Type :=
| Digit (digit : string)
| Delete
| Clear.

Definition press (k : Key) (selectedDigits : list string) : list string :=
  match k with
  | Digit digit => handleDigitSelect digit selectedDigits
  | Delete => handleDeleteLast selectedDigits
  | Clear => handleClear
  end.

Definition pressAll (ks : list Key) (selectedDigits : list string)
    : list string :=
  fold_left (fun acc k => press k acc) ks selectedDigits.

(** The entries that are not empty, in order. *)
Definition chosen (selectedDigits : list string) : list string :=
  filter (fun d => negb (GameScreen.isEmpty d)) selectedDigits.

(** The chosen digits come first and the empty slots after them. *)
Definition filledFirst (selectedDigits : list string) : Prop :=
  exists front n,
    selectedDigits = front ++ repeat EmptyString n /\
    Forall (fun d => d <> EmptyString) front.

End Keypad.

(** ** [pages/CreateRoom] and [pages/JoinRoom]: the vault code *)

Module VaultForm.

(** An element of the [vaultCode] array as the handlers can leave it: a
    string, or [undefined] where an assignment past the end left a gap. *)
Definition Slot : Type := option string.

Definition initialCode : list Slot := [Some ""; Some ""; Some ""; Some ""].

(** [/^\d$/.test(value)]: exactly one character, a decimal digit. *)
Definition isDigit (c : ascii) : bool :=
  let n := nat_of_ascii c in (48 <=? n) && (n <=? 57).

Definition isDigitString (value : string) : bool :=
  match value with
  | String c EmptyString => isDigit c
  | _ => false
  end.

(** [vaultCode.includes(value)] for a string [value]. *)
Definition includes (value : string) (vaultCode : list Slot) : bool :=
  existsb (fun slot => match slot with
                       | Some s => String.eqb s value
                       | None => false
                       end) vaultCode.

(** [newCode[index] = value]: inside the array the element is replaced; past
    the end the array grows and the gap is left [undefined]. *)
Fixpoint assign (index : nat) (value : Slot) (code : list Slot) : list Slot :=
  match index, code with
  | 0, [] => [value]
  | 0, _ :: rest => value :: rest
  | S i, [] => None :: assign i value []
  | S i, x :: rest => x :: assign i value rest
  end.

Definition handleVaultCodeChange (index : nat) (value : string)
    (vaultCode : list Slot) : list Slot :=
  if String.eqb value "" || (isDigitString value && negb (includes value vaultCode))
  then assign index (Some value) vaultCode
  else vaultCode.

(** [String(num)] for a non-negative integer: its decimal digits. *)
Definition numberToString (num : nat) : string :=
  NilEmpty.string_of_uint (Nat.to_uint num).

(** [(digit) => digit === ""] *)
Definition isBlankSlot (slot : Slot) : bool :=
  match slot with
  | Some EmptyString => true
  | _ => false
  end.

(** The [onClick] of a keypad button. *)
Definition pressNumber (num : nat) (vaultCode : list Slot) : list Slot :=
  match Keypad.findIndex isBlankSlot vaultCode with
  | Some emptyIndex =>
      if negb (includes (numberToString num) vaultCode)
      then handleVaultCodeChange emptyIndex (numberToString num) vaultCode
      else vaultCode
  | None => vaultCode
  end.

(** [generateRandomCode]; [shuffled] is what [numbers.sort(...)] returned,
    some rearrangement of [0..9]. *)
Definition numbers : list nat := [0; 1; 2; 3; 4; 5; 6; 7; 8; 9].

Definition generateRandomCode (shuffled : list nat) : list Slot :=
  map (fun n => Some (numberToString n)) (firstn 4 shuffled).

Definition clearVaultCode : list Slot := initialCode.

(** [vaultCode.every((digit) => digit !== "")] *)
Definition isVaultComplete (vaultCode : list Slot) : bool :=
  forallb (fun slot => negb (isBlankSlot slot)) vaultCode.

(** What the user can do to the code. *)
Inductive Action : Type :=
| Number (num : nat)
| ClearCode
| Random (shuffled : list nat).

Definition perform (a : Action) (vaultCode : list Slot) : list Slot :=
  match a with
  | Number num => pressNumber num vaultCode
  | ClearCode => clearVaultCode
  | Random shuffled => generateRandomCode shuffled
  end.

Definition performAll (acts : list Action) (vaultCode : list Slot)
    : list Slot :=
  fold_left (fun acc a => perform a acc) acts vaultCode.

(** The buttons show [1..9, 0], and the random code is drawn from a
    rearrangement of [numbers]. *)
Definition allowed (a : Action) : Prop :=
  match a with
  | Number num => num < 10
  | ClearCode => True
  | Random shuffled => Permutation shuffled numbers
  end.

End VaultForm.

(** A code without gaps whose four slots are empty or hold one decimal digit,
    no digit twice. *)
Definition soundCode (vaultCode : list VaultForm.Slot) (ds : list string)
    : Prop :=
  vaultCode = map Some ds /\
  length ds = 4 /\
  Forall (fun s => s = EmptyString \/ VaultForm.isDigitString s = true) ds /\
  NoDup (Keypad.chosen ds).

(** ** [pages/JoinRoom]: checking the room to join *)

Module RoomCheck.

(** A JavaScript string as its UTF-16 code units: the room id is whatever
    was typed or came with the link. *)
Definition CodeUnits : Type := list N.

(** The white space and line terminators of ECMAScript, which
    [String.prototype.trim] strips: U+0009 to U+000D, U+0020, U+00A0, U+1680,
    U+2000 to U+200A, U+2028, U+2029, U+202F, U+205F, U+3000 and U+FEFF.  All
    are one code unit long. *)
Definition isWhiteSpace (u : N) : bool :=
  ((9 <=? u) && (u <=? 13) || (u =? 32) || (u =? 160) || (u =? 5760)
   || (8192 <=? u) && (u <=? 8202) || (u =? 8232) || (u =? 8233)
   || (u =? 8239) || (u =? 8287) || (u =? 12288) || (u =? 65279))%N.

Fixpoint trimStart (s : CodeUnits) : CodeUnits :=
  match s with
  | u :: rest => if isWhiteSpace u then trimStart rest else s
  | [] => []
  end.

Definition trimEnd (s : CodeUnits) : CodeUnits := rev (trimStart (rev s)).

Definition trim (s : CodeUnits) : CodeUnits := trimEnd (trimStart s).

(** [!roomIdToCheck.trim()]: the empty string is the only falsy string. *)
Definition isBlank (s : CodeUnits) : bool :=
  match trim s with
  | [] => true
  | _ :: _ => false
  end.

Record RoomValidation : Type := mkValidation {
  isValid : bool;
  isChecking : bool;
  error : option string
}.

(** The two pieces of state the check writes. *)
Record Checked : Type := mkChecked {
  roomValidation : RoomValidation;
  roomData : option GameScreen.RoomMetadata
}.

(** What [await getRoom(Number(roomIdToCheck))] did.  [getRoom] called while
    the provider it closed over is [null] returns a promise that looks at
    that same [null] every 100 ms: it never settles. *)
Inductive GetRoom : Type :=
| Room (room : option GameScreen.RoomMetadata)
| GetRoomThrew
| NeverSettles.

Definition zeroAddress : string :=
  "0x0000000000000000000000000000000000000000".

Definition rejected (reason : string) : Checked :=
  {| roomValidation := {| isValid := false; isChecking := false;
                          error := Some reason |};
     roomData := None |}.

Definition phaseText (phase : nat) : string :=
  if phase =? 1 then "in progress"
  else if phase =? 2 then "completed"
  else "cancelled".

(** [checkRoomValidity], from the state [before] it.  A [null] room makes
    [console.log(room.wager)] throw before the [if (!room)] test, so it ends
    in the [catch].  While [getRoom] has not settled the state is the one
    written before the [await]: checking, and the room data untouched. *)
Definition checkRoomValidity (address : option string)
    (roomIdToCheck : CodeUnits) (answer : GetRoom) (before : Checked)
    : Checked :=
  if isBlank roomIdToCheck then
    {| roomValidation := {| isValid := false; isChecking := false;
                            error := None |};
       roomData := None |}
  else
    match answer with
    | NeverSettles =>
        {| roomValidation := {| isValid := false; isChecking := true;
                                error := None |};
           roomData := roomData before |}
    | GetRoomThrew => rejected "Failed to check room"
    | Room None => rejected "Failed to check room"
    | Room (Some room) =>
        if String.eqb (GameScreen.creator room) zeroAddress
        then rejected "Invalid room"
        else if negb (GameScreen.phase room =? 0)
        then rejected ("Room is " ++ phaseText (GameScreen.phase room))%string
        else if GameScreen.strictEq
                  (Some (GameScreen.toLowerCase (GameScreen.creator room)))
                  (option_map GameScreen.toLowerCase address)
        then rejected "Cannot join your own room"
        else
          {| roomValidation := {| isValid := true; isChecking := false;
                                  error := None |};
             roomData := Some room |}
    end.

(** [isFormValid] of the join page, as a truth value. *)
Definition isFormValid (vaultCode : list VaultForm.Slot) (c : Checked) : bool :=
  VaultForm.isVaultComplete vaultCode && isValid (roomValidation c) &&
  match roomData c with Some _ => true | None => false end.

End RoomCheck.

(** ** [components/wallet/WalletDisplay]: the short form of an address *)

Module Wallet.

Fixpoint take (n : nat) (s : string) : string :=
  match n, s with
  | S n', String c rest => String c (take n' rest)
  | _, _ => EmptyString
  end.

Fixpoint drop (n : nat) (s : string) : string :=
  match n, s with
  | S n', String _ rest => drop n' rest
  | _, _ => s
  end.

(** [s.slice(0, n)] and [s.slice(-n)]. *)
Definition sliceFirst (n : nat) (s : string) : string := take n s.

Definition sliceLast (n : nat) (s : string) : string :=
  drop (String.length s - n) s.

Definition formatAddress (address : string) : string :=
  if GameScreen.isEmpty address then EmptyString
  else (sliceFirst 6 address ++ "..." ++ sliceLast 4 address)%string.

End Wallet.

(** ** Further observations on the runs of Part I *)

(** The milliseconds a run spends waiting. *)
Fixpoint waited (tr : list Transactions.Action) : nat :=
  match tr with
  | [] => 0
  | Transactions.Wait ms :: rest => ms + waited rest
  | _ :: rest => waited rest
  end.

(** [k] rounds "ask for the receipt, wait one second". *)
Fixpoint rounds (txHash : string) (k : nat) : list Transactions.Action :=
  match k with
  | 0 => []
  | S k' =>
      Transactions.GetReceipt txHash :: Transactions.Wait 1000
        :: rounds txHash k'
  end.

(** The handlers that a list of logs reaches, in the order of the logs. *)
Definition dispatched (hs : EventHandler.EventHandlers)
    (events : list EventHandler.Log) : list EventHandler.EventName :=
  flat_map (fun event => match event with
                         | Some n => if hs n then [n] else []
                         | None => []
                         end) events.

(** One whole poll cycle: the timer fires, the block number comes, the logs
    come. *)
Definition cycle (id latest : nat) (events : list EventHandler.Log)
    : list EventHandler.Task :=
  [ EventHandler.TimerFires id;
    EventHandler.BlockNumber 0 (Some latest);
    EventHandler.Logs 0 (Some events) ].

(** No task of the list sets handlers or starts the poller. *)
Definition keepsHandlers (ts : list EventHandler.Task) : Prop :=
  forallb (fun t => match t with
                    | EventHandler.Initialize _ => false
                    | EventHandler.UpdateHandlers _ => false
                    | _ => true
                    end) ts = true.

(** Four slots, and no digit chosen twice. *)
Definition wellFormed (l : list string) : Prop :=
  length l = 4 /\ NoDup (Keypad.chosen l).

(** The turn indices of a guess list, in order. *)
Definition turnIndices (gs : list Guess) : list nat := map turnIndex gs.

(* ================================================================== *)
(** * Part II: properties *)
(* ================================================================== *)

(** ** Lists and optional keys *)

Lemma find_none_iff {A : Type} (p : A -> bool) (l : list A) :
  find p l = None <-> forall x, In x l -> p x = false.
Proof.
  induction l as [|a l IH]; simpl.
  - split; [intros _ x [] | reflexivity].
  - destruct (p a) eqn:Ha.
    + split; [discriminate|].
      intros H. rewrite (H a (or_introl eq_refl)) in Ha. discriminate.
    + rewrite IH. split.
      * intros H x [<-|Hx]; [assumption | apply H, Hx].
      * intros H x Hx. apply H. right. exact Hx.
Qed.

Lemma find_some_iff {A : Type} (p : A -> bool) (l : list A) :
  (exists y, find p l = Some y) <-> exists x, In x l /\ p x = true.
Proof.
  split.
  - intros [y Hy]. exists y. apply find_some in Hy. exact Hy.
  - intros [x [Hx Hp]]. destruct (find p l) as [y|] eqn:E.
    + exists y. reflexivity.
    + rewrite find_none_iff in E. rewrite (E x Hx) in Hp. discriminate.
Qed.

(** Rewriting the entries selected by [p] with [f], when [f] keeps them
    selected. *)
Section Rewriting.
Context {A : Type} (p : A -> bool) (f : A -> A).
Hypothesis keeps : forall x, p x = true -> p (f x) = true.

Lemma find_map_rewrite (l : list A) :
  (exists y, find p l = Some y) ->
  exists y, find p (map (fun x => if p x then f x else x) l) = Some y.
Proof.
  rewrite !find_some_iff. intros [x [Hx Hp]].
  exists (f x). split; [|apply keeps, Hp].
  apply in_map_iff. exists x. rewrite Hp. split; [reflexivity | exact Hx].
Qed.

Lemma map_rewrite_untouched (l : list A) :
  (forall x, In x l -> p x = false) ->
  map (fun x => if p x then f x else x) l = l.
Proof.
  induction l as [|a l IH]; simpl; intros H; [reflexivity|].
  rewrite (H a (or_introl eq_refl)). f_equal.
  apply IH. intros x Hx. apply H. right. exact Hx.
Qed.

Lemma map_rewrite_twice (g : A -> A) (l : list A) :
  (forall x, p x = true -> g (f x) = f x) ->
  map (fun x => if p x then g x else x)
      (map (fun x => if p x then f x else x) l)
  = map (fun x => if p x then f x else x) l.
Proof.
  intros Hgf. rewrite map_map. apply map_ext. intros x.
  destruct (p x) eqn:Hp.
  - rewrite (keeps x Hp). apply Hgf, Hp.
  - rewrite Hp. reflexivity.
Qed.
End Rewriting.

Lemma Forall2_map_right {A : Type} (R : A -> A -> Prop) (h : A -> A)
    (l : list A) :
  (forall x, In x l -> R x (h x)) -> Forall2 R l (map h l).
Proof.
  induction l as [|a l IH]; simpl; intros H; constructor.
  - apply H. left. reflexivity.
  - apply IH. intros x Hx. apply H. right. exact Hx.
Qed.

Lemma filter_id_iff {A : Type} (p : A -> bool) (l : list A) :
  filter p l = l <-> forall x, In x l -> p x = true.
Proof.
  induction l as [|a l IH]; simpl.
  - split; [intros _ x [] | reflexivity].
  - destruct (p a) eqn:Ha.
    + split.
      * intros H x [<-|Hx]; [exact Ha|].
        injection H as H. apply IH; assumption.
      * intros H. f_equal. apply IH. intros x Hx. apply H. right. exact Hx.
    + split.
      * intros H. exfalso.
        pose proof (filter_length_le p l) as Hle.
        rewrite H in Hle. simpl in Hle. lia.
      * intros H. rewrite (H a (or_introl eq_refl)) in Ha. discriminate.
Qed.

Lemma atTurn_true (t : nat) (g : Guess) :
  Provider.atTurn t g = true <-> turnIndex g = t.
Proof. unfold Provider.atTurn. apply Nat.eqb_eq. Qed.

Lemma atTurn_false (t : nat) (g : Guess) :
  Provider.atTurn t g = false <-> turnIndex g <> t.
Proof. unfold Provider.atTurn. apply Nat.eqb_neq. Qed.

(** ** The shape of the updaters *)

Lemma mergeResult_upsert ev fetched now prev :
  Provider.mergeResult ev fetched now prev
  = upsert (Provider.atTurn (ResultComputed.turnIndex ev))
           (settled ev fetched) (arrived ev fetched now) prev.
Proof. destruct fetched; reflexivity. Qed.

Lemma addGuessTo_upsert guess prev :
  Provider.addGuessTo guess prev
  = upsert (Provider.atTurn (turnIndex guess))
           (fun g => spreadGuess g guess) guess prev.
Proof. reflexivity. Qed.

Lemma upsert_present {A : Type} (p : A -> bool) (f : A -> A) (fresh : A)
    (l : list A) :
  (exists x, In x l /\ p x = true) ->
  upsert p f fresh l = map (fun x => if p x then f x else x) l.
Proof.
  intros H. apply find_some_iff in H. destruct H as [y Hy].
  unfold upsert. rewrite Hy. reflexivity.
Qed.

Lemma upsert_absent {A : Type} (p : A -> bool) (f : A -> A) (fresh : A)
    (l : list A) :
  (forall x, In x l -> p x = false) ->
  upsert p f fresh l = l ++ [fresh].
Proof.
  intros H. apply find_none_iff in H. unfold upsert. rewrite H. reflexivity.
Qed.

Section Upsert.
Context {A : Type} (p : A -> bool) (f : A -> A) (fresh : A).
Hypothesis keeps : forall x, p x = true -> p (f x) = true.
Hypothesis fresh_selected : p fresh = true.

Lemma upsert_has_entry (l : list A) :
  exists x, In x (upsert p f fresh l) /\ p x = true.
Proof.
  unfold upsert. destruct (find p l) as [y|] eqn:E.
  - apply find_some in E. destruct E as [Hy Hp].
    exists (f y). split; [|apply keeps, Hp].
    apply in_map_iff. exists y. rewrite Hp. split; [reflexivity|exact Hy].
  - exists fresh. split; [|exact fresh_selected].
    apply in_or_app. right. left. reflexivity.
Qed.

(** A second upsert that agrees with the first on what the first wrote
    changes nothing. *)
Lemma upsert_again (g : A -> A) (fresh' : A) (l : list A) :
  (forall x, p x = true -> g (f x) = f x) ->
  g fresh = fresh ->
  upsert p g fresh' (upsert p f fresh l) = upsert p f fresh l.
Proof.
  intros Hgf Hfresh.
  rewrite (upsert_present p g fresh') by apply upsert_has_entry.
  unfold upsert. destruct (find p l) as [y|] eqn:E.
  - apply map_rewrite_twice; assumption.
  - rewrite find_none_iff in E. rewrite map_app. simpl.
    rewrite fresh_selected, Hfresh.
    rewrite map_rewrite_untouched by exact E. reflexivity.
Qed.
(** Two upserts in a row are one. *)
Lemma upsert_then (g h : A -> A) (fresh' fresh'' : A) (l : list A) :
  (forall x, p x = true -> g (f x) = h x) ->
  g fresh = fresh'' ->
  upsert p g fresh' (upsert p f fresh l) = upsert p h fresh'' l.
Proof.
  intros Hgf Hfresh.
  rewrite (upsert_present p g fresh') by apply upsert_has_entry.
  unfold upsert. destruct (find p l) as [y|] eqn:E.
  - rewrite map_map. apply map_ext. intros x. destruct (p x) eqn:Hp.
    + rewrite (keeps x Hp). apply Hgf, Hp.
    + rewrite Hp. reflexivity.
  - rewrite find_none_iff in E. rewrite map_app. simpl.
    rewrite fresh_selected, Hfresh.
    rewrite map_rewrite_untouched by exact E. reflexivity.
Qed.
End Upsert.

(** ** The [ResultComputed] handler *)

Lemma settled_keeps_turn ev fetched t g :
  Provider.atTurn t g = true -> Provider.atTurn t (settled ev fetched g) = true.
Proof. intros H. exact H. Qed.

Lemma arrived_atTurn ev fetched now :
  Provider.atTurn (ResultComputed.turnIndex ev) (arrived ev fetched now) = true.
Proof. apply atTurn_true. reflexivity. Qed.

Lemma handleResultComputed_room ev fetched now s :
  Provider.currentRoomId (Provider.handleResultComputed ev fetched now s)
  = Provider.currentRoomId s.
Proof.
  unfold Provider.handleResultComputed.
  destruct (Provider.forCurrentRoom ev s); reflexivity.
Qed.

Lemma forCurrentRoom_after ev ev' fetched now s :
  Provider.forCurrentRoom ev' (Provider.handleResultComputed ev fetched now s)
  = Provider.forCurrentRoom ev' s.
Proof.
  unfold Provider.forCurrentRoom. rewrite handleResultComputed_room.
  reflexivity.
Qed.

(** A result-computed event at [t] confirms every entry at [t]. *)
Lemma mergeResult_confirms ev fetched now gs :
  confirmedAt (ResultComputed.turnIndex ev)
              (Provider.resultOf (ResultComputed.signedResult ev))
              (Provider.mergeResult ev fetched now gs).
Proof.
  rewrite mergeResult_upsert. split.
  - destruct (upsert_has_entry (Provider.atTurn (ResultComputed.turnIndex ev))
                (settled ev fetched) (arrived ev fetched now)
                (fun x => settled_keeps_turn ev fetched _ x)
                (arrived_atTurn ev fetched now) gs) as [x [Hx Hp]].
    exists x. split; [exact Hx | apply atTurn_true, Hp].
  - intros x Hx Ht. unfold upsert in Hx.
    destruct (find _ gs) as [y|] eqn:E.
    + apply in_map_iff in Hx. destruct Hx as [z [Hz Hin]].
      destruct (Provider.atTurn _ z) eqn:Hp.
      * subst x. split; reflexivity.
      * subst x. apply atTurn_false in Hp. contradiction.
    + rewrite find_none_iff in E. apply in_app_or in Hx.
      destruct Hx as [Hx|[<-|[]]].
      * apply E in Hx. apply atTurn_false in Hx. contradiction.
      * split; reflexivity.
Qed.

Lemma settled_then ev fetched fetched' g :
  settled ev fetched' (settled ev fetched g)
  = settled ev (lastRead fetched fetched') g.
Proof. destruct fetched, fetched'; reflexivity. Qed.

Lemma settled_arrived_then ev fetched fetched' now :
  settled ev fetched' (arrived ev fetched now)
  = arrived ev (lastRead fetched fetched') now.
Proof. destruct fetched, fetched'; reflexivity. Qed.

Lemma mergeResult_then ev fetched fetched' now now' prev :
  Provider.mergeResult ev fetched' now' (Provider.mergeResult ev fetched now prev)
  = Provider.mergeResult ev (lastRead fetched fetched') now prev.
Proof.
  rewrite !mergeResult_upsert.
  apply upsert_then.
  - intros x. apply settled_keeps_turn.
  - apply arrived_atTurn.
  - intros x _. apply settled_then.
  - apply settled_arrived_then.
Qed.

Lemma state_eq (a b : Provider.State) :
  Provider.currentRoomId a = Provider.currentRoomId b ->
  Provider.roomGuesses a = Provider.roomGuesses b -> a = b.
Proof. destruct a, b. simpl. intros -> ->. reflexivity. Qed.

Lemma Forall2_same {A : Type} (R : A -> A -> Prop) (l : list A) :
  (forall x, R x x) -> Forall2 R l l.
Proof. intros H. induction l; constructor; [apply H | assumption]. Qed.

(** What the second of two handlings of one event does, for the active
    room: every entry at the turn index of the event, confirmed by the first
    handling, is written again. *)
Lemma second_handling ev fetched fetched' now now' s :
  Provider.forCurrentRoom ev s = true ->
  let once := Provider.handleResultComputed ev fetched now s in
  Provider.roomGuesses (Provider.handleResultComputed ev fetched' now' once)
  = map (fun x => if Provider.atTurn (ResultComputed.turnIndex ev) x
                  then settled ev fetched' x else x)
        (Provider.roomGuesses once) /\
  confirmedAt (ResultComputed.turnIndex ev)
    (Provider.resultOf (ResultComputed.signedResult ev))
    (Provider.roomGuesses once).
Proof.
  intros E once. subst once.
  unfold Provider.handleResultComputed at 1.
  rewrite forCurrentRoom_after, E.
  unfold Provider.handleResultComputed. rewrite E.
  cbn [Provider.roomGuesses]. split.
  - rewrite (mergeResult_upsert ev fetched'). apply upsert_present.
    destruct (mergeResult_confirms ev fetched now (Provider.roomGuesses s))
      as [[g [Hg Ht]] _].
    exists g. split; [exact Hg | apply atTurn_true, Ht].
  - apply mergeResult_confirms.
Qed.

(** C1, as the code has it. The handler reads the digits of the guess again
    with [getProbe] every time it runs.  Handling an event a second time
    gives the state that one handling gives with the digits read last (the
    second read, or the first when the second failed).  So the list keeps
    its length and order, and every entry its turn index, result, pending
    flag, timestamp and hash; only digits of entries at the turn index of the
    event can change.  The state is the one after the first handling when the
    second read fails or returns what the first returned and, for the active
    room, exactly when the second read fails or returns the digits that the
    entries at that turn index already hold. *)
Theorem duplicate_event_can_only_change_digits :
  forall (ev : ResultComputed.t) (fetched fetched' : option (list string))
         (now now' : nat) (s : Provider.State),
    let t := ResultComputed.turnIndex ev in
    let once := Provider.handleResultComputed ev fetched now s in
    let twice := Provider.handleResultComputed ev fetched' now' once in
    twice
    = Provider.handleResultComputed ev (lastRead fetched fetched') now s /\
    Forall2 (fun g g' =>
               turnIndex g' = turnIndex g /\ result g' = result g /\
               pending g' = pending g /\ timestamp g' = timestamp g /\
               txHash g' = txHash g /\
               (turnIndex g <> t -> g' = g))
            (Provider.roomGuesses once) (Provider.roomGuesses twice) /\
    (fetched' = None \/ fetched' = fetched -> twice = once) /\
    (Provider.forCurrentRoom ev s = true ->
     forall ds, fetched' = Some ds ->
       (twice = once <->
        forall g, In g (Provider.roomGuesses once) -> turnIndex g = t ->
                  digits g = ds)).
Proof.
  intros ev fetched fetched' now now' s t once twice.
  assert (Hexact : twice = Provider.handleResultComputed ev
                             (lastRead fetched fetched') now s).
  { subst twice once. unfold Provider.handleResultComputed at 1.
    rewrite forCurrentRoom_after.
    destruct (Provider.forCurrentRoom ev s) eqn:E.
    - unfold Provider.handleResultComputed. rewrite E.
      cbn [Provider.roomGuesses Provider.currentRoomId].
      rewrite mergeResult_then. reflexivity.
    - unfold Provider.handleResultComputed. rewrite E. reflexivity. }
  split; [exact Hexact|]. split; [|split].
  - destruct (Provider.forCurrentRoom ev s) eqn:E.
    + destruct (second_handling ev fetched fetched' now now' s E)
        as [Hmap [_ Hconf]].
      fold once in Hmap, Hconf. fold twice in Hmap. fold t in Hmap, Hconf.
      rewrite Hmap. apply Forall2_map_right. intros x Hx.
      destruct (Provider.atTurn t x) eqn:Hp.
      * apply atTurn_true in Hp. destruct (Hconf x Hx Hp) as [Hr Hpend].
        simpl. rewrite Hr, Hpend.
        repeat split; try reflexivity. intros Hne. contradiction.
      * repeat split; reflexivity.
    + assert (Hsame : twice = once).
      { subst twice once. unfold Provider.handleResultComputed.
        rewrite E. rewrite E. reflexivity. }
      rewrite Hsame. apply Forall2_same. intros x.
      repeat split; reflexivity.
  - rewrite Hexact. intros [->| ->].
    + reflexivity.
    + destruct fetched; reflexivity.
  - intros E ds ->.
    destruct (second_handling ev fetched (Some ds) now now' s E)
      as [Hmap [_ Hconf]].
    fold once in Hmap, Hconf. fold twice in Hmap. fold t in Hmap, Hconf.
    split.
    + intros Heq g Hg Ht. rewrite Heq in Hmap.
      rewrite <- (map_id (Provider.roomGuesses once)) in Hmap at 1.
      pose proof (ext_in_map Hmap g Hg) as Hg'. cbv beta in Hg'.
      replace (Provider.atTurn t g) with true in Hg'
        by (symmetry; apply atTurn_true, Ht).
      rewrite Hg'. reflexivity.
    + intros Hd. apply state_eq.
      * subst twice. apply handleResultComputed_room.
      * rewrite Hmap. rewrite <- (map_id (Provider.roomGuesses once)) at 2.
        apply map_ext_in. intros x Hx.
        destruct (Provider.atTurn t x) eqn:Hp; [|reflexivity].
        apply atTurn_true in Hp. destruct (Hconf x Hx Hp) as [Hr Hpend].
        specialize (Hd x Hx Hp). destruct x as [ti dg rs ts tx pd].
        simpl in Hr, Hpend, Hd. unfold settled. simpl.
        rewrite Hr, Hpend, Hd. reflexivity.
Qed.

(** The first read fails and the list gets an entry without digits; the
    duplicate's read succeeds and the digits change. *)
Lemma duplicate_event_replaces_digits : ~ Stated.duplicateIsNoOp.
Proof.
  intros H.
  specialize (H (ResultComputed.mk "7" 0 "0xabc" (Some (SignedResult.mk 1 2)))
                None (Some ["5"; "6"; "7"; "8"]) 200 300
                (Provider.setCurrentRoom (Some "7") Provider.initial)
                eq_refl).
  discriminate H.
Qed.

Example duplicate_event_turn0 :
  let ev := ResultComputed.mk "7" 0 "0xabc" (Some (SignedResult.mk 1 2)) in
  let s0 := Provider.addGuess (GameScreen.newGuess 0 ["5"; "6"; "7"; "8"] 100)
              (Provider.setCurrentRoom (Some "7") Provider.initial) in
  let once := Provider.handleResultComputed ev (Some ["5"; "6"; "7"; "8"]) 200 s0 in
  Provider.roomGuesses once
  = [ {| turnIndex := 0; digits := ["5"; "6"; "7"; "8"];
         result := Holds {| breached := 1; injured := 2 |};
         timestamp := 100; txHash := Missing; pending := Holds false |} ]
  /\ Provider.handleResultComputed ev (Some ["5"; "6"; "7"; "8"]) 300 once = once.
Proof. split; reflexivity. Qed.



(** ** Entries at other turn indices *)

Section Elsewhere.
Context {A : Type} (p q : A -> bool) (f : A -> A) (fresh : A).
Hypothesis apart : forall x, p x = true -> q x = false.
Hypothesis apart_after : forall x, p x = true -> q (f x) = false.
Hypothesis fresh_apart : q fresh = false.

(** An upsert under [p] neither adds, removes nor changes an entry selected
    by a disjoint [q]. *)
Lemma upsert_elsewhere (l : list A) (x : A) :
  q x = true -> (In x (upsert p f fresh l) <-> In x l).
Proof.
  intros Hq. unfold upsert. destruct (find p l) as [y|] eqn:E.
  - rewrite in_map_iff. split.
    + intros [z [Hz Hin]]. destruct (p z) eqn:Hp.
      * subst x. rewrite (apart_after z Hp) in Hq. discriminate.
      * subst x. exact Hin.
    + intros Hin. exists x. split; [|exact Hin].
      destruct (p x) eqn:Hp; [|reflexivity].
      rewrite (apart x Hp) in Hq. discriminate.
  - rewrite in_app_iff. split.
    + intros [Hin|[<-|[]]]; [exact Hin|].
      rewrite fresh_apart in Hq. discriminate.
    + intros Hin. left. exact Hin.
Qed.
End Elsewhere.

Lemma atTurn_apart (t t' : nat) (x : Guess) :
  t' <> t -> Provider.atTurn t' x = true -> Provider.atTurn t x = false.
Proof.
  intros Hne Hx. apply atTurn_true in Hx. apply atTurn_false. congruence.
Qed.

(** [confirmedAt t r] only looks at the entries at [t]. *)
Lemma confirmedAt_same_entries t r gs gs' :
  (forall x, turnIndex x = t -> (In x gs' <-> In x gs)) ->
  confirmedAt t r gs -> confirmedAt t r gs'.
Proof.
  intros Hsame [[g [Hg Ht]] Hall]. split.
  - exists g. split; [apply Hsame; assumption | exact Ht].
  - intros x Hx Hxt. apply Hall; [apply Hsame; assumption | exact Hxt].
Qed.

Lemma addGuessTo_elsewhere guess t gs x :
  turnIndex guess <> t -> turnIndex x = t ->
  (In x (Provider.addGuessTo guess gs) <-> In x gs).
Proof.
  intros Hne Hx. rewrite addGuessTo_upsert.
  apply (upsert_elsewhere _ (Provider.atTurn t)).
  - intros y. apply atTurn_apart, Hne.
  - intros y _. apply atTurn_false. exact Hne.
  - apply atTurn_false. exact Hne.
  - apply atTurn_true. exact Hx.
Qed.

Lemma mergeResult_elsewhere ev fetched now t gs x :
  ResultComputed.turnIndex ev <> t -> turnIndex x = t ->
  (In x (Provider.mergeResult ev fetched now gs) <-> In x gs).
Proof.
  intros Hne Hx. rewrite mergeResult_upsert.
  apply (upsert_elsewhere _ (Provider.atTurn t)).
  - intros y. apply atTurn_apart, Hne.
  - intros y Hy. apply (atTurn_apart t _ (settled ev fetched y) Hne). exact Hy.
  - apply atTurn_false. exact Hne.
  - apply atTurn_true. exact Hx.
Qed.

Lemma removeGuessFrom_In t gs x :
  In x (Provider.removeGuessFrom t gs) <-> In x gs /\ turnIndex x <> t.
Proof.
  unfold Provider.removeGuessFrom. rewrite filter_In.
  rewrite negb_true_iff, atTurn_false. reflexivity.
Qed.

Lemma spares_step t r op s :
  spares t r op ->
  confirmedAt t r (Provider.roomGuesses s) ->
  confirmedAt t r (Provider.roomGuesses (Provider.apply op s)).
Proof.
  destruct op as [guess | ev fetched now | t']; simpl; intros Hop Hc.
  - revert Hc. apply confirmedAt_same_entries. intros x Hx.
    apply (addGuessTo_elsewhere guess t); assumption.
  - unfold Provider.handleResultComputed.
    destruct (Provider.forCurrentRoom ev s); [|exact Hc].
    cbn [Provider.roomGuesses].
    destruct (Nat.eq_dec (ResultComputed.turnIndex ev) t) as [Heq|Hne].
    + destruct Hop as [Hne|Hr]; [contradiction|].
      subst t r. apply mergeResult_confirms.
    + revert Hc. apply confirmedAt_same_entries. intros x Hx.
      apply (mergeResult_elsewhere ev fetched now t); assumption.
  - revert Hc. apply confirmedAt_same_entries. intros x Hx.
    rewrite removeGuessFrom_In. split; [tauto|].
    intros Hin. split; [exact Hin | congruence].
Qed.

(** C3, as the code has it. Through every sequence of [addGuess],
    result-computed events and [removeGuess] that leaves the turn index [t]
    alone (operations at other turn indices, and result-computed events at
    [t] that carry the same result again), an entry at [t] that is confirmed
    with result [r] stays in the list, confirmed, with result [r]. *)
Theorem confirmed_kept_by_sparing_operations :
  forall (ops : list Provider.Op) (s : Provider.State)
         (t : nat) (r : field Result),
    Forall (spares t r) ops ->
    confirmedAt t r (Provider.roomGuesses s) ->
    confirmedAt t r (Provider.roomGuesses (Provider.run ops s)).
Proof.
  intros ops s t r Hops. revert s.
  induction Hops as [|op ops Hop _ IH]; intros s Hc; [exact Hc|].
  simpl. apply IH. apply spares_step; assumption.
Qed.

Lemma confirmed_kept_by_sparing_operations_witness :
  let g0 := {| turnIndex := 0; digits := ["5"; "6"; "7"; "8"];
               result := Holds {| breached := 1; injured := 2 |};
               timestamp := 100; txHash := Missing; pending := Holds false |} in
  let s := {| Provider.currentRoomId := Some "7"; Provider.roomGuesses := [g0] |} in
  let ops := [ Provider.AddGuess (GameScreen.newGuess 1 ["0"; "1"; "2"; "3"] 200);
               Provider.ResultEvent
                 (ResultComputed.mk "7" 0 "0xabc" (Some (SignedResult.mk 1 2)))
                 None 300;
               Provider.RemoveGuess 1 ] in
  confirmedAt 0 (Holds {| breached := 1; injured := 2 |})
              (Provider.roomGuesses (Provider.run ops s)).
Proof.
  intros g0 s ops.
  apply (confirmed_kept_by_sparing_operations ops s 0
           (Holds {| breached := 1; injured := 2 |})).
  - apply Forall_cons; [simpl; discriminate|].
    apply Forall_cons; [simpl; right; reflexivity|].
    apply Forall_cons; [simpl; discriminate|].
    apply Forall_nil.
  - split.
    + exists g0. split; [left; reflexivity | reflexivity].
    + intros g [<-|[]] _. split; reflexivity.
Defined.

(** The three ways the code leaves C3 as stated: [addGuess] at the turn index
    of a confirmed entry makes it pending again; a later event at that turn
    index with another result replaces the result; [removeGuess] deletes the
    entry. *)
Example addGuess_reopens_confirmed :
  let g0 := {| turnIndex := 0; digits := ["5"; "6"; "7"; "8"];
               result := Holds {| breached := 1; injured := 2 |};
               timestamp := 100; txHash := Missing; pending := Holds false |} in
  Provider.addGuessTo (GameScreen.newGuess 0 ["0"; "1"; "2"; "3"] 200) [g0]
  = [ {| turnIndex := 0; digits := ["0"; "1"; "2"; "3"];
         result := Holds {| breached := 1; injured := 2 |};
         timestamp := 200; txHash := Missing; pending := Holds true |} ].
Proof. reflexivity. Qed.

Example later_event_replaces_result :
  let g0 := {| turnIndex := 0; digits := ["5"; "6"; "7"; "8"];
               result := Holds {| breached := 1; injured := 2 |};
               timestamp := 100; txHash := Missing; pending := Holds false |} in
  Provider.mergeResult
    (ResultComputed.mk "7" 0 "0xabc" (Some (SignedResult.mk 4 0))) None 300 [g0]
  = [ {| turnIndex := 0; digits := ["5"; "6"; "7"; "8"];
         result := Holds {| breached := 4; injured := 0 |};
         timestamp := 100; txHash := Missing; pending := Holds false |} ].
Proof. reflexivity. Qed.

Lemma confirmed_is_not_terminal : ~ Stated.confirmedIsTerminal.
Proof.
  intros H.
  pose (g0 := {| turnIndex := 0; digits := ["5"; "6"; "7"; "8"];
                 result := Holds {| breached := 1; injured := 2 |};
                 timestamp := 100; txHash := Missing; pending := Holds false |}).
  pose (s := {| Provider.currentRoomId := Some "7";
                Provider.roomGuesses := [g0] |}).
  destruct (H (Provider.AddGuess (GameScreen.newGuess 0 ["0"; "1"; "2"; "3"] 200))
              s g0
              (spreadGuess g0 (GameScreen.newGuess 0 ["0"; "1"; "2"; "3"] 200)))
    as [_ Hp].
  - left. reflexivity.
  - left. reflexivity.
  - reflexivity.
  - specialize (Hp eq_refl). discriminate Hp.
Qed.

(** ** [setCurrentRoom] *)

(** C4, as the code has it. [setCurrentRoom] records the room id it is given
    and empties the guess list exactly when that id is [null] (or the empty
    string); given a non-empty room id it keeps the list, whatever the room
    before was.  A switch made the way the game screen makes it, with
    [setCurrentRoom(null)] from the effect clean-up before the next
    [setCurrentRoom(roomId)], ends with an empty list. *)
Theorem setCurrentRoom_clears_on_none :
  forall (roomId : option string) (s : Provider.State),
    Provider.currentRoomId (Provider.setCurrentRoom roomId s) = roomId /\
    (truthy roomId = false ->
     Provider.roomGuesses (Provider.setCurrentRoom roomId s) = []) /\
    (truthy roomId = true ->
     Provider.roomGuesses (Provider.setCurrentRoom roomId s)
     = Provider.roomGuesses s) /\
    Provider.roomGuesses
      (Provider.setCurrentRoom roomId (Provider.setCurrentRoom None s)) = [].
Proof.
  intros roomId s. unfold Provider.setCurrentRoom. simpl.
  split; [reflexivity|]. split; [|split].
  - intros H. rewrite H. reflexivity.
  - intros H. rewrite H. reflexivity.
  - destruct (truthy roomId); reflexivity.
Qed.

Lemma switch_to_other_room_keeps_guesses : ~ Stated.switchClearsGuesses.
Proof.
  intros H.
  specialize (H (Some "2")
                {| Provider.currentRoomId := Some "1";
                   Provider.roomGuesses :=
                     [GameScreen.newGuess 0 ["5"; "6"; "7"; "8"] 100] |}).
  simpl in H. assert (Hne : Some "2" <> Some "1") by discriminate.
  specialize (H Hne). discriminate H.
Qed.

(** ** [removeGuess] then [addGuess] *)

Lemma removeGuessFrom_clears t gs :
  forall x, In x (Provider.removeGuessFrom t gs) ->
            Provider.atTurn t x = false.
Proof.
  intros x Hx. apply removeGuessFrom_In in Hx. apply atTurn_false, Hx.
Qed.

(** C5. [removeGuess(t)] deletes every entry at turn index [t], with or
    without a result, and keeps the others; an [addGuess] at [t] right after
    it appends the guess it is given, which is then the only entry at [t]:
    nothing of the removed entry is merged in.  For the optimistic guess that
    the game screen builds, that entry is pending and has no result key. *)
Theorem removeGuess_then_addGuess_is_fresh :
  forall (guess : Guess) (s : Provider.State),
    let t := turnIndex guess in
    let removed := Provider.removeGuess t s in
    let readded := Provider.addGuess guess removed in
    (forall x, In x (Provider.roomGuesses removed) <->
               In x (Provider.roomGuesses s) /\ turnIndex x <> t) /\
    Provider.roomGuesses readded = Provider.roomGuesses removed ++ [guess] /\
    (forall x, In x (Provider.roomGuesses readded) -> turnIndex x = t ->
               x = guess) /\
    (forall digits now,
        guess = GameScreen.newGuess t digits now ->
        pending guess = Holds true /\ result guess = Missing).
Proof.
  intros guess s t removed readded.
  assert (Hadd : Provider.roomGuesses readded
                 = Provider.roomGuesses removed ++ [guess]).
  { subst readded removed. simpl. rewrite addGuessTo_upsert.
    apply upsert_absent. apply removeGuessFrom_clears. }
  split; [|split; [exact Hadd|split]].
  - intros x. subst removed. simpl. apply removeGuessFrom_In.
  - intros x Hx Ht. rewrite Hadd in Hx. apply in_app_or in Hx.
    destruct Hx as [Hx|[<-|[]]]; [|reflexivity].
    subst removed. simpl in Hx. apply removeGuessFrom_In in Hx.
    destruct Hx as [_ Hne]. contradiction.
  - intros ds now H. rewrite H. split; reflexivity.
Qed.

Example rollback_then_retry :
  let g0 := {| turnIndex := 0; digits := ["5"; "6"; "7"; "8"];
               result := Holds {| breached := 1; injured := 2 |};
               timestamp := 100; txHash := Holds "0xfeed";
               pending := Holds false |} in
  Provider.addGuessTo (GameScreen.newGuess 0 ["0"; "1"; "2"; "3"] 200)
    (Provider.removeGuessFrom 0 [g0])
  = [ {| turnIndex := 0; digits := ["0"; "1"; "2"; "3"]; result := Missing;
         timestamp := 200; txHash := Missing; pending := Holds true |} ].
Proof. reflexivity. Qed.

(** ** [handleSubmit] when the submission throws *)


Lemma handleSubmit_checked roomId now outcome during v :
  truthy roomId = true ->
  existsb GameScreen.isEmpty (GameScreen.selectedDigits v) = false ->
  GameScreen.distinctCount (GameScreen.selectedDigits v) = 4 ->
  let turn := length (Provider.roomGuesses (GameScreen.provider v)) in
  let added :=
    Provider.run during
      (Provider.addGuess
         (GameScreen.newGuess turn (GameScreen.selectedDigits v) now)
         (GameScreen.provider v)) in
  GameScreen.provider (GameScreen.handleSubmit roomId now outcome during v)
  = match outcome with
    | GameScreen.Resolved => added
    | GameScreen.Threw => Provider.removeGuess turn added
    end.
Proof.
  intros Hroom Hfull Hdistinct. unfold GameScreen.handleSubmit.
  rewrite Hfull, Hdistinct, Hroom. simpl. destruct outcome; reflexivity.
Qed.





Lemma removeGuessFrom_twice t gs :
  Provider.removeGuessFrom t (Provider.removeGuessFrom t gs)
  = Provider.removeGuessFrom t gs.
Proof.
  unfold Provider.removeGuessFrom. apply filter_id_iff.
  intros x Hx. apply filter_In in Hx. apply Hx.
Qed.










(** ** Turn order and the guess partition *)

Lemma mod2_zero_even n : Nat.eqb (n mod 2) 0 = Nat.even n.
Proof.
  destruct (Nat.even n) eqn:E.
  - apply Nat.even_spec in E. destruct E as [k ->].
    apply Nat.eqb_eq. rewrite Nat.mul_comm. apply Nat.Div0.mod_mul.
  - apply Nat.eqb_neq. intros H.
    apply Nat.Div0.mod_divides in H. destruct H as [k Hk].
    assert (Hev : Nat.even n = true) by (apply Nat.even_spec; exists k; exact Hk).
    congruence.
Qed.

Lemma mod2_one_odd n : Nat.eqb (n mod 2) 1 = Nat.odd n.
Proof.
  unfold Nat.odd. rewrite <- mod2_zero_even.
  pose proof (Nat.mod_upper_bound n 2 ltac:(discriminate)) as Hlt.
  destruct (n mod 2) as [|[|m]]; simpl; try reflexivity. lia.
Qed.

(** The account on whose screen the room is shown, as the comparison with
    the creator sees it: [subAccount?.address.toLowerCase()]. *)
Lemma isPlayerCreator_spec room (subAccount : option GameScreen.SubAccount) :
  GameScreen.isPlayerCreator (Some room) subAccount = true <->
  option_map (fun a => GameScreen.toLowerCase (GameScreen.address a))
             subAccount
  = Some (GameScreen.toLowerCase (GameScreen.creator room)).
Proof.
  unfold GameScreen.isPlayerCreator. destruct subAccount as [a|]; simpl.
  - rewrite String.eqb_eq. split; [intros ->; reflexivity|].
    intros H. injection H as H. symmetry. exact H.
  - split; discriminate.
Qed.

(** C6. In a loaded room with creator C the current turn index is the number
    of stored guesses.  On the screen of C (the sub-account whose address is
    the creator's, up to letter case) the player's guesses, which are then
    C's, are exactly the stored guesses with an even turn index, the
    opponent's exactly those with an odd one, and it is the player's turn if
    and only if the number of stored guesses is even.  On every other screen,
    the one of the opponent O in particular, the opponent's guesses, which
    are then C's, are exactly those with an even turn index, the player's
    exactly those with an odd one, and it is not the player's turn, the
    creator being to move, if and only if the number of stored guesses is
    even. *)
Theorem turn_parity_and_whose_turn :
  forall (room : GameScreen.RoomMetadata)
         (subAccount : option GameScreen.SubAccount)
         (roomGuesses : list Guess),
    let isPlayerCreator :=
      GameScreen.isPlayerCreator (Some room) subAccount in
    let playerGuesses :=
      GameScreen.playerGuesses isPlayerCreator roomGuesses in
    let opponentGuesses :=
      GameScreen.opponentGuesses isPlayerCreator roomGuesses in
    let isPlayerTurn := GameScreen.isPlayerTurn isPlayerCreator roomGuesses in
    let viewer :=
      option_map (fun a => GameScreen.toLowerCase (GameScreen.address a))
                 subAccount in
    GameScreen.currentTurnIndex roomGuesses = length roomGuesses /\
    (viewer = Some (GameScreen.toLowerCase (GameScreen.creator room)) ->
     (forall g, In g playerGuesses <->
                In g roomGuesses /\ Nat.even (turnIndex g) = true) /\
     (forall g, In g opponentGuesses <->
                In g roomGuesses /\ Nat.odd (turnIndex g) = true) /\
     (isPlayerTurn = true <-> Nat.even (length roomGuesses) = true)) /\
    (viewer <> Some (GameScreen.toLowerCase (GameScreen.creator room)) ->
     (forall g, In g opponentGuesses <->
                In g roomGuesses /\ Nat.even (turnIndex g) = true) /\
     (forall g, In g playerGuesses <->
                In g roomGuesses /\ Nat.odd (turnIndex g) = true) /\
     (isPlayerTurn = false <-> Nat.even (length roomGuesses) = true)).
Proof.
  intros room subAccount gs pc mine theirs myTurn viewer.
  split; [reflexivity|].
  subst mine theirs myTurn.
  unfold GameScreen.isPlayerTurn, GameScreen.playerGuesses,
    GameScreen.opponentGuesses, GameScreen.currentTurnIndex.
  split.
  - intros Hsame.
    assert (Hpc : pc = true).
    { subst pc. apply isPlayerCreator_spec. exact Hsame. }
    rewrite Hpc. split; [|split].
    + intros g. rewrite filter_In, mod2_zero_even. reflexivity.
    + intros g. rewrite filter_In, mod2_one_odd. reflexivity.
    + rewrite mod2_zero_even. reflexivity.
  - intros Hother.
    assert (Hpc : pc = false).
    { subst pc. apply not_true_is_false. intros H. apply Hother.
      apply isPlayerCreator_spec. exact H. }
    rewrite Hpc. split; [|split].
    + intros g. rewrite filter_In, mod2_zero_even. reflexivity.
    + intros g. rewrite filter_In, mod2_one_odd. reflexivity.
    + rewrite mod2_one_odd. unfold Nat.odd. rewrite negb_false_iff.
      reflexivity.
Qed.

Lemma turn_parity_and_whose_turn_witness :
  let room := GameScreen.mkRoom "0xAbC1" "0xdEf2" "0.01" 1 2 in
  let gs := [ GameScreen.newGuess 0 ["1"; "2"; "3"; "4"] 10;
              GameScreen.newGuess 1 ["5"; "6"; "7"; "8"] 20 ] in
  let creatorScreen :=
    GameScreen.isPlayerCreator (Some room)
      (Some (GameScreen.mkSubAccount "0xabc1")) in
  let opponentScreen :=
    GameScreen.isPlayerCreator (Some room)
      (Some (GameScreen.mkSubAccount "0xDEF2")) in
  (GameScreen.isPlayerTurn creatorScreen gs = true <-> Nat.even 2 = true) /\
  (GameScreen.isPlayerTurn opponentScreen gs = false <-> Nat.even 2 = true).
Proof.
  intros room gs creatorScreen opponentScreen. split.
  - destruct (turn_parity_and_whose_turn room
                (Some (GameScreen.mkSubAccount "0xabc1")) gs)
      as [_ [Hcreator _]].
    apply Hcreator. reflexivity.
  - destruct (turn_parity_and_whose_turn room
                (Some (GameScreen.mkSubAccount "0xDEF2")) gs)
      as [_ [_ Hother]].
    apply Hother. discriminate.
Defined.

Example third_turn_is_the_creators :
  let room := GameScreen.mkRoom "0xAbC1" "0xdEf2" "0.01" 1 2 in
  let gs := [ GameScreen.newGuess 0 ["1"; "2"; "3"; "4"] 10;
              GameScreen.newGuess 1 ["5"; "6"; "7"; "8"] 20 ] in
  GameScreen.isPlayerCreator (Some room) (Some (GameScreen.mkSubAccount "0xabc1"))
  = true /\
  GameScreen.isPlayerTurn true gs = true /\
  GameScreen.isPlayerCreator (Some room) (Some (GameScreen.mkSubAccount "0xDEF2"))
  = false /\
  GameScreen.isPlayerTurn false gs = false /\
  GameScreen.playerGuesses false gs
  = [GameScreen.newGuess 1 ["5"; "6"; "7"; "8"] 20].
Proof. repeat split; reflexivity. Qed.

(** ** Waiting for a receipt *)

Module WaitFacts.
Import Transactions.

Lemma bind_trace_outcome {A B : Type} (m : Async A) (k : A -> Async B) :
  trace (bind m k)
  = match outcome m with
    | Returned a => trace m ++ trace (k a)
    | Thrown _ => trace m
    end
  /\ outcome (bind m k)
     = match outcome m with
       | Returned a => outcome (k a)
       | Thrown e => Thrown e
       end.
Proof.
  destruct m as [tr [a|e]]; simpl; [|split; reflexivity].
  destruct (k a) as [tr' out]. split; reflexivity.
Qed.

Lemma bind_trace {A B : Type} (m : Async A) (k : A -> Async B) :
  trace (bind m k)
  = match outcome m with
    | Returned a => trace m ++ trace (k a)
    | Thrown _ => trace m
    end.
Proof. apply bind_trace_outcome. Qed.

Lemma bind_outcome {A B : Type} (m : Async A) (k : A -> Async B) :
  outcome (bind m k)
  = match outcome m with
    | Returned a => outcome (k a)
    | Thrown e => Thrown e
    end.
Proof. apply bind_trace_outcome. Qed.

Section Loop.
Variable txHash : string.
Variable rpc : Rpc.

Lemma pollReceipt_step remaining attempts :
  pollReceipt txHash rpc (S remaining) attempts
  = match rpc attempts with
    | Found receipt => ([GetReceipt txHash], Returned (Some receipt))
    | Failed reason => ([GetReceipt txHash], Thrown (Rejected reason))
    | Null =>
        (GetReceipt txHash :: Wait 1000
           :: trace (pollReceipt txHash rpc remaining (S attempts)),
         outcome (pollReceipt txHash rpc remaining (S attempts)))
    end.
Proof.
  simpl. destruct (rpc attempts); try reflexivity.
  destruct (pollReceipt txHash rpc remaining (S attempts)) as [tr out].
  reflexivity.
Qed.

(** The loop makes at most [remaining] requests, one second apart, never
    throws the time-out error itself, and ends without a receipt exactly
    when every request it could make comes back empty. *)
Lemma pollReceipt_spec remaining :
  forall attempts,
    let m := pollReceipt txHash rpc remaining attempts in
    length (filter isPoll (trace m)) <= remaining /\
    paced 1000 (trace m) = true /\
    (outcome m = Returned None <->
     forall i, i < remaining -> rpc (attempts + i) = Null) /\
    outcome m <> Thrown ReceiptNotFound.
Proof.
  induction remaining as [|n IH]; intros attempts m.
  - subst m. simpl. repeat split; try lia; try discriminate.
  - subst m. rewrite pollReceipt_step.
    specialize (IH (S attempts)). cbv zeta in IH.
    destruct IH as [Hcount [Hpaced [Hnone Hnot]]].
    destruct (rpc attempts) eqn:Hr; simpl.
    + repeat split; try lia; try discriminate.
      intros H. specialize (H 0 (Nat.lt_0_succ n)).
      rewrite Nat.add_0_r, Hr in H. discriminate.
    + split; [lia|]. split; [exact Hpaced|]. split; [|exact Hnot].
      rewrite Hnone. split.
      * intros H [|i] Hi; [rewrite Nat.add_0_r; exact Hr|].
        replace (attempts + S i) with (S attempts + i) by lia.
        apply H. lia.
      * intros H i Hi.
        replace (S attempts + i) with (attempts + S i) by lia.
        apply H. lia.
    + repeat split; try lia; try discriminate.
      intros H. specialize (H 0 (Nat.lt_0_succ n)).
      rewrite Nat.add_0_r, Hr in H. discriminate.
Qed.

Lemma waitForReceipt_spec maxAttempts :
  let m := waitForReceipt maxAttempts txHash rpc in
  polls m <= maxAttempts /\
  paced 1000 (trace m) = true /\
  (timedOut m <-> noReceiptWithin maxAttempts rpc).
Proof.
  intros m. subst m. unfold waitForReceipt, polls, timedOut.
  rewrite bind_trace, bind_outcome.
  destruct (pollReceipt_spec maxAttempts 0)
    as [Hcount [Hpaced [Hnone Hnot]]].
  cbv zeta in Hcount, Hpaced, Hnone, Hnot.
  destruct Hnone as [Hempty Hended]. simpl in Hempty, Hended.
  unfold noReceiptWithin.
  destruct (outcome (pollReceipt txHash rpc maxAttempts 0))
    as [[r|]|e] eqn:Hout; simpl; rewrite ?app_nil_r.
  - split; [exact Hcount|]. split; [exact Hpaced|]. split.
    + discriminate.
    + intros H. specialize (Hended H). discriminate.
  - split; [exact Hcount|]. split; [exact Hpaced|]. split.
    + intros _. apply Hempty. reflexivity.
    + reflexivity.
  - split; [exact Hcount|]. split; [exact Hpaced|]. split.
    + intros H. congruence.
    + intros H. specialize (Hended H). discriminate.
Qed.

(** Sending, waiting thirty attempts, and returning a value computed from
    the hash and the receipt: the common body of the three functions. *)
Lemma send_then_wait {B : Type} (k : string -> Receipt -> B) :
  confirmationWait rpc
    (bind (sendTransaction (TxHash txHash)) (fun tx =>
       bind (waitForReceipt 30 tx rpc) (fun receipt =>
         ret (k tx receipt)))).
Proof.
  unfold confirmationWait, polls, timedOut.
  rewrite bind_trace, bind_outcome. simpl.
  rewrite bind_trace, bind_outcome.
  destruct (waitForReceipt_spec 30) as [Hcount [Hpaced [Hout Hin]]].
  cbv zeta in Hcount, Hpaced, Hout, Hin.
  unfold polls in Hcount. unfold timedOut in Hout, Hin.
  destruct (outcome (waitForReceipt 30 txHash rpc)) as [r|e] eqn:Hw;
    simpl; rewrite ?app_nil_r.
  - split; [exact Hcount|]. split; [exact Hpaced|]. split.
    + discriminate.
    + intros H. specialize (Hin H). discriminate.
  - split; [exact Hcount|]. split; [exact Hpaced|]. split.
    + intros H. apply Hout. congruence.
    + intros H. specialize (Hin H). congruence.
Qed.
End Loop.

End WaitFacts.

(** C8. In [createRoom], [joinRoom] and [submitGuess] alike, once the
    transaction is sent the receipt is requested at most thirty times, each
    request but the last followed by a wait of 1000 ms, and the call ends
    with the error "Transaction receipt not found after timeout" if and only
    if each of the thirty requests came back without a receipt. *)
Theorem receipt_wait_is_thirty_one_second_polls :
  forall (hash : string) (rpc : Transactions.Rpc),
    Transactions.confirmationWait rpc
      (Transactions.createRoom true (Transactions.TxHash hash) rpc) /\
    Transactions.confirmationWait rpc
      (Transactions.joinRoom true (Transactions.TxHash hash) rpc) /\
    Transactions.confirmationWait rpc
      (Transactions.submitGuess true (Transactions.TxHash hash) rpc) /\
    Transactions.message Transactions.ReceiptNotFound
    = "Transaction receipt not found after timeout".
Proof.
  intros hash rpc. split; [|split; [|split]].
  - apply (WaitFacts.send_then_wait hash rpc
             (fun _ receipt => Transactions.roomResult "RoomCreated" receipt)).
  - apply (WaitFacts.send_then_wait hash rpc
             (fun _ receipt => Transactions.roomResult "RoomJoined" receipt)).
  - apply (WaitFacts.send_then_wait hash rpc (fun tx _ => tx)).
  - reflexivity.
Qed.

Example receipt_on_third_request :
  let rpc := fun n => if Nat.eqb n 2
                      then Transactions.Found (Transactions.mkReceipt [])
                      else Transactions.Null in
  Transactions.submitGuess true (Transactions.TxHash "0xfeed") rpc
  = ([ Transactions.SendTransaction;
       Transactions.GetReceipt "0xfeed"; Transactions.Wait 1000;
       Transactions.GetReceipt "0xfeed"; Transactions.Wait 1000;
       Transactions.GetReceipt "0xfeed" ],
     Transactions.Returned "0xfeed").
Proof. reflexivity. Qed.

Example no_receipt_times_out :
  let m := Transactions.createRoom true (Transactions.TxHash "0xfeed")
             (fun _ => Transactions.Null) in
  Transactions.outcome m = Transactions.Thrown Transactions.ReceiptNotFound /\
  Transactions.polls m = 30 /\
  length (Transactions.trace m) = 61.
Proof. repeat split; reflexivity. Qed.

(** ** The event poller after [stopListening] *)

Module PollerFacts.
Import EventHandler.

(** Dispatching logs only grows the record of invoked handlers. *)
Lemma processEvent_keeps event w :
  this (processEvent event w) = this w /\
  timers (processEvent event w) = timers w /\
  inFlight (processEvent event w) = inFlight w /\
  started (processEvent event w) = started w.
Proof.
  destruct event as [n|]; simpl; [|repeat split].
  destruct (handlers (this w) n); repeat split.
Qed.

Lemma processAll_keeps events :
  forall w,
    this (processAll events w) = this w /\
    timers (processAll events w) = timers w /\
    inFlight (processAll events w) = inFlight w /\
    started (processAll events w) = started w.
Proof.
  induction events as [|event events IH]; intros w; simpl; [repeat split|].
  destruct (IH (processEvent event w)) as [H1 [H2 [H3 H4]]].
  destruct (processEvent_keeps event w) as [K1 [K2 [K3 K4]]].
  unfold processAll in *. repeat split; congruence.
Qed.

Lemma stopListening_stops w : tidy w -> stopped (stopListening w).
Proof.
  unfold tidy, stopped, stopListening.
  destruct (isListening (this w)) eqn:E; simpl.
  - intros [id [-> Ht]]. simpl. rewrite Ht. simpl.
    destruct (Nat.eq_dec id id) as [_|Hne]; [|contradiction].
    repeat split.
  - intros [Hp Ht]. rewrite E. repeat split; assumption.
Qed.

Lemma stopped_tidy w : stopped w -> tidy w.
Proof. unfold stopped, tidy. intros [-> H]. exact H. Qed.

Lemma tidy_step t w : tidy w -> tidy (step t w).
Proof.
  intros H. destruct t as [hs | hs | | | id | k latest | k events]; simpl.
  - unfold initialize, startListening, startPolling, tidy in *. simpl.
    destruct (isListening (this w)) eqn:E; simpl.
    + exact H.
    + destruct H as [_ ->]. exists (nextTimer w). split; reflexivity.
  - exact H.
  - apply stopped_tidy, stopListening_stops, H.
  - pose proof (stopListening_stops w H) as [H1 [H2 H3]].
    unfold cleanup, tidy. simpl. rewrite H1. split; assumption.
  - unfold pollCallback, tidy in *.
    destruct (isListening (this w)) eqn:E; simpl.
    + unfold checkForNewEvents.
      destruct (contract (this w)); simpl; rewrite E; exact H.
    + rewrite E. destruct H as [Hp ->]. split; [exact Hp | reflexivity].
  - unfold blockNumberArrives.
    destruct (nth_error (inFlight w) k) as [[|a b]|]; try exact H.
    destruct latest as [n|]; [destruct (contract (this w))|]; exact H.
  - unfold logsArrive.
    destruct (nth_error (inFlight w) k) as [[|a b]|]; try exact H.
    destruct events as [events|]; [|exact H].
    destruct (processAll_keeps events
                (setInFlight (removeAt k (inFlight w)) w)) as [K1 [K2 _]].
    unfold tidy. rewrite K1, K2. exact H.
Qed.

Lemma tidy_reachable w : reachable w -> tidy w.
Proof.
  intros [ts ->]. unfold run.
  assert (Hgen : forall w0, tidy w0 ->
                   tidy (fold_left (fun acc t => step t acc) ts w0)).
  { induction ts as [|t ts IH]; intros w0 H0; simpl; [exact H0|].
    apply IH, tidy_step, H0. }
  apply Hgen. unfold tidy. simpl. split; reflexivity.
Qed.

(** One task on a stopped poller, other than starting it again: the poller
    stays stopped, no cycle begins, and with no cycle suspended no handler
    is called. *)
Lemma stopped_step t w :
  restarts t = false ->
  stopped w ->
  stopped (step t w) /\
  started (step t w) = started w /\
  (inFlight w = [] ->
   inFlight (step t w) = [] /\ invoked (step t w) = invoked w).
Proof.
  intros Hr [Hl [Hp Ht]].
  destruct t as [hs | hs | | | id | k latest | k events]; simpl in *.
  - discriminate.
  - unfold stopped. simpl. repeat split; assumption.
  - unfold stopListening. rewrite Hl. simpl.
    unfold stopped. repeat split; assumption.
  - unfold cleanup, stopListening. rewrite Hl. simpl.
    unfold stopped. simpl. repeat split; assumption.
  - unfold pollCallback. rewrite Hl. simpl.
    unfold stopped. simpl. rewrite Ht. repeat split; assumption.
  - unfold blockNumberArrives.
    destruct (nth_error (inFlight w) k) as [[|a b]|] eqn:En;
      try (unfold stopped; repeat split; assumption).
    assert (Hcycle : inFlight w = [] -> False).
    { intros He. rewrite He in En. destruct k; discriminate. }
    destruct latest as [n|]; [destruct (contract (this w))|];
      unfold stopped; simpl;
      (split; [repeat split; assumption
              | split; [reflexivity | intros He; destruct (Hcycle He)]]).
  - unfold logsArrive.
    destruct (nth_error (inFlight w) k) as [[|a b]|] eqn:En;
      try (unfold stopped; repeat split; assumption).
    assert (Hcycle : inFlight w = [] -> False).
    { intros He. rewrite He in En. destruct k; discriminate. }
    destruct events as [events|].
    + destruct (processAll_keeps events
                  (setInFlight (removeAt k (inFlight w)) w))
        as [K1 [K2 [K3 K4]]].
      unfold stopped. rewrite K1, K2, K4. simpl.
      split; [repeat split; assumption|].
      split; [reflexivity | intros He; destruct (Hcycle He)].
    + unfold stopped. simpl.
      split; [repeat split; assumption|].
      split; [reflexivity | intros He; destruct (Hcycle He)].
Qed.

Lemma stopped_run ts :
  forall w,
    noRestart ts ->
    stopped w ->
    stopped (run ts w) /\
    started (run ts w) = started w /\
    (inFlight w = [] -> invoked (run ts w) = invoked w).
Proof.
  unfold noRestart, run.
  induction ts as [|t ts IH]; intros w Hts Hw; simpl.
  - repeat split; try apply Hw.
  - simpl in Hts. apply andb_true_iff in Hts. destruct Hts as [Ht Hts].
    apply negb_true_iff in Ht.
    destruct (stopped_step t w Ht Hw) as [Hs [Hst Hq]].
    destruct (IH (step t w) Hts Hs) as [Hs' [Hst' Hq']].
    split; [exact Hs'|]. split; [congruence|].
    intros He. destruct (Hq He) as [He' Hi].
    rewrite (Hq' He'). exact Hi.
Qed.

(** The guard at the top of the interval callback. *)
Lemma stale_callback_is_noop id w :
  isListening (this w) = false ->
  this (pollCallback id w) = this w /\
  inFlight (pollCallback id w) = inFlight w /\
  started (pollCallback id w) = started w /\
  invoked (pollCallback id w) = invoked w /\
  ~ In id (timers (pollCallback id w)).
Proof.
  intros Hl. unfold pollCallback. rewrite Hl. simpl.
  repeat split. apply remove_In.
Qed.

End PollerFacts.

(** C9, as the code has it. After [stopListening()], and until the poller is
    initialised again: the interval is cleared and no interval is left, the
    [isListening] flag is false and stays false, no poll cycle begins any
    more, and a timer callback that still fires does nothing, stopped by the
    [isListening] check at its top.  A handler can still be called, but only
    by a poll cycle that was already waiting for the network when the poller
    was stopped: with no such cycle, no handler is ever called again. *)
Theorem stopListening_ends_polling :
  forall (w : EventHandler.World) (ts : list EventHandler.Task),
    let w0 := EventHandler.step EventHandler.StopListening w in
    let w' := EventHandler.run ts w0 in
    EventHandler.reachable w ->
    EventHandler.noRestart ts ->
    (EventHandler.timers w0 = [] /\
     EventHandler.pollInterval (EventHandler.this w0) = None /\
     EventHandler.isListening (EventHandler.this w0) = false) /\
    (EventHandler.timers w' = [] /\
     EventHandler.isListening (EventHandler.this w') = false) /\
    EventHandler.started w' = EventHandler.started w0 /\
    (forall id,
        EventHandler.started (EventHandler.pollCallback id w')
        = EventHandler.started w' /\
        EventHandler.inFlight (EventHandler.pollCallback id w')
        = EventHandler.inFlight w' /\
        EventHandler.invoked (EventHandler.pollCallback id w')
        = EventHandler.invoked w') /\
    (EventHandler.inFlight w0 = [] ->
     EventHandler.invoked w' = EventHandler.invoked w0).
Proof.
  intros w ts w0 w' Hreach Hts.
  assert (H0 : stopped w0).
  { apply PollerFacts.stopListening_stops, PollerFacts.tidy_reachable, Hreach. }
  destruct (PollerFacts.stopped_run ts w0 Hts H0) as [Hs [Hst Hq]].
  fold w' in Hs, Hst, Hq.
  destruct H0 as [Hl0 [Hp0 Ht0]]. destruct Hs as [Hl [Hp Ht]].
  split; [repeat split; assumption|].
  split; [split; assumption|].
  split; [exact Hst|]. split; [|exact Hq].
  intros id.
  destruct (PollerFacts.stale_callback_is_noop id w' Hl)
    as [_ [Hi [Hs' [Hv _]]]].
  repeat split; assumption.
Qed.

Lemma stopListening_ends_polling_witness :
  let all : EventHandler.EventHandlers := fun _ => true in
  let w := EventHandler.run
             [ EventHandler.Initialize all; EventHandler.TimerFires 0;
               EventHandler.BlockNumber 0 (Some 120);
               EventHandler.Logs 0 (Some [Some EventHandler.RoomJoined; None]) ]
             EventHandler.initial in
  let ts := [ EventHandler.TimerFires 0; EventHandler.BlockNumber 0 (Some 121);
              EventHandler.Logs 0 (Some [Some EventHandler.ResultComputed]);
              EventHandler.StopListening; EventHandler.TimerFires 0 ] in
  EventHandler.invoked
    (EventHandler.run ts (EventHandler.step EventHandler.StopListening w))
  = [EventHandler.RoomJoined].
Proof.
  intros all w ts.
  apply (stopListening_ends_polling w ts).
  - exists [ EventHandler.Initialize all; EventHandler.TimerFires 0;
             EventHandler.BlockNumber 0 (Some 120);
             EventHandler.Logs 0 (Some [Some EventHandler.RoomJoined; None]) ].
    reflexivity.
  - reflexivity.
  - reflexivity.
Defined.

(** A cycle that is waiting for the network when the poller is stopped goes
    on when the answer comes and calls the handlers of the logs it gets. *)
Lemma handler_called_after_stop : ~ Stated.silentAfterStop.
Proof.
  intros H.
  pose (all := (fun _ => true) : EventHandler.EventHandlers).
  specialize (H (EventHandler.run
                   [EventHandler.Initialize all; EventHandler.TimerFires 0]
                   EventHandler.initial)
                [ EventHandler.BlockNumber 0 (Some 120);
                  EventHandler.Logs 0 (Some [Some EventHandler.ResultComputed]) ]).
  assert (Hreach : EventHandler.reachable
                     (EventHandler.run
                        [EventHandler.Initialize all; EventHandler.TimerFires 0]
                        EventHandler.initial)).
  { exists [EventHandler.Initialize all; EventHandler.TimerFires 0].
    reflexivity. }
  specialize (H Hreach eq_refl). discriminate H.
Qed.

Example in_flight_cycle_after_stop :
  let all : EventHandler.EventHandlers := fun _ => true in
  let w := EventHandler.run
             [ EventHandler.Initialize all; EventHandler.TimerFires 0;
               EventHandler.StopListening ] EventHandler.initial in
  EventHandler.isListening (EventHandler.this w) = false /\
  EventHandler.timers w = [] /\
  EventHandler.inFlight w = [EventHandler.AwaitingBlockNumber] /\
  EventHandler.invoked w = [] /\
  EventHandler.invoked
    (EventHandler.run
       [ EventHandler.BlockNumber 0 (Some 120);
         EventHandler.Logs 0 (Some [Some EventHandler.ResultComputed]) ] w)
  = [EventHandler.ResultComputed].
Proof. repeat split; reflexivity. Qed.

(** ** The invitation link *)

Module LinkFacts.
Import JoinRoom.

Lemma plainChar_unreserved c :
  plainChar c = true ->
  isChar "#" c = false /\ isChar "&" c = false /\
  isChar "+" c = false /\ isChar "%" c = false.
Proof.
  destruct c as [[] [] [] [] [] [] [] []]; vm_compute;
    intros H; try discriminate H; repeat split.
Qed.

Lemma search_after_origin origin rest :
  isOrigin origin = true ->
  search (origin ++ rest)%string = search rest.
Proof.
  unfold isOrigin. induction origin as [|c origin IH]; simpl; intros H.
  - reflexivity.
  - apply andb_true_iff in H. destruct H as [Hc H].
    apply andb_true_iff in Hc. destruct Hc as [Hq Hh].
    apply negb_true_iff in Hq. apply negb_true_iff in Hh.
    rewrite Hh, Hq. apply IH, H.
Qed.

Lemma beforeFragment_plain r :
  allChars plainChar r = true -> beforeFragment r = r.
Proof.
  induction r as [|c r IH]; simpl; intros H; [reflexivity|].
  apply andb_true_iff in H. destruct H as [Hc H].
  destruct (plainChar_unreserved c Hc) as [-> _].
  rewrite IH by exact H. reflexivity.
Qed.

Lemma splitOn_plain r :
  allChars plainChar r = true -> splitOn "&" r = [r].
Proof.
  induction r as [|c r IH]; simpl; intros H; [reflexivity|].
  apply andb_true_iff in H. destruct H as [Hc H].
  destruct (plainChar_unreserved c Hc) as [_ [-> _]].
  rewrite IH by exact H. reflexivity.
Qed.

Lemma plusToSpace_plain r :
  allChars plainChar r = true -> plusToSpace r = r.
Proof.
  induction r as [|c r IH]; simpl; intros H; [reflexivity|].
  apply andb_true_iff in H. destruct H as [Hc H].
  destruct (plainChar_unreserved c Hc) as [_ [_ [-> _]]].
  rewrite IH by exact H. reflexivity.
Qed.

Lemma percentDecode_plain r :
  allChars plainChar r = true -> percentDecode r = r.
Proof.
  induction r as [|c r IH]; simpl; intros H; [reflexivity|].
  apply andb_true_iff in H. destruct H as [Hc H].
  destruct (plainChar_unreserved c Hc) as [_ [_ [_ ->]]].
  rewrite IH by exact H. reflexivity.
Qed.

Lemma decodeComponent_plain r :
  allChars plainChar r = true -> decodeComponent r = r.
Proof.
  intros H. unfold decodeComponent.
  rewrite plusToSpace_plain by exact H. apply percentDecode_plain, H.
Qed.

(** The query of an invitation link is the single pair [room = r]. *)
Lemma params_of_link origin r :
  isOrigin origin = true ->
  plainRoomId r = true ->
  useSearchParams (GameScreen.copyInvitationLink origin (Some r))
  = [("room", r)].
Proof.
  intros Ho Hr. unfold plainRoomId in Hr.
  apply andb_true_iff in Hr. destruct Hr as [Hne Hplain].
  unfold useSearchParams, GameScreen.copyInvitationLink.
  rewrite search_after_origin by exact Ho.
  cbn [search beforeFragment String.append isChar Ascii.eqb Bool.eqb].
  rewrite beforeFragment_plain by exact Hplain.
  unfold URLSearchParams.
  cbn [dropQuestionMark isChar Ascii.eqb Bool.eqb splitOn].
  rewrite splitOn_plain by exact Hplain.
  cbn [filter nonEmpty map splitFirst isChar Ascii.eqb Bool.eqb].
  rewrite (decodeComponent_plain r) by exact Hplain.
  reflexivity.
Qed.

End LinkFacts.

(** C10. For every room id [r] (a non-empty string of digits, or more
    generally of letters, digits, [-], [.], [_], [~]) and every origin, the
    join page opened at the link [<origin>/join?room=r] that the game screen
    copies has its room id field filled with exactly [r], and shows the
    invitation message. *)
Theorem invitation_link_round_trips :
  forall (origin r : string),
    JoinRoom.isOrigin origin = true ->
    JoinRoom.plainRoomId r = true ->
    JoinRoom.openedAt (GameScreen.copyInvitationLink origin (Some r))
    = {| JoinRoom.roomId := r; JoinRoom.showInviteMessage := true |}.
Proof.
  intros origin r Ho Hr. unfold JoinRoom.openedAt.
  rewrite (LinkFacts.params_of_link origin r Ho Hr).
  unfold JoinRoom.plainRoomId in Hr. apply andb_true_iff in Hr.
  destruct Hr as [Hne _].
  destruct r as [|c r]; [discriminate Hne|]. reflexivity.
Qed.

Lemma invitation_link_round_trips_witness :
  JoinRoom.roomId
    (JoinRoom.openedAt
       (GameScreen.copyInvitationLink "https://vaultwars.example" (Some "42")))
  = "42".
Proof.
  rewrite (invitation_link_round_trips "https://vaultwars.example" "42");
    reflexivity.
Defined.

Example link_for_room_42 :
  GameScreen.copyInvitationLink "https://vaultwars.example" (Some "42")
  = "https://vaultwars.example/join?room=42" /\
  JoinRoom.useSearchParams "https://vaultwars.example/join?room=42"
  = [("room", "42")] /\
  JoinRoom.useSearchParams "https://vaultwars.example/join?roomId=42&x=%41+b#top"
  = [("roomId", "42"); ("x", "A b")].
Proof. repeat split; reflexivity. Qed.

(* ================================================================== *)
(** * Part III: further properties of the code *)
(* ================================================================== *)

(** ** The guess list: turn indices *)

Lemma in_turnIndices t gs :
  In t (turnIndices gs) <-> exists g, In g gs /\ Provider.atTurn t g = true.
Proof.
  unfold turnIndices. rewrite in_map_iff. split.
  - intros [g [Ht Hg]]. exists g. split; [exact Hg | apply atTurn_true, Ht].
  - intros [g [Hg Ht]]. exists g. split; [apply atTurn_true, Ht | exact Hg].
Qed.

Lemma not_in_turnIndices t gs :
  ~ In t (turnIndices gs) -> forall g, In g gs -> Provider.atTurn t g = false.
Proof.
  intros H g Hg. destruct (Provider.atTurn t g) eqn:E; [|reflexivity].
  exfalso. apply H. apply in_turnIndices. exists g. split; assumption.
Qed.

(** An upsert at turn index [t] that keeps the turn index of what it rewrites
    leaves the sequence of turn indices alone, or adds [t] at its end. *)
Lemma turnIndices_upsert t f fresh gs :
  (forall g, Provider.atTurn t g = true -> turnIndex (f g) = turnIndex g) ->
  turnIndex fresh = t ->
  turnIndices (upsert (Provider.atTurn t) f fresh gs)
  = if in_dec Nat.eq_dec t (turnIndices gs)
    then turnIndices gs
    else turnIndices gs ++ [t].
Proof.
  intros Hf Hfresh. destruct (in_dec Nat.eq_dec t (turnIndices gs)) as [Hin|Hout].
  - rewrite upsert_present by (apply in_turnIndices, Hin).
    unfold turnIndices. rewrite map_map. apply map_ext. intros g.
    destruct (Provider.atTurn t g) eqn:E; [apply Hf, E | reflexivity].
  - rewrite upsert_absent by (apply not_in_turnIndices, Hout).
    unfold turnIndices. rewrite map_app. simpl. rewrite Hfresh. reflexivity.
Qed.

Lemma turnIndices_addGuessTo guess gs :
  turnIndices (Provider.addGuessTo guess gs)
  = if in_dec Nat.eq_dec (turnIndex guess) (turnIndices gs)
    then turnIndices gs
    else turnIndices gs ++ [turnIndex guess].
Proof.
  rewrite addGuessTo_upsert. apply turnIndices_upsert.
  - intros g Hg. apply atTurn_true in Hg. simpl. congruence.
  - reflexivity.
Qed.

Lemma turnIndices_mergeResult ev fetched now gs :
  turnIndices (Provider.mergeResult ev fetched now gs)
  = if in_dec Nat.eq_dec (ResultComputed.turnIndex ev) (turnIndices gs)
    then turnIndices gs
    else turnIndices gs ++ [ResultComputed.turnIndex ev].
Proof.
  rewrite mergeResult_upsert. apply turnIndices_upsert.
  - intros g _. reflexivity.
  - reflexivity.
Qed.

Lemma turnIndices_removeGuessFrom t gs :
  turnIndices (Provider.removeGuessFrom t gs)
  = filter (fun i => negb (Nat.eqb i t)) (turnIndices gs).
Proof.
  unfold turnIndices, Provider.removeGuessFrom, Provider.atTurn.
  induction gs as [|g gs IH]; simpl; [reflexivity|].
  destruct (Nat.eqb (turnIndex g) t); simpl; rewrite IH; reflexivity.
Qed.

Lemma NoDup_snoc {A : Type} (x : A) (l : list A) :
  NoDup l -> ~ In x l -> NoDup (l ++ [x]).
Proof.
  intros Hl Hx. induction Hl as [|a l Ha Hl IH]; simpl.
  - constructor; [intros [] | constructor].
  - constructor.
    + rewrite in_app_iff. intros [H|[H|[]]]; [contradiction|].
      subst. apply Hx. left. reflexivity.
    + apply IH. intros H. apply Hx. right. exact H.
Qed.

Lemma unique_step op s :
  NoDup (turnIndices (Provider.roomGuesses s)) ->
  NoDup (turnIndices (Provider.roomGuesses (Provider.apply op s))).
Proof.
  intros H. destruct op as [guess | ev fetched now | t]; simpl.
  - rewrite turnIndices_addGuessTo.
    destruct (in_dec _ _ _); [exact H | apply NoDup_snoc; assumption].
  - unfold Provider.handleResultComputed.
    destruct (Provider.forCurrentRoom ev s); [|exact H].
    cbn [Provider.roomGuesses]. rewrite turnIndices_mergeResult.
    destruct (in_dec _ _ _); [exact H | apply NoDup_snoc; assumption].
  - rewrite turnIndices_removeGuessFrom. apply NoDup_filter, H.
Qed.

(** X1. Turn indices stay unique: if no two entries of the guess list share a
    turn index, then after any sequence of [addGuess], result-computed events
    and [removeGuess] still no two entries share one. *)
Theorem turn_indices_stay_unique :
  forall (ops : list Provider.Op) (s : Provider.State),
    NoDup (turnIndices (Provider.roomGuesses s)) ->
    NoDup (turnIndices (Provider.roomGuesses (Provider.run ops s))).
Proof.
  intros ops. unfold Provider.run.
  induction ops as [|op ops IH]; intros s H; simpl; [exact H|].
  apply IH, unique_step, H.
Qed.

Lemma turn_indices_stay_unique_witness :
  NoDup
    (turnIndices
       (Provider.roomGuesses
          (Provider.run
             [ Provider.AddGuess (GameScreen.newGuess 0 ["1"; "2"; "3"; "4"] 5);
               Provider.ResultEvent
                 (ResultComputed.mk "7" 0 "0xabc" (Some (SignedResult.mk 1 2)))
                 None 6;
               Provider.AddGuess (GameScreen.newGuess 0 ["1"; "2"; "3"; "4"] 7) ]
             (Provider.setCurrentRoom (Some "7") Provider.initial)))).
Proof.
  apply turn_indices_stay_unique. simpl. constructor.
Defined.

(** X2. [addGuess] and the result-computed handler never move or drop an
    entry: the sequence of turn indices is the one before when the turn index
    is already there, and the one before with the new turn index at its end
    otherwise. *)
Theorem upserts_keep_positions :
  forall (guess : Guess) (ev : ResultComputed.t)
         (fetched : option (list string)) (now : nat) (s : Provider.State),
    turnIndices (Provider.roomGuesses (Provider.addGuess guess s))
    = (if in_dec Nat.eq_dec (turnIndex guess)
                 (turnIndices (Provider.roomGuesses s))
       then turnIndices (Provider.roomGuesses s)
       else turnIndices (Provider.roomGuesses s) ++ [turnIndex guess]) /\
    turnIndices
      (Provider.roomGuesses (Provider.handleResultComputed ev fetched now s))
    = (if Provider.forCurrentRoom ev s
       then if in_dec Nat.eq_dec (ResultComputed.turnIndex ev)
                      (turnIndices (Provider.roomGuesses s))
            then turnIndices (Provider.roomGuesses s)
            else turnIndices (Provider.roomGuesses s)
                   ++ [ResultComputed.turnIndex ev]
       else turnIndices (Provider.roomGuesses s)).
Proof.
  intros guess ev fetched now s. split.
  - apply turnIndices_addGuessTo.
  - unfold Provider.handleResultComputed.
    destruct (Provider.forCurrentRoom ev s); [|reflexivity].
    apply turnIndices_mergeResult.
Qed.

(** ** The guess list: how the operations compose *)

Lemma spreadField_twice {A : Type} (a b : field A) :
  spreadField (spreadField a b) b = spreadField a b.
Proof. destruct b; reflexivity. Qed.

Lemma spreadGuess_twice g guess :
  spreadGuess (spreadGuess g guess) guess = spreadGuess g guess.
Proof. unfold spreadGuess. simpl. rewrite !spreadField_twice. reflexivity. Qed.

Lemma spreadGuess_self guess : spreadGuess guess guess = guess.
Proof.
  destruct guess as [t ds r ts h p]. unfold spreadGuess. simpl.
  destruct r, h, p; reflexivity.
Qed.

(** X3. [addGuess] is idempotent: adding the same guess twice leaves the state
    that adding it once leaves, whether or not an entry was at its turn index
    before. *)
Theorem addGuess_idempotent :
  forall (guess : Guess) (s : Provider.State),
    Provider.addGuess guess (Provider.addGuess guess s)
    = Provider.addGuess guess s.
Proof.
  intros guess s. unfold Provider.addGuess. simpl. f_equal.
  rewrite !addGuessTo_upsert. apply upsert_again.
  - intros x Hx. apply atTurn_true. reflexivity.
  - apply atTurn_true. reflexivity.
  - intros x _. apply spreadGuess_twice.
  - apply spreadGuess_self.
Qed.

(** X4. The order of the optimistic add and the result event matters.  On a
    list with no entry at the event's turn index: adding the optimistic guess
    first and handling the event next leaves one confirmed entry (result set,
    not pending, the digits read from the contract when the read worked, the
    time of the optimistic add); handling the event first and adding the
    optimistic guess next leaves one entry that carries the result but is
    pending again, with the digits and time of the optimistic guess. *)
Theorem optimistic_add_and_result_do_not_commute :
  forall (ev : ResultComputed.t) (fetched : option (list string))
         (selected : list string) (now now' : nat) (s : Provider.State),
    let t := ResultComputed.turnIndex ev in
    let res := Provider.resultOf (ResultComputed.signedResult ev) in
    let optimistic := GameScreen.newGuess t selected now in
    Provider.forCurrentRoom ev s = true ->
    (forall g, In g (Provider.roomGuesses s) -> turnIndex g <> t) ->
    Provider.roomGuesses
      (Provider.handleResultComputed ev fetched now'
         (Provider.addGuess optimistic s))
    = Provider.roomGuesses s
      ++ [ {| turnIndex := t;
              digits := match fetched with Some ds => ds | None => selected end;
              result := res; timestamp := now; txHash := Missing;
              pending := Holds false |} ]
    /\
    Provider.roomGuesses
      (Provider.addGuess optimistic
         (Provider.handleResultComputed ev fetched now' s))
    = Provider.roomGuesses s
      ++ [ {| turnIndex := t; digits := selected;
              result := res; timestamp := now; txHash := Missing;
              pending := Holds true |} ].
Proof.
  intros ev fetched selected now now' s t res optimistic Hroom Hnone.
  assert (Habsent : forall x, In x (Provider.roomGuesses s) ->
                              Provider.atTurn t x = false).
  { intros x Hx. apply atTurn_false, Hnone, Hx. }
  assert (Hopt : Provider.atTurn t optimistic = true)
    by (apply atTurn_true; reflexivity).
  split.
  - unfold Provider.handleResultComputed.
    replace (Provider.forCurrentRoom ev (Provider.addGuess optimistic s))
      with true by (symmetry; exact Hroom).
    cbn [Provider.roomGuesses Provider.addGuess].
    rewrite addGuessTo_upsert, mergeResult_upsert.
    change (turnIndex optimistic) with t.
    rewrite (upsert_absent _ _ optimistic) by exact Habsent.
    rewrite upsert_present
      by (exists optimistic; split;
          [apply in_or_app; right; left; reflexivity | exact Hopt]).
    rewrite map_app. simpl. fold t. rewrite Hopt.
    rewrite map_rewrite_untouched by exact Habsent.
    destruct fetched; reflexivity.
  - unfold Provider.handleResultComputed. rewrite Hroom.
    cbn [Provider.roomGuesses Provider.addGuess].
    rewrite addGuessTo_upsert, mergeResult_upsert.
    change (turnIndex optimistic) with t. fold t.
    rewrite (upsert_absent _ _ (arrived ev fetched now')) by exact Habsent.
    rewrite upsert_present
      by (exists (arrived ev fetched now'); split;
          [apply in_or_app; right; left; reflexivity
          | apply atTurn_true; reflexivity]).
    rewrite map_app. simpl.
    replace (Provider.atTurn t (arrived ev fetched now')) with true
      by (symmetry; apply atTurn_true; reflexivity).
    rewrite map_rewrite_untouched by exact Habsent.
    reflexivity.
Qed.

Lemma optimistic_add_and_result_do_not_commute_witness :
  let ev := ResultComputed.mk "7" 0 "0xabc" (Some (SignedResult.mk 1 2)) in
  let s := Provider.setCurrentRoom (Some "7") Provider.initial in
  Provider.roomGuesses
    (Provider.addGuess (GameScreen.newGuess 0 ["5"; "6"; "7"; "8"] 100)
       (Provider.handleResultComputed ev (Some ["5"; "6"; "7"; "8"]) 200 s))
  = [] ++ [ {| turnIndex := 0; digits := ["5"; "6"; "7"; "8"];
               result := Holds {| breached := 1; injured := 2 |};
               timestamp := 100; txHash := Missing; pending := Holds true |} ].
Proof.
  intros ev s.
  apply (optimistic_add_and_result_do_not_commute
           ev (Some ["5"; "6"; "7"; "8"]) ["5"; "6"; "7"; "8"] 100 200 s).
  - reflexivity.
  - intros g [].
Defined.

(** X5. [removeGuess] of a turn index that has no entry changes nothing, and
    only then; and removing twice is removing once. *)
Theorem removeGuess_of_missing_turn :
  forall (t : nat) (s : Provider.State),
    (Provider.removeGuess t s = s <->
     forall g, In g (Provider.roomGuesses s) -> turnIndex g <> t) /\
    Provider.removeGuess t (Provider.removeGuess t s) = Provider.removeGuess t s.
Proof.
  intros t [room gs]. unfold Provider.removeGuess. simpl. split.
  - split.
    + intros H. injection H as H. unfold Provider.removeGuessFrom in H.
      rewrite filter_id_iff in H. intros g Hg.
      apply atTurn_false. apply negb_true_iff. apply H, Hg.
    + intros H. f_equal. unfold Provider.removeGuessFrom.
      apply filter_id_iff. intros g Hg.
      apply negb_true_iff. apply atTurn_false. apply H, Hg.
  - f_equal. apply removeGuessFrom_twice.
Qed.

(** ** The guess list: events and the current room *)

Module HandlingFacts.
Import Handling.

Lemma passes_current ev s :
  passes (Provider.currentRoomId s) ev = Provider.forCurrentRoom ev s.
Proof. reflexivity. Qed.

Lemma nth_error_last {A : Type} (l : list A) (x : A) :
  nth_error (l ++ [x]) (length l) = Some x.
Proof. induction l as [|a l IH]; simpl; [reflexivity | exact IH]. Qed.

Lemma nth_error_end {A : Type} (l : list A) :
  nth_error l (length l) = None.
Proof. induction l as [|a l IH]; simpl; [reflexivity | exact IH]. Qed.

Lemma removeAt_last {A : Type} (l : list A) (x : A) :
  EventHandler.removeAt (length l) (l ++ [x]) = l.
Proof.
  induction l as [|a l IH]; simpl; [reflexivity|]. rewrite IH. reflexivity.
Qed.

Lemma dispatch_passing captured ev w :
  passes captured ev = true ->
  step (Dispatch captured ev) w
  = {| state := state w; reading := reading w ++ [ev] |}.
Proof. intros H. simpl. rewrite H. reflexivity. Qed.

(** The read dispatched last settles. *)
Lemma last_read_settles ev fetched now s rs :
  step (ReadSettles (length rs) fetched now)
       {| state := s; reading := rs ++ [ev] |}
  = {| state := land ev fetched now s; reading := rs |}.
Proof.
  simpl. rewrite nth_error_last, removeAt_last. reflexivity.
Qed.

Lemma land_on_empty ev fetched now room :
  land ev fetched now
    {| Provider.currentRoomId := room; Provider.roomGuesses := [] |}
  = {| Provider.currentRoomId := room;
       Provider.roomGuesses := [arrived ev fetched now] |}.
Proof. destruct fetched; reflexivity. Qed.

Lemma idle_step task w :
  idle task -> reading w = [] -> step task w = w.
Proof.
  destruct task as [captured ev | k fetched now | | |]; simpl;
    intros H Hnone; try contradiction.
  - rewrite H. reflexivity.
  - rewrite Hnone. destruct k; reflexivity.
Qed.

Lemma idle_run tasks :
  forall w, Forall idle tasks -> reading w = [] -> run tasks w = w.
Proof.
  unfold run. induction tasks as [|task tasks IH]; intros w H Hnone; simpl;
    [reflexivity|].
  inversion H as [|? ? Htask Hrest]; subst.
  rewrite (idle_step task w Htask Hnone). apply IH; assumption.
Qed.

End HandlingFacts.

(** X6. The result-computed handler tests the room of the event once,
    against the room id its callback closed over, before it awaits the
    [getProbe] read, and applies its update when the read settles without
    testing again.  With the current room id closed over and nothing landing
    in between, this is the handling of Part I.  An event that fails the test
    starts no read and changes nothing, however many are dispatched.  But a
    read in flight when [setCurrentRoom(null)] empties the list still lands:
    the list then holds exactly the entry of the event while no room is
    current, and when another room is entered before the read settles, the
    entry is in the list of that room. *)
Theorem room_is_tested_before_the_read_only :
  forall (captured : option string) (ev : ResultComputed.t)
         (fetched : option (list string)) (now : nat) (roomId : string)
         (w : Handling.World),
    let k := length (Handling.reading w) in
    Handling.state
      (Handling.run
         [ Handling.Dispatch (Provider.currentRoomId (Handling.state w)) ev;
           Handling.ReadSettles k fetched now ] w)
    = Provider.handleResultComputed ev fetched now (Handling.state w) /\
    (Handling.passes captured ev = false ->
     Handling.step (Handling.Dispatch captured ev) w = w) /\
    (forall tasks,
        Forall Handling.idle tasks -> Handling.reading w = [] ->
        Handling.run tasks w = w) /\
    (Handling.passes captured ev = true ->
     Handling.state
       (Handling.run
          [ Handling.Dispatch captured ev;
            Handling.SetCurrentRoom None;
            Handling.ReadSettles k fetched now ] w)
     = {| Provider.currentRoomId := None;
          Provider.roomGuesses := [arrived ev fetched now] |}) /\
    (Handling.passes captured ev = true -> truthy (Some roomId) = true ->
     Handling.state
       (Handling.run
          [ Handling.Dispatch captured ev;
            Handling.SetCurrentRoom None;
            Handling.SetCurrentRoom (Some roomId);
            Handling.ReadSettles k fetched now ] w)
     = {| Provider.currentRoomId := Some roomId;
          Provider.roomGuesses := [arrived ev fetched now] |}).
Proof.
  intros captured ev fetched now roomId w k.
  split; [|split; [|split; [|split]]].
  - unfold Handling.run. cbn [fold_left].
    unfold Provider.handleResultComputed.
    rewrite <- HandlingFacts.passes_current.
    destruct (Handling.passes _ ev) eqn:E.
    + rewrite (HandlingFacts.dispatch_passing _ ev w E).
      subst k. rewrite HandlingFacts.last_read_settles. reflexivity.
    + cbn [Handling.step]. rewrite E. subst k.
      rewrite HandlingFacts.nth_error_end. reflexivity.
  - intros E. simpl. rewrite E. reflexivity.
  - intros tasks. apply HandlingFacts.idle_run.
  - intros E. unfold Handling.run. cbn [fold_left].
    rewrite (HandlingFacts.dispatch_passing captured ev w E).
    cbn [Handling.step Handling.state Handling.reading].
    subst k. rewrite HandlingFacts.nth_error_last.
    cbn [Handling.state]. unfold Provider.setCurrentRoom.
    cbn [truthy]. apply HandlingFacts.land_on_empty.
  - intros E Hroom. unfold Handling.run. cbn [fold_left].
    rewrite (HandlingFacts.dispatch_passing captured ev w E).
    cbn [Handling.step Handling.state Handling.reading].
    subst k. rewrite HandlingFacts.nth_error_last.
    cbn [Handling.state]. unfold Provider.setCurrentRoom.
    cbn [Provider.currentRoomId Provider.roomGuesses]. rewrite Hroom.
    cbn [truthy]. apply HandlingFacts.land_on_empty.
Qed.

Lemma room_is_tested_before_the_read_only_witness :
  let ev := ResultComputed.mk "7" 0 "0xabc" (Some (SignedResult.mk 1 2)) in
  let w := {| Handling.state :=
                {| Provider.currentRoomId := Some "7";
                   Provider.roomGuesses :=
                     [GameScreen.newGuess 0 ["5"; "6"; "7"; "8"] 100] |};
              Handling.reading := [] |} in
  Handling.state
    (Handling.run
       [ Handling.Dispatch (Some "7") ev;
         Handling.SetCurrentRoom None;
         Handling.SetCurrentRoom (Some "8");
         Handling.ReadSettles 0 (Some ["5"; "6"; "7"; "8"]) 200 ] w)
  = {| Provider.currentRoomId := Some "8";
       Provider.roomGuesses :=
         [ {| turnIndex := 0; digits := ["5"; "6"; "7"; "8"];
              result := Holds {| breached := 1; injured := 2 |};
              timestamp := 200; txHash := Missing;
              pending := Holds false |} ] |}.
Proof.
  intros ev w.
  apply (room_is_tested_before_the_read_only (Some "7") ev
           (Some ["5"; "6"; "7"; "8"]) 200 "8" w); reflexivity.
Defined.

(** ** The digit keypad of the game screen *)

Module KeypadFacts.
Import Keypad.

Lemma setAt_length i v l : length (setAt i v l) = length l.
Proof.
  revert i. induction l as [|x l IH]; intros [|i]; simpl; try reflexivity.
  rewrite IH. reflexivity.
Qed.

Lemma setAt_middle v front x back :
  setAt (length front) v (front ++ x :: back) = front ++ v :: back.
Proof.
  induction front as [|a front IH]; simpl; [reflexivity|].
  rewrite IH. reflexivity.
Qed.

(** The first empty slot splits the selection. *)
Lemma findIndex_empty_split l i :
  findIndex GameScreen.isEmpty l = Some i ->
  exists front back,
    l = front ++ EmptyString :: back /\ length front = i /\
    Forall (fun d => d <> EmptyString) front.
Proof.
  revert i. induction l as [|x l IH]; intros i; simpl; [discriminate|].
  destruct (GameScreen.isEmpty x) eqn:E.
  - intros H. injection H as <-. exists [], l.
    destruct x; [|discriminate]. repeat split. constructor.
  - destruct (findIndex GameScreen.isEmpty l) as [j|]; [|discriminate].
    simpl. intros H. injection H as <-.
    destruct (IH j eq_refl) as [front [back [-> [Hlen Hall]]]].
    exists (x :: front), back. repeat split.
    + simpl. rewrite Hlen. reflexivity.
    + constructor; [|exact Hall]. intros ->. discriminate.
Qed.

Lemma findIndex_none_full l :
  findIndex GameScreen.isEmpty l = None ->
  Forall (fun d => d <> EmptyString) l.
Proof.
  induction l as [|x l IH]; simpl; [constructor|].
  destruct (GameScreen.isEmpty x) eqn:E; [discriminate|].
  destruct (findIndex GameScreen.isEmpty l); [discriminate|].
  intros _. constructor; [intros ->; discriminate | apply IH; reflexivity].
Qed.

Lemma includes_false_iff d l : includes d l = false <-> ~ In d l.
Proof.
  unfold includes. split.
  - intros H Hin. assert (existsb (String.eqb d) l = true).
    { apply existsb_exists. exists d. split; [exact Hin | apply String.eqb_refl]. }
    congruence.
  - intros H. destruct (existsb (String.eqb d) l) eqn:E; [|reflexivity].
    apply existsb_exists in E. destruct E as [x [Hx Hd]].
    apply String.eqb_eq in Hd. subst. contradiction.
Qed.

Lemma chosen_app a b : chosen (a ++ b) = chosen a ++ chosen b.
Proof. apply filter_app. Qed.

Lemma chosen_subset l x : In x (chosen l) -> In x l.
Proof. unfold chosen. intros H. apply filter_In in H. apply H. Qed.

(** What [handleDigitSelect] does, case by case. *)
Lemma handleDigitSelect_cases digit l :
  handleDigitSelect digit l = l \/
  exists front back,
    l = front ++ EmptyString :: back /\
    handleDigitSelect digit l = front ++ digit :: back /\
    Forall (fun d => d <> EmptyString) front /\
    ~ In digit l /\ digit <> EmptyString.
Proof.
  unfold handleDigitSelect.
  destruct (findIndex GameScreen.isEmpty l) as [i|] eqn:E; [|left; reflexivity].
  destruct (includes digit l) eqn:Hin; [left; reflexivity|]. simpl. right.
  destruct (findIndex_empty_split l i E) as [front [back [-> [Hlen Hall]]]].
  exists front, back. apply includes_false_iff in Hin.
  split; [reflexivity|]. split; [rewrite <- Hlen; apply setAt_middle|].
  split; [exact Hall|]. split; [exact Hin|].
  intros ->. apply Hin. apply in_or_app. right. left. reflexivity.
Qed.

Lemma chosen_setAt_empty i l :
  exists a b x, (chosen l = a ++ x ++ b) /\ chosen (setAt i EmptyString l) = a ++ b.
Proof.
  revert i. induction l as [|y l IH]; intros i.
  - exists [], [], []. destruct i; split; reflexivity.
  - destruct i as [|i]; simpl.
    + unfold chosen at 1. simpl.
      destruct (GameScreen.isEmpty y); simpl.
      * exists [], (chosen l), []. split; reflexivity.
      * exists [], (chosen l), [y]. split; reflexivity.
    + destruct (IH i) as [a [b [x [H1 H2]]]].
      unfold chosen. simpl. fold (chosen l). fold (chosen (setAt i EmptyString l)).
      destruct (GameScreen.isEmpty y); simpl.
      * exists a, b, x. split; assumption.
      * exists (y :: a), b, x. simpl. rewrite H1, H2. split; reflexivity.
Qed.

Lemma NoDup_remove_middle {A : Type} (a x b : list A) :
  NoDup (a ++ x ++ b) -> NoDup (a ++ b).
Proof.
  induction x as [|y x IH]; simpl; [trivial|].
  intros H. apply IH. apply NoDup_remove_1 in H. exact H.
Qed.

Lemma NoDup_insert_middle {A : Type} (a b : list A) (x : A) :
  NoDup (a ++ b) -> ~ In x (a ++ b) -> NoDup (a ++ x :: b).
Proof.
  intros Hnd Hx. apply (Permutation_NoDup (Permutation_middle a b x)).
  constructor; assumption.
Qed.

Lemma deleteFrom_cases n l :
  deleteFrom n l = l \/ exists i, deleteFrom n l = setAt i EmptyString l.
Proof.
  induction n as [|i IH]; simpl; [left; reflexivity|].
  destruct (GameScreen.isEmpty (nth i l EmptyString)); simpl;
    [exact IH | right; exists i; reflexivity].
Qed.

Lemma wellFormed_press k l : wellFormed l -> wellFormed (press k l).
Proof.
  intros [Hlen Hnd]. destruct k as [digit| |]; simpl.
  - destruct (handleDigitSelect_cases digit l)
      as [->|[front [back [Hl [-> [Hfront [Hnew Hne]]]]]]]; [split; assumption|].
    subst l. split.
    + rewrite length_app in *. simpl in *. exact Hlen.
    + rewrite chosen_app in *. unfold chosen at 2. unfold chosen at 2 in Hnd.
      simpl in *. destruct digit as [|c digit]; [contradiction|]. simpl.
      fold (chosen back) in *. apply NoDup_insert_middle; [exact Hnd|].
      intros Hin. apply Hnew. apply in_app_or in Hin.
      apply in_or_app. destruct Hin as [Hin|Hin].
      * left. apply chosen_subset, Hin.
      * right. right. apply chosen_subset, Hin.
  - unfold handleDeleteLast.
    destruct (deleteFrom_cases (length l) l) as [->|[i ->]]; [split; assumption|].
    split; [rewrite setAt_length; exact Hlen|].
    destruct (chosen_setAt_empty i l) as [a [b [x [H1 H2]]]].
    rewrite H2. rewrite H1 in Hnd. apply NoDup_remove_middle in Hnd. exact Hnd.
  - split; [reflexivity | constructor].
Qed.

Lemma wellFormed_pressAll ks :
  forall l, wellFormed l -> wellFormed (pressAll ks l).
Proof.
  unfold pressAll. induction ks as [|k ks IH]; intros l H; simpl; [exact H|].
  apply IH, wellFormed_press, H.
Qed.

Lemma complete_chosen l : isComplete l = true -> chosen l = l.
Proof.
  unfold isComplete, chosen. intros H. apply filter_id_iff.
  intros x Hx. rewrite forallb_forall in H. apply H, Hx.
Qed.

Lemma complete_no_empty l :
  isComplete l = true -> existsb GameScreen.isEmpty l = false.
Proof.
  unfold isComplete. intros H.
  destruct (existsb GameScreen.isEmpty l) eqn:E; [|reflexivity].
  apply existsb_exists in E. destruct E as [x [Hx He]].
  rewrite forallb_forall in H. specialize (H x Hx). rewrite He in H.
  discriminate.
Qed.

End KeypadFacts.

Module KeypadOrder.
Import Keypad KeypadFacts.

Lemma findIndex_front front n :
  Forall (fun d => d <> EmptyString) front ->
  findIndex GameScreen.isEmpty (front ++ repeat EmptyString n)
  = match n with 0 => None | S _ => Some (length front) end.
Proof.
  intros H. induction H as [|x front Hx _ IH]; simpl.
  - destruct n; reflexivity.
  - destruct x as [|c x]; [contradiction|]. simpl. rewrite IH.
    destruct n; reflexivity.
Qed.

Lemma select_on_front digit front n :
  Forall (fun d => d <> EmptyString) front ->
  ~ In digit (front ++ repeat EmptyString (S n)) ->
  handleDigitSelect digit (front ++ repeat EmptyString (S n))
  = (front ++ [digit]) ++ repeat EmptyString n.
Proof.
  intros Hfront Hnew. unfold handleDigitSelect.
  rewrite findIndex_front by exact Hfront.
  apply includes_false_iff in Hnew. rewrite Hnew. simpl.
  rewrite setAt_middle. rewrite <- app_assoc. reflexivity.
Qed.

Lemma nth_past_front front n m :
  m < n ->
  nth (length front + m) (front ++ repeat EmptyString n) EmptyString
  = EmptyString.
Proof.
  intros _. rewrite app_nth2 by lia.
  replace (length front + m - length front) with m by lia.
  apply nth_repeat.
Qed.

Lemma deleteFrom_skips front n m :
  m <= n ->
  deleteFrom (length front + m) (front ++ repeat EmptyString n)
  = deleteFrom (length front) (front ++ repeat EmptyString n).
Proof.
  induction m as [|m IH]; intros Hm.
  - rewrite Nat.add_0_r. reflexivity.
  - rewrite Nat.add_succ_r. simpl.
    rewrite nth_past_front by lia. simpl. apply IH. lia.
Qed.

Lemma delete_on_front front x n :
  x <> EmptyString ->
  handleDeleteLast ((front ++ [x]) ++ repeat EmptyString n)
  = front ++ repeat EmptyString (S n).
Proof.
  intros Hx. unfold handleDeleteLast.
  rewrite length_app, repeat_length.
  rewrite deleteFrom_skips by lia.
  rewrite length_app. simpl. rewrite Nat.add_1_r. simpl.
  rewrite <- app_assoc. simpl.
  rewrite app_nth2 by lia. rewrite Nat.sub_diag. simpl.
  destruct x as [|c x]; [contradiction|]. simpl.
  apply setAt_middle.
Qed.

Lemma delete_on_empty n :
  handleDeleteLast (repeat EmptyString n) = repeat EmptyString n.
Proof.
  unfold handleDeleteLast. rewrite repeat_length.
  pose proof (deleteFrom_skips [] n n (le_n n)) as H. simpl in H. exact H.
Qed.

Lemma filledFirst_press k l : filledFirst l -> filledFirst (press k l).
Proof.
  intros [front [n [-> Hfront]]]. destruct k as [digit| |]; simpl.
  - destruct n as [|n].
    + unfold handleDigitSelect. rewrite findIndex_front by exact Hfront.
      exists front, 0. split; [reflexivity | exact Hfront].
    + destruct (includes digit (front ++ repeat EmptyString (S n))) eqn:E.
      * unfold handleDigitSelect. rewrite findIndex_front by exact Hfront.
        rewrite E. simpl. exists front, (S n). split; [reflexivity|exact Hfront].
      * apply includes_false_iff in E. rewrite select_on_front by assumption.
        exists (front ++ [digit]), n. split; [reflexivity|].
        apply Forall_app. split; [exact Hfront|]. constructor; [|constructor].
        intros ->. apply E. apply in_or_app. right. left. reflexivity.
  - destruct (rev front) as [|x rfront] eqn:Er.
    + assert (front = []) as ->.
      { rewrite <- (rev_involutive front), Er. reflexivity. }
      simpl. rewrite delete_on_empty. exists [], n. split; [reflexivity|constructor].
    + assert (Hf : front = rev rfront ++ [x]).
      { rewrite <- (rev_involutive front), Er. reflexivity. }
      rewrite Hf in *. apply Forall_app in Hfront. destruct Hfront as [H1 H2].
      rewrite delete_on_front by (inversion H2; assumption).
      exists (rev rfront), (S n). split; [reflexivity | exact H1].
  - exists [], 4. split; [reflexivity | constructor].
Qed.

Lemma filledFirst_pressAll ks :
  forall l, filledFirst l -> filledFirst (pressAll ks l).
Proof.
  unfold pressAll. induction ks as [|k ks IH]; intros l H; simpl; [exact H|].
  apply IH, filledFirst_press, H.
Qed.

Lemma filledFirst_clear : filledFirst handleClear.
Proof. exists [], 4. split; [reflexivity | constructor]. Qed.

Lemma wellFormed_clear : wellFormed handleClear.
Proof. split; [reflexivity | constructor]. Qed.

End KeypadOrder.

(** X7. Whatever keys are pressed on the keypad, starting from the cleared
    selection, the selection keeps four slots, holds no digit twice, and has
    its chosen digits first and its empty slots last. *)
Theorem keypad_keeps_selection_well_formed :
  forall (ks : list Keypad.Key),
    let selected := Keypad.pressAll ks Keypad.handleClear in
    length selected = 4 /\
    NoDup (Keypad.chosen selected) /\
    Keypad.filledFirst selected.
Proof.
  intros ks selected.
  destruct (KeypadFacts.wellFormed_pressAll ks Keypad.handleClear
              KeypadOrder.wellFormed_clear) as [Hlen Hnd].
  split; [exact Hlen|]. split; [exact Hnd|].
  apply KeypadOrder.filledFirst_pressAll, KeypadOrder.filledFirst_clear.
Qed.

(** X8. A complete selection built with the keypad always passes the two
    checks of [handleSubmit]: no slot is empty and the four digits are
    distinct, so with a room id the submission is made and the toast shown is
    the one of its outcome, never "Incomplete guess" or "Invalid guess". *)
Theorem keypad_selection_passes_submit_checks :
  forall (ks : list Keypad.Key) (roomId : option string) (now : nat)
         (outcome : GameScreen.Submission) (during : list Provider.Op)
         (v : GameScreen.View),
    GameScreen.selectedDigits v = Keypad.pressAll ks Keypad.handleClear ->
    Keypad.isComplete (GameScreen.selectedDigits v) = true ->
    truthy roomId = true ->
    existsb GameScreen.isEmpty (GameScreen.selectedDigits v) = false /\
    GameScreen.distinctCount (GameScreen.selectedDigits v) = 4 /\
    GameScreen.toasts (GameScreen.handleSubmit roomId now outcome during v)
    = GameScreen.toasts v
      ++ [match outcome with
          | GameScreen.Resolved => GameScreen.ExcavationLaunched
          | GameScreen.Threw => GameScreen.SubmissionFailed
          end].
Proof.
  intros ks roomId now outcome during v Hsel Hcomplete Hroom.
  destruct (KeypadFacts.wellFormed_pressAll ks Keypad.handleClear
              KeypadOrder.wellFormed_clear) as [Hlen Hnd].
  rewrite <- Hsel in Hlen, Hnd.
  rewrite (KeypadFacts.complete_chosen _ Hcomplete) in Hnd.
  assert (Hempty : existsb GameScreen.isEmpty (GameScreen.selectedDigits v) = false)
    by (apply KeypadFacts.complete_no_empty, Hcomplete).
  assert (Hdistinct : GameScreen.distinctCount (GameScreen.selectedDigits v) = 4).
  { unfold GameScreen.distinctCount. rewrite nodup_fixed_point by exact Hnd.
    exact Hlen. }
  split; [exact Hempty|]. split; [exact Hdistinct|].
  unfold GameScreen.handleSubmit. rewrite Hempty, Hdistinct, Hroom. simpl.
  destruct outcome; reflexivity.
Qed.

Lemma keypad_selection_passes_submit_checks_witness :
  let v := {| GameScreen.provider :=
                Provider.setCurrentRoom (Some "7") Provider.initial;
              GameScreen.selectedDigits := ["5"; "6"; "7"; "8"];
              GameScreen.toasts := [] |} in
  GameScreen.distinctCount (GameScreen.selectedDigits v) = 4.
Proof.
  intros v.
  apply (keypad_selection_passes_submit_checks
           [ Keypad.Digit "5"; Keypad.Digit "5"; Keypad.Digit "9";
             Keypad.Delete; Keypad.Digit "6"; Keypad.Digit "7";
             Keypad.Digit "8"; Keypad.Digit "0" ]
           (Some "7") 100 GameScreen.Resolved [] v);
    reflexivity.
Defined.

(** X9. On a selection whose chosen digits come first, "delete" undoes the
    choice of a digit: if a slot is empty and the digit is not yet chosen,
    choosing it and deleting the last digit gives the selection back. *)
Theorem delete_undoes_digit :
  forall (digit : string) (selected : list string),
    Keypad.filledFirst selected ->
    In EmptyString selected ->
    ~ In digit selected ->
    Keypad.handleDeleteLast (Keypad.handleDigitSelect digit selected)
    = selected.
Proof.
  intros digit selected [front [n [-> Hfront]]] Hslot Hnew.
  destruct n as [|n].
  - exfalso. simpl in Hslot. rewrite app_nil_r in Hslot.
    rewrite Forall_forall in Hfront. apply (Hfront _ Hslot). reflexivity.
  - rewrite KeypadOrder.select_on_front by assumption.
    apply KeypadOrder.delete_on_front.
    intros ->. apply Hnew. apply in_or_app. right. left. reflexivity.
Qed.

Lemma delete_undoes_digit_witness :
  Keypad.handleDeleteLast (Keypad.handleDigitSelect "7" ["5"; "6"; ""; ""])
  = ["5"; "6"; ""; ""].
Proof.
  apply delete_undoes_digit.
  - exists ["5"; "6"], 2. split; [reflexivity|].
    repeat constructor; discriminate.
  - right. right. left. reflexivity.
  - intros [H|[H|[H|[H|[]]]]]; discriminate H.
Defined.

(** ** Submitting from the game screen *)

Lemma turn_flips playerIsCreator (gs : list Guess) (g : Guess) :
  GameScreen.isPlayerTurn playerIsCreator (gs ++ [g])
  = negb (GameScreen.isPlayerTurn playerIsCreator gs).
Proof.
  unfold GameScreen.isPlayerTurn, GameScreen.currentTurnIndex.
  rewrite length_app. change (length [g]) with 1. rewrite Nat.add_1_r.
  rewrite !mod2_zero_even, !mod2_one_odd.
  rewrite Nat.even_succ, Nat.odd_succ. unfold Nat.odd.
  destruct playerIsCreator; [reflexivity|].
  rewrite negb_involutive. reflexivity.
Qed.

Lemma isPlayerTurn_length playerIsCreator (gs gs' : list Guess) :
  length gs = length gs' ->
  GameScreen.isPlayerTurn playerIsCreator gs
  = GameScreen.isPlayerTurn playerIsCreator gs'.
Proof.
  intros H. unfold GameScreen.isPlayerTurn, GameScreen.currentTurnIndex.
  rewrite H. reflexivity.
Qed.

Lemma turnIndices_length gs : length (turnIndices gs) = length gs.
Proof. apply length_map. Qed.

(** An update at a turn index the list has leaves the turn indices as they
    are. *)
Lemma landsOn_step op s :
  landsOn (turnIndices (Provider.roomGuesses s)) op ->
  turnIndices (Provider.roomGuesses (Provider.apply op s))
  = turnIndices (Provider.roomGuesses s).
Proof.
  destruct op as [guess | ev fetched now | t]; simpl; intros H.
  - rewrite turnIndices_addGuessTo.
    destruct (in_dec _ _ _); [reflexivity | contradiction].
  - unfold Provider.handleResultComputed.
    destruct (Provider.forCurrentRoom ev s); [|reflexivity].
    cbn [Provider.roomGuesses]. rewrite turnIndices_mergeResult.
    destruct (in_dec _ _ _); [reflexivity | contradiction].
  - contradiction.
Qed.

Lemma landsOn_run ops :
  forall s,
    Forall (landsOn (turnIndices (Provider.roomGuesses s))) ops ->
    turnIndices (Provider.roomGuesses (Provider.run ops s))
    = turnIndices (Provider.roomGuesses s).
Proof.
  unfold Provider.run. induction ops as [|op ops IH]; intros s H; simpl;
    [reflexivity|].
  inversion H as [|? ? Hop Hops]; subst.
  pose proof (landsOn_step op s Hop) as Hstep.
  rewrite IH; [exact Hstep|]. rewrite Hstep. exact Hops.
Qed.

(** X10. A submission that goes through, made on a list with no entry at the
    current turn index, clears the selection and leaves the list with the
    optimistic guess appended and whatever landed during the wait applied.
    When every update that landed is an [addGuess] or a result-computed event
    at a turn index the list then has (the result of the submitted turn
    among them), the turn passes: the turn indices are the ones before and
    the current one, the current turn index grows by one and whoever was to
    move is no longer.  A result-computed event of the room at a turn index
    the list does not have, landing during the wait, adds an entry of its
    own: the current turn index grows by two and the turn does not pass. *)
Theorem submitted_guess_passes_the_turn :
  forall (roomId : string) (now : nat) (playerIsCreator : bool)
         (during : list Provider.Op) (v : GameScreen.View),
    let before := Provider.roomGuesses (GameScreen.provider v) in
    let turn := length before in
    let optimistic :=
      GameScreen.newGuess turn (GameScreen.selectedDigits v) now in
    let v' :=
      GameScreen.handleSubmit (Some roomId) now GameScreen.Resolved during v in
    let after := Provider.roomGuesses (GameScreen.provider v') in
    truthy (Some roomId) = true ->
    existsb GameScreen.isEmpty (GameScreen.selectedDigits v) = false ->
    GameScreen.distinctCount (GameScreen.selectedDigits v) = 4 ->
    (forall g, In g before -> turnIndex g <> turn) ->
    GameScreen.selectedDigits v' = Keypad.handleClear /\
    after
    = Provider.roomGuesses
        (Provider.run during
           {| Provider.currentRoomId :=
                Provider.currentRoomId (GameScreen.provider v);
              Provider.roomGuesses := before ++ [optimistic] |}) /\
    (Forall (landsOn (turnIndices before ++ [turn])) during ->
     turnIndices after = turnIndices before ++ [turn] /\
     GameScreen.currentTurnIndex after
     = S (GameScreen.currentTurnIndex before) /\
     GameScreen.isPlayerTurn playerIsCreator after
     = negb (GameScreen.isPlayerTurn playerIsCreator before)) /\
    (forall ev fetched now',
        during = [Provider.ResultEvent ev fetched now'] ->
        Provider.forCurrentRoom ev (GameScreen.provider v) = true ->
        ~ In (ResultComputed.turnIndex ev) (turnIndices before ++ [turn]) ->
        GameScreen.currentTurnIndex after
        = S (S (GameScreen.currentTurnIndex before)) /\
        GameScreen.isPlayerTurn playerIsCreator after
        = GameScreen.isPlayerTurn playerIsCreator before).
Proof.
  intros roomId now pc during v before turn optimistic v' after
         Hroom Hfull Hdistinct Hfree.
  set (added := {| Provider.currentRoomId :=
                     Provider.currentRoomId (GameScreen.provider v);
                   Provider.roomGuesses := before ++ [optimistic] |}).
  assert (Hadded : Provider.addGuess optimistic (GameScreen.provider v)
                   = added).
  { unfold Provider.addGuess, added. f_equal. fold before.
    rewrite addGuessTo_upsert. apply upsert_absent.
    intros x Hx. apply atTurn_false. simpl. apply Hfree, Hx. }
  assert (Hafter : after = Provider.roomGuesses (Provider.run during added)).
  { subst after v'.
    rewrite (handleSubmit_checked (Some roomId) now GameScreen.Resolved
               during v Hroom Hfull Hdistinct).
    cbv zeta. fold before. fold turn. fold optimistic.
    rewrite Hadded. reflexivity. }
  assert (Hindices : turnIndices (Provider.roomGuesses added)
                     = turnIndices before ++ [turn]).
  { unfold added, turnIndices. simpl. rewrite map_app. reflexivity. }
  split; [|split; [exact Hafter|split]].
  - subst v'. unfold GameScreen.handleSubmit.
    rewrite Hfull, Hdistinct, Hroom. reflexivity.
  - intros Hlands.
    assert (Hkept : turnIndices after = turnIndices before ++ [turn]).
    { rewrite Hafter, landsOn_run; [exact Hindices|].
      rewrite Hindices. exact Hlands. }
    assert (Hlen : length after = length (before ++ [optimistic])).
    { rewrite <- (turnIndices_length after), Hkept.
      rewrite !length_app, turnIndices_length. reflexivity. }
    split; [exact Hkept|]. split.
    + unfold GameScreen.currentTurnIndex. rewrite Hlen, length_app.
      simpl. lia.
    + rewrite (isPlayerTurn_length pc after (before ++ [optimistic]) Hlen).
      apply turn_flips.
  - intros ev fetched now' -> Hcurrent Hnew.
    assert (Hlen : length after = length ((before ++ [optimistic])
                                          ++ [arrived ev fetched now'])).
    { rewrite Hafter. unfold Provider.run. cbn [fold_left Provider.apply].
      unfold Provider.handleResultComputed.
      replace (Provider.forCurrentRoom ev added) with true
        by (symmetry; exact Hcurrent).
      cbn [Provider.roomGuesses]. rewrite mergeResult_upsert.
      rewrite upsert_absent; [reflexivity|].
      apply not_in_turnIndices. rewrite Hindices. exact Hnew. }
    split.
    + unfold GameScreen.currentTurnIndex. rewrite Hlen, !length_app.
      simpl. lia.
    + rewrite (isPlayerTurn_length pc after _ Hlen).
      rewrite !turn_flips. apply negb_involutive.
Qed.

Lemma submitted_guess_passes_the_turn_witness :
  let v := {| GameScreen.provider :=
                Provider.setCurrentRoom (Some "7") Provider.initial;
              GameScreen.selectedDigits := ["5"; "6"; "7"; "8"];
              GameScreen.toasts := [] |} in
  let ev := ResultComputed.mk "7" 0 "0xabc" (Some (SignedResult.mk 1 2)) in
  let during := [Provider.ResultEvent ev (Some ["5"; "6"; "7"; "8"]) 200] in
  GameScreen.isPlayerTurn true
    (Provider.roomGuesses
       (GameScreen.provider
          (GameScreen.handleSubmit (Some "7") 100 GameScreen.Resolved
             during v)))
  = negb (GameScreen.isPlayerTurn true
            (Provider.roomGuesses (GameScreen.provider v))).
Proof.
  intros v ev during.
  apply (submitted_guess_passes_the_turn "7" 100 true during v);
    try reflexivity.
  - intros g [].
  - constructor; [|constructor]. left. reflexivity.
Defined.



(** ** Sending and waiting: what a run looks like *)

Module RunFacts.
Import Transactions.

Lemma waited_app a b : waited (a ++ b) = waited a + waited b.
Proof.
  induction a as [|x a IH]; simpl; [reflexivity|].
  destruct x; simpl; rewrite IH; lia.
Qed.

Lemma waited_rounds h k : waited (rounds h k) = 1000 * k.
Proof. induction k as [|k IH]; simpl; [reflexivity | rewrite IH; lia]. Qed.

Lemma polls_rounds h k : length (filter isPoll (rounds h k)) = k.
Proof. induction k as [|k IH]; simpl; [reflexivity | rewrite IH; reflexivity]. Qed.

Section Loop.
Variable txHash : string.
Variable rpc : Rpc.

(** Every request comes back empty: [remaining] rounds, no receipt. *)
Lemma pollReceipt_all_null remaining :
  forall attempts,
    (forall i, i < remaining -> rpc (attempts + i) = Null) ->
    pollReceipt txHash rpc remaining attempts
    = (rounds txHash remaining, Returned None).
Proof.
  induction remaining as [|n IH]; intros attempts H; [reflexivity|].
  rewrite WaitFacts.pollReceipt_step.
  pose proof (H 0 (Nat.lt_0_succ n)) as H0. rewrite Nat.add_0_r in H0.
  rewrite H0. rewrite IH; [reflexivity|].
  intros i Hi. replace (S attempts + i) with (attempts + S i) by lia.
  apply H. lia.
Qed.

(** The first answer that is not empty comes at request [k]: [k] rounds, one
    more request, and the loop ends on that answer. *)
Lemma pollReceipt_first_answer k :
  forall remaining attempts,
    k < remaining ->
    (forall i, i < k -> rpc (attempts + i) = Null) ->
    rpc (attempts + k) <> Null ->
    pollReceipt txHash rpc remaining attempts
    = (rounds txHash k ++ [GetReceipt txHash],
       match rpc (attempts + k) with
       | Found receipt => Returned (Some receipt)
       | Failed reason => Thrown (Rejected reason)
       | Null => Returned None
       end).
Proof.
  induction k as [|k IH]; intros remaining attempts Hk Hnull Hanswer.
  - destruct remaining as [|n]; [lia|].
    rewrite WaitFacts.pollReceipt_step. rewrite Nat.add_0_r in *.
    destruct (rpc attempts); [reflexivity | contradiction | reflexivity].
  - destruct remaining as [|n]; [lia|].
    rewrite WaitFacts.pollReceipt_step.
    pose proof (Hnull 0 (Nat.lt_0_succ k)) as H0. rewrite Nat.add_0_r in H0.
    rewrite H0.
    replace (attempts + S k) with (S attempts + k) in * by lia.
    rewrite (IH n (S attempts)); [reflexivity | lia | | exact Hanswer].
    intros i Hi. replace (S attempts + i) with (attempts + S i) by lia.
    apply Hnull. lia.
Qed.

Lemma pollReceipt_waits remaining :
  forall attempts,
    waited (trace (pollReceipt txHash rpc remaining attempts))
    <= 1000 * remaining.
Proof.
  induction remaining as [|n IH]; intros attempts; [simpl; lia|].
  rewrite WaitFacts.pollReceipt_step.
  destruct (rpc attempts); simpl; try lia.
  specialize (IH (S attempts)). lia.
Qed.

(** The run of "send, wait thirty attempts, return a value". *)
Lemma send_wait_run {B : Type} (k : string -> Receipt -> B) :
  let m := bind (sendTransaction (TxHash txHash)) (fun tx =>
             bind (waitForReceipt 30 tx rpc) (fun receipt =>
               ret (k tx receipt))) in
  trace m = SendTransaction :: trace (pollReceipt txHash rpc 30 0) /\
  outcome m = match outcome (pollReceipt txHash rpc 30 0) with
              | Returned (Some receipt) => Returned (k txHash receipt)
              | Returned None => Thrown ReceiptNotFound
              | Thrown e => Thrown e
              end.
Proof.
  cbv zeta. unfold waitForReceipt.
  cbn -[pollReceipt].
  destruct (pollReceipt txHash rpc 30 0) as [tr [[r|]|e]]; simpl;
    rewrite ?app_nil_r; split; reflexivity.
Qed.

End Loop.

(** The three callers are instances of that run. *)
Lemma createRoom_run h rpc :
  createRoom true (TxHash h) rpc
  = bind (sendTransaction (TxHash h)) (fun tx =>
      bind (waitForReceipt 30 tx rpc) (fun receipt =>
        ret ((fun _ r => roomResult "RoomCreated" r) tx receipt))).
Proof. reflexivity. Qed.

Lemma joinRoom_run h rpc :
  joinRoom true (TxHash h) rpc
  = bind (sendTransaction (TxHash h)) (fun tx =>
      bind (waitForReceipt 30 tx rpc) (fun receipt =>
        ret ((fun _ r => roomResult "RoomJoined" r) tx receipt))).
Proof. reflexivity. Qed.

Lemma submitGuess_run h rpc :
  submitGuess true (TxHash h) rpc
  = bind (sendTransaction (TxHash h)) (fun tx =>
      bind (waitForReceipt 30 tx rpc) (fun receipt =>
        ret ((fun t _ => t) tx receipt))).
Proof. reflexivity. Qed.

End RunFacts.

(** X12. When the first receipt comes at request number [k] (counted from 0,
    [k < 30]), each of [createRoom], [joinRoom] and [submitGuess] makes
    exactly [k + 1] receipt requests, has waited [k] seconds in all, and
    returns: the room id read from the receipt for the first two, the
    transaction hash for the third. *)
Theorem receipt_at_request_k :
  forall (hash : string) (rpc : Transactions.Rpc) (k : nat)
         (receipt : Transactions.Receipt),
    let run := Transactions.SendTransaction
                 :: rounds hash k ++ [Transactions.GetReceipt hash] in
    k < 30 ->
    (forall i, i < k -> rpc i = Transactions.Null) ->
    rpc k = Transactions.Found receipt ->
    Transactions.createRoom true (Transactions.TxHash hash) rpc
    = (run, Transactions.Returned
              (Transactions.roomResult "RoomCreated" receipt)) /\
    Transactions.joinRoom true (Transactions.TxHash hash) rpc
    = (run, Transactions.Returned
              (Transactions.roomResult "RoomJoined" receipt)) /\
    Transactions.submitGuess true (Transactions.TxHash hash) rpc
    = (run, Transactions.Returned hash) /\
    length (filter Transactions.isPoll run) = S k /\
    waited run = 1000 * k.
Proof.
  intros hash rpc k receipt run Hk Hnull Hfound.
  assert (Hloop : Transactions.pollReceipt hash rpc 30 0
                  = (rounds hash k ++ [Transactions.GetReceipt hash],
                     Transactions.Returned (Some receipt))).
  { rewrite (RunFacts.pollReceipt_first_answer hash rpc k 30 0 Hk);
      simpl; [rewrite Hfound; reflexivity | exact Hnull
             | rewrite Hfound; discriminate]. }
  assert (Hrun : forall B (f : string -> Transactions.Receipt -> B),
             Transactions.bind
               (Transactions.sendTransaction (Transactions.TxHash hash))
               (fun tx => Transactions.bind
                            (Transactions.waitForReceipt 30 tx rpc)
                            (fun r => Transactions.ret (f tx r)))
             = (run, Transactions.Returned (f hash receipt))).
  { intros B f.
    destruct (RunFacts.send_wait_run hash rpc f) as [Ht Ho].
    cbv zeta in Ht, Ho. rewrite Hloop in Ht, Ho. simpl in Ht, Ho.
    apply injective_projections; [exact Ht | exact Ho]. }
  split; [rewrite RunFacts.createRoom_run; apply Hrun|].
  split; [rewrite RunFacts.joinRoom_run; apply Hrun|].
  split; [rewrite RunFacts.submitGuess_run; apply Hrun|].
  subst run. split.
  - simpl. rewrite filter_app, length_app, RunFacts.polls_rounds. simpl. lia.
  - simpl. rewrite RunFacts.waited_app, RunFacts.waited_rounds. simpl. lia.
Qed.

Lemma receipt_at_request_k_witness :
  Transactions.submitGuess true (Transactions.TxHash "0xfeed")
    (fun n => if Nat.eqb n 2
              then Transactions.Found (Transactions.mkReceipt [])
              else Transactions.Null)
  = (Transactions.SendTransaction
       :: rounds "0xfeed" 2 ++ [Transactions.GetReceipt "0xfeed"],
     Transactions.Returned "0xfeed").
Proof.
  apply (receipt_at_request_k "0xfeed"
           (fun n => if Nat.eqb n 2
                     then Transactions.Found (Transactions.mkReceipt [])
                     else Transactions.Null)
           2 (Transactions.mkReceipt [])).
  - lia.
  - intros [|[|i]] Hi; try reflexivity. lia.
  - reflexivity.
Defined.

(** X13. A receipt request that fails ends the call at once with the error of
    that request: after [k] empty answers and a failure at request [k], each
    of the three functions has made [k + 1] requests and throws the request's
    error, not the time-out error. *)
Theorem failed_request_ends_the_wait :
  forall (hash : string) (rpc : Transactions.Rpc) (k : nat) (reason : string),
    let run := Transactions.SendTransaction
                 :: rounds hash k ++ [Transactions.GetReceipt hash] in
    k < 30 ->
    (forall i, i < k -> rpc i = Transactions.Null) ->
    rpc k = Transactions.Failed reason ->
    Transactions.createRoom true (Transactions.TxHash hash) rpc
    = (run, Transactions.Thrown (Transactions.Rejected reason)) /\
    Transactions.joinRoom true (Transactions.TxHash hash) rpc
    = (run, Transactions.Thrown (Transactions.Rejected reason)) /\
    Transactions.submitGuess true (Transactions.TxHash hash) rpc
    = (run, Transactions.Thrown (Transactions.Rejected reason)).
Proof.
  intros hash rpc k reason run Hk Hnull Hfailed.
  assert (Hloop : Transactions.pollReceipt hash rpc 30 0
                  = (rounds hash k ++ [Transactions.GetReceipt hash],
                     Transactions.Thrown (Transactions.Rejected reason))).
  { rewrite (RunFacts.pollReceipt_first_answer hash rpc k 30 0 Hk);
      simpl; [rewrite Hfailed; reflexivity | exact Hnull
             | rewrite Hfailed; discriminate]. }
  assert (Hrun : forall B (f : string -> Transactions.Receipt -> B),
             Transactions.bind
               (Transactions.sendTransaction (Transactions.TxHash hash))
               (fun tx => Transactions.bind
                            (Transactions.waitForReceipt 30 tx rpc)
                            (fun r => Transactions.ret (f tx r)))
             = (run, Transactions.Thrown (Transactions.Rejected reason))).
  { intros B f.
    destruct (RunFacts.send_wait_run hash rpc f) as [Ht Ho].
    cbv zeta in Ht, Ho. rewrite Hloop in Ht, Ho. simpl in Ht, Ho.
    apply injective_projections; [exact Ht | exact Ho]. }
  split; [rewrite RunFacts.createRoom_run; apply Hrun|].
  split; [rewrite RunFacts.joinRoom_run; apply Hrun|].
  rewrite RunFacts.submitGuess_run; apply Hrun.
Qed.

Lemma failed_request_ends_the_wait_witness :
  Transactions.createRoom true (Transactions.TxHash "0xfeed")
    (fun n => if Nat.eqb n 1
              then Transactions.Failed "network error"
              else Transactions.Null)
  = (Transactions.SendTransaction
       :: rounds "0xfeed" 1 ++ [Transactions.GetReceipt "0xfeed"],
     Transactions.Thrown (Transactions.Rejected "network error")).
Proof.
  apply (failed_request_ends_the_wait "0xfeed"
           (fun n => if Nat.eqb n 1
                     then Transactions.Failed "network error"
                     else Transactions.Null)
           1 "network error").
  - lia.
  - intros [|i] Hi; [reflexivity | lia].
  - reflexivity.
Defined.

Lemma wait_bounded ready sent rpc :
  waited (Transactions.trace (Transactions.createRoom ready sent rpc)) <= 30 * 1000 /\
  waited (Transactions.trace (Transactions.joinRoom ready sent rpc)) <= 30 * 1000 /\
  waited (Transactions.trace (Transactions.submitGuess ready sent rpc)) <= 30 * 1000.
Proof.
  destruct ready; [|simpl; lia].
  destruct sent as [h|reason]; [|simpl; lia].
  pose proof (RunFacts.pollReceipt_waits h rpc 30 0) as Hw.
  rewrite RunFacts.createRoom_run, RunFacts.joinRoom_run,
    RunFacts.submitGuess_run.
  repeat split.
  - destruct (RunFacts.send_wait_run h rpc
                (fun _ r => Transactions.roomResult "RoomCreated" r)) as [-> _].
    cbn [waited]. lia.
  - destruct (RunFacts.send_wait_run h rpc
                (fun _ r => Transactions.roomResult "RoomJoined" r)) as [-> _].
    cbn [waited]. lia.
  - destruct (RunFacts.send_wait_run h rpc (fun t _ => t)) as [-> _].
    cbn [waited]. lia.
Qed.

Lemma timed_out_run {B : Type} h rpc (f : string -> Transactions.Receipt -> B) :
  Transactions.noReceiptWithin 30 rpc ->
  Transactions.bind
    (Transactions.sendTransaction (Transactions.TxHash h))
    (fun tx => Transactions.bind
                 (Transactions.waitForReceipt 30 tx rpc)
                 (fun r => Transactions.ret (f tx r)))
  = (Transactions.SendTransaction :: rounds h 30,
     Transactions.Thrown Transactions.ReceiptNotFound).
Proof.
  intros Hnone.
  destruct (RunFacts.send_wait_run h rpc f) as [Ht Ho]. cbv zeta in Ht, Ho.
  rewrite (RunFacts.pollReceipt_all_null h rpc 30 0) in Ht, Ho
    by (intros i Hi; apply Hnone, Hi).
  apply injective_projections; [exact Ht | exact Ho].
Qed.

(** X14. No call of [createRoom], [joinRoom] or [submitGuess] waits more than
    30 seconds in all between its receipt requests; and a call that gets no
    receipt makes exactly 30 requests and waits exactly 30 seconds, the last
    second after the last request, before it throws the time-out error. *)
Theorem wait_is_at_most_thirty_seconds :
  forall (ready : bool) (sent : Transactions.Sent) (hash : string)
         (rpc : Transactions.Rpc),
    (waited (Transactions.trace (Transactions.createRoom ready sent rpc))
     <= 30 * 1000 /\
     waited (Transactions.trace (Transactions.joinRoom ready sent rpc))
     <= 30 * 1000 /\
     waited (Transactions.trace (Transactions.submitGuess ready sent rpc))
     <= 30 * 1000) /\
    (Transactions.noReceiptWithin 30 rpc ->
     let run := Transactions.SendTransaction :: rounds hash 30 in
     Transactions.createRoom true (Transactions.TxHash hash) rpc
     = (run, Transactions.Thrown Transactions.ReceiptNotFound) /\
     Transactions.joinRoom true (Transactions.TxHash hash) rpc
     = (run, Transactions.Thrown Transactions.ReceiptNotFound) /\
     Transactions.submitGuess true (Transactions.TxHash hash) rpc
     = (run, Transactions.Thrown Transactions.ReceiptNotFound) /\
     length (filter Transactions.isPoll run) = 30 /\
     waited run = 30 * 1000 /\
     last run Transactions.SendTransaction = Transactions.Wait 1000).
Proof.
  intros ready sent hash rpc. split; [apply wait_bounded|].
  intros Hnone run.
  split; [rewrite RunFacts.createRoom_run; apply timed_out_run, Hnone|].
  split; [rewrite RunFacts.joinRoom_run; apply timed_out_run, Hnone|].
  split; [rewrite RunFacts.submitGuess_run; apply timed_out_run, Hnone|].
  repeat split.
Qed.

(** X15. Without a ready provider nothing is sent: [createRoom] and
    [joinRoom] return [undefined] and [submitGuess] throws, none of them
    making a request.  When the transaction is refused, the error of the
    request is what the caller gets, and no receipt is ever asked for. *)
Theorem nothing_is_polled_without_a_transaction :
  forall (sent : Transactions.Sent) (reason : string) (rpc : Transactions.Rpc),
    (Transactions.createRoom false sent rpc
     = ([], Transactions.Returned Transactions.NothingDone) /\
     Transactions.joinRoom false sent rpc
     = ([], Transactions.Returned Transactions.NothingDone) /\
     Transactions.submitGuess false sent rpc
     = ([], Transactions.Thrown Transactions.NotReady)) /\
    (Transactions.createRoom true (Transactions.Refused reason) rpc
     = ([Transactions.SendTransaction],
        Transactions.Thrown (Transactions.Rejected reason)) /\
     Transactions.joinRoom true (Transactions.Refused reason) rpc
     = ([Transactions.SendTransaction],
        Transactions.Thrown (Transactions.Rejected reason)) /\
     Transactions.submitGuess true (Transactions.Refused reason) rpc
     = ([Transactions.SendTransaction],
        Transactions.Thrown (Transactions.Rejected reason))) /\
    (forall ready,
        Transactions.polls (Transactions.createRoom ready sent rpc) > 0 \/
        Transactions.polls (Transactions.joinRoom ready sent rpc) > 0 \/
        Transactions.polls (Transactions.submitGuess ready sent rpc) > 0 ->
        ready = true /\ exists hash, sent = Transactions.TxHash hash).
Proof.
  intros sent reason rpc. split; [repeat split|]. split; [repeat split|].
  intros ready H.
  destruct ready.
  - split; [reflexivity|]. destruct sent as [h|r]; [exists h; reflexivity|].
    exfalso. unfold Transactions.polls in H. simpl in H. lia.
  - exfalso. unfold Transactions.polls in H. simpl in H. lia.
Qed.

(** ** The receipt's logs *)

Lemma roomIdOfEvent_none eventName receipt :
  Transactions.roomIdOfEvent eventName receipt = None <->
  forall p, In (Some p) (Transactions.logs receipt) ->
            Transactions.name p <> eventName.
Proof.
  unfold Transactions.roomIdOfEvent.
  destruct (find _ (Transactions.logs receipt)) as [[p|]|] eqn:E.
  - split; [discriminate|]. intros H. apply find_some in E.
    destruct E as [Hin Hname]. apply String.eqb_eq in Hname.
    destruct (H p Hin Hname).
  - apply find_some in E. destruct E as [_ E]. discriminate.
  - split; [|reflexivity]. intros _ p Hin Hname.
    rewrite find_none_iff in E. specialize (E (Some p) Hin). simpl in E.
    apply String.eqb_neq in E. contradiction.
Qed.

Lemma roomIdOfEvent_some eventName receipt id :
  Transactions.roomIdOfEvent eventName receipt = Some id ->
  exists p, In (Some p) (Transactions.logs receipt) /\
            Transactions.name p = eventName /\ Transactions.roomId p = id.
Proof.
  unfold Transactions.roomIdOfEvent.
  destruct (find _ (Transactions.logs receipt)) as [[p|]|] eqn:E;
    try discriminate.
  intros H. injection H as <-. apply find_some in E. destruct E as [Hin Hname].
  exists p. split; [exact Hin|]. split; [apply String.eqb_eq, Hname|reflexivity].
Qed.

(** X16. What a confirmed [createRoom] or [joinRoom] returns depends on the
    receipt's logs only: [null] exactly when no log parses to the expected
    event ([RoomCreated], [RoomJoined]), a confirmed transaction without its
    event being no error; otherwise the room id of a log that does.  Logs
    that fail to parse are skipped. *)
Theorem room_id_comes_from_the_logs :
  forall (eventName : string) (receipt : Transactions.Receipt),
    (Transactions.roomResult eventName receipt = Transactions.EventNotFound <->
     forall p, In (Some p) (Transactions.logs receipt) ->
               Transactions.name p <> eventName) /\
    (forall id,
        Transactions.roomResult eventName receipt = Transactions.RoomId id ->
        exists p, In (Some p) (Transactions.logs receipt) /\
                  Transactions.name p = eventName /\
                  Transactions.roomId p = id) /\
    Transactions.roomResult eventName receipt <> Transactions.NothingDone /\
    Transactions.roomResult eventName
      (Transactions.mkReceipt (None :: Transactions.logs receipt))
    = Transactions.roomResult eventName receipt.
Proof.
  intros eventName receipt. unfold Transactions.roomResult.
  split; [|split; [|split]].
  - rewrite <- roomIdOfEvent_none.
    destruct (Transactions.roomIdOfEvent eventName receipt);
      split; try discriminate; reflexivity.
  - intros id H. apply roomIdOfEvent_some.
    destruct (Transactions.roomIdOfEvent eventName receipt);
      [injection H as ->; reflexivity | discriminate].
  - destruct (Transactions.roomIdOfEvent eventName receipt); discriminate.
  - reflexivity.
Qed.

(** ** The event poller: intervals, order of dispatch, failures *)

(** X17. The poller never has more than one interval: in every state it can
    reach, either it is listening and the interval it stores is the only live
    one, or it is not listening and no interval is live or stored. *)
Theorem at_most_one_interval :
  forall (w : EventHandler.World),
    EventHandler.reachable w ->
    length (EventHandler.timers w) <= 1 /\
    (EventHandler.isListening (EventHandler.this w) = true ->
     exists id,
       EventHandler.pollInterval (EventHandler.this w) = Some id /\
       EventHandler.timers w = [id]) /\
    (EventHandler.isListening (EventHandler.this w) = false ->
     EventHandler.pollInterval (EventHandler.this w) = None /\
     EventHandler.timers w = []).
Proof.
  intros w Hreach. pose proof (PollerFacts.tidy_reachable w Hreach) as Ht.
  unfold tidy in Ht.
  destruct (EventHandler.isListening (EventHandler.this w)).
  - destruct Ht as [id [Hp Htm]]. rewrite Htm. split; [simpl; lia|].
    split; [intros _; exists id; split; [exact Hp | reflexivity]|].
    discriminate.
  - destruct Ht as [Hp Htm]. rewrite Htm. split; [simpl; lia|].
    split; [discriminate|]. intros _. split; [exact Hp | reflexivity].
Qed.

Lemma at_most_one_interval_witness :
  let all : EventHandler.EventHandlers := fun _ => true in
  let w := EventHandler.run
             [ EventHandler.Initialize all; EventHandler.Initialize all;
               EventHandler.StopListening; EventHandler.Initialize all;
               EventHandler.TimerFires 0; EventHandler.Initialize all ]
             EventHandler.initial in
  length (EventHandler.timers w) <= 1.
Proof.
  intros all w. apply (at_most_one_interval w).
  exists [ EventHandler.Initialize all; EventHandler.Initialize all;
           EventHandler.StopListening; EventHandler.Initialize all;
           EventHandler.TimerFires 0; EventHandler.Initialize all ].
  reflexivity.
Defined.

Module DispatchFacts.
Import EventHandler.

Lemma processAll_invoked events :
  forall w,
    invoked (processAll events w)
    = invoked w ++ dispatched (handlers (this w)) events.
Proof.
  unfold processAll.
  induction events as [|event events IH]; intros w; simpl.
  - rewrite app_nil_r. reflexivity.
  - rewrite IH.
    destruct (PollerFacts.processEvent_keeps event w) as [-> _].
    destruct event as [n|]; simpl; [|reflexivity].
    destruct (handlers (this w) n); simpl.
    + rewrite <- app_assoc. reflexivity.
    + reflexivity.
Qed.

Lemma run_app ts ts' w : run (ts ++ ts') w = run ts' (run ts w).
Proof. unfold run. apply fold_left_app. Qed.

(** One whole cycle on a listening poller with nothing in flight. *)
Lemma cycle_run id latest events w :
  isListening (this w) = true ->
  contract (this w) = true ->
  inFlight w = [] ->
  let w' := run (cycle id latest events) w in
  this w' = this w /\ inFlight w' = [] /\
  started w' = S (started w) /\
  invoked w' = invoked w ++ dispatched (handlers (this w)) events.
Proof.
  intros Hl Hc Hf. unfold cycle, run. simpl.
  unfold pollCallback. rewrite Hl. simpl.
  unfold checkForNewEvents. rewrite Hc. simpl. rewrite Hf. simpl.
  unfold blockNumberArrives. simpl. rewrite Hc. simpl.
  unfold logsArrive. simpl.
  destruct (PollerFacts.processAll_keeps events
              (setInFlight []
                 (setInFlight [AwaitingLogs (Nat.max 0 (latest - 10)) latest]
                    {| this := this w; timers := timers w;
                       nextTimer := nextTimer w;
                       inFlight := [AwaitingBlockNumber];
                       started := S (started w);
                       invoked := invoked w |})))
    as [K1 [K2 [K3 K4]]].
  rewrite processAll_invoked.
  repeat split; assumption.
Qed.

Lemma dispatched_none events : dispatched noHandlers events = [].
Proof.
  induction events as [|[n|] events IH]; simpl; [reflexivity | exact IH | exact IH].
Qed.

Lemma silent_processAll events :
  forall w,
    handlers (this w) = noHandlers ->
    invoked (processAll events w) = invoked w.
Proof.
  intros w H. rewrite processAll_invoked, H, dispatched_none.
  apply app_nil_r.
Qed.

Lemma silent_step t w :
  match t with Initialize _ | UpdateHandlers _ => false | _ => true end = true ->
  handlers (this w) = noHandlers ->
  isListening (this w) = false ->
  handlers (this (step t w)) = noHandlers /\
  isListening (this (step t w)) = false /\
  invoked (step t w) = invoked w.
Proof.
  intros Ht Hh Hl.
  destruct t as [hs | hs | | | id | k latest | k events]; simpl in *;
    try discriminate.
  - unfold stopListening. rewrite Hl. simpl. repeat split; assumption.
  - unfold cleanup, stopListening. rewrite Hl. simpl. repeat split; assumption.
  - unfold pollCallback. rewrite Hl. simpl. repeat split; assumption.
  - unfold blockNumberArrives.
    destruct (nth_error (inFlight w) k) as [[|a b]|];
      try (repeat split; assumption).
    destruct latest as [n|]; [destruct (contract (this w))|];
      simpl; repeat split; assumption.
  - unfold logsArrive.
    destruct (nth_error (inFlight w) k) as [[|a b]|];
      try (repeat split; assumption).
    destruct events as [events|]; [|simpl; repeat split; assumption].
    destruct (PollerFacts.processAll_keeps events
                (setInFlight (removeAt k (inFlight w)) w)) as [K1 _].
    rewrite K1. simpl. split; [exact Hh|]. split; [exact Hl|].
    rewrite silent_processAll; [reflexivity | exact Hh].
Qed.

Lemma silent_run ts :
  forall w,
    keepsHandlers ts ->
    handlers (this w) = noHandlers ->
    isListening (this w) = false ->
    invoked (run ts w) = invoked w.
Proof.
  unfold keepsHandlers, run.
  induction ts as [|t ts IH]; intros w Hts Hh Hl; simpl; [reflexivity|].
  simpl in Hts. apply andb_true_iff in Hts. destruct Hts as [Ht Hts].
  destruct (silent_step t w Ht Hh Hl) as [Hh' [Hl' Hi]].
  rewrite (IH (step t w) Hts Hh' Hl'). exact Hi.
Qed.

Lemma cleanup_silences w :
  handlers (this (cleanup w)) = noHandlers /\
  isListening (this (cleanup w)) = false /\
  contract (this (cleanup w)) = false /\
  invoked (cleanup w) = invoked w.
Proof.
  unfold cleanup, stopListening.
  destruct (isListening (this w)) eqn:E; simpl.
  - destruct (pollInterval (this w)); simpl; repeat split.
  - rewrite E. repeat split.
Qed.

Lemma nth_error_replaceAt {A : Type} k (y : A) l :
  k < length l -> nth_error (replaceAt k y l) k = Some y.
Proof.
  revert k. induction l as [|x l IH]; intros [|k] H; simpl in *; try lia.
  - reflexivity.
  - apply IH. lia.
Qed.

End DispatchFacts.

(** X18. The logs of one answer are dispatched in the order of the answer:
    when the logs of a waiting cycle arrive, the handlers called are, in
    order, those of the logs that carry a known event name and have a handler
    set; raw or unknown logs are skipped, and the cycle is over. *)
Theorem logs_are_dispatched_in_order :
  forall (k : nat) (events : list EventHandler.Log) (w : EventHandler.World)
         (fromBlock latestBlock : nat),
    nth_error (EventHandler.inFlight w) k
    = Some (EventHandler.AwaitingLogs fromBlock latestBlock) ->
    EventHandler.invoked (EventHandler.logsArrive k (Some events) w)
    = EventHandler.invoked w
      ++ dispatched (EventHandler.handlers (EventHandler.this w)) events /\
    EventHandler.inFlight (EventHandler.logsArrive k (Some events) w)
    = EventHandler.removeAt k (EventHandler.inFlight w).
Proof.
  intros k events w fromBlock latestBlock Hk.
  unfold EventHandler.logsArrive. rewrite Hk.
  rewrite DispatchFacts.processAll_invoked.
  destruct (PollerFacts.processAll_keeps events
              (EventHandler.setInFlight
                 (EventHandler.removeAt k (EventHandler.inFlight w)) w))
    as [_ [_ [K3 _]]].
  rewrite K3. split; reflexivity.
Qed.

Lemma logs_are_dispatched_in_order_witness :
  let hs : EventHandler.EventHandlers :=
    fun n => match n with
             | EventHandler.RoomJoined | EventHandler.ResultComputed => true
             | _ => false
             end in
  let w := EventHandler.run
             [ EventHandler.Initialize hs; EventHandler.TimerFires 0;
               EventHandler.BlockNumber 0 (Some 120) ]
             EventHandler.initial in
  EventHandler.invoked
    (EventHandler.logsArrive 0
       (Some [ Some EventHandler.ResultComputed; None;
               Some EventHandler.RoomCreated; Some EventHandler.RoomJoined ])
       w)
  = [] ++ [EventHandler.ResultComputed; EventHandler.RoomJoined].
Proof.
  intros hs w.
  apply (logs_are_dispatched_in_order 0
           [ Some EventHandler.ResultComputed; None;
             Some EventHandler.RoomCreated; Some EventHandler.RoomJoined ]
           w 110 120).
  reflexivity.
Defined.

(** X19. The poller does not remember what it dispatched: two poll cycles
    whose log queries return the same logs (the look-back windows overlap)
    call the handlers of those logs twice. *)
Theorem overlapping_cycles_dispatch_twice :
  forall (id id' latest latest' : nat) (events : list EventHandler.Log)
         (w : EventHandler.World),
    let d := dispatched (EventHandler.handlers (EventHandler.this w)) events in
    EventHandler.isListening (EventHandler.this w) = true ->
    EventHandler.contract (EventHandler.this w) = true ->
    EventHandler.inFlight w = [] ->
    EventHandler.invoked
      (EventHandler.run (cycle id latest events ++ cycle id' latest' events) w)
    = EventHandler.invoked w ++ d ++ d.
Proof.
  intros id id' latest latest' events w d Hl Hc Hf.
  rewrite DispatchFacts.run_app.
  destruct (DispatchFacts.cycle_run id latest events w Hl Hc Hf)
    as [Ht [Hf' [_ Hi]]].
  cbv zeta in Ht, Hf', Hi.
  destruct (DispatchFacts.cycle_run id' latest' events
              (EventHandler.run (cycle id latest events) w))
    as [_ [_ [_ Hi']]]; try (rewrite Ht; assumption); try exact Hf'.
  cbv zeta in Hi'. rewrite Hi', Hi, Ht. subst d.
  rewrite <- app_assoc. reflexivity.
Qed.

Lemma overlapping_cycles_dispatch_twice_witness :
  let all : EventHandler.EventHandlers := fun _ => true in
  let w := EventHandler.run [EventHandler.Initialize all] EventHandler.initial in
  EventHandler.invoked
    (EventHandler.run
       (cycle 0 120 [Some EventHandler.ResultComputed]
        ++ cycle 0 121 [Some EventHandler.ResultComputed]) w)
  = [] ++ [EventHandler.ResultComputed] ++ [EventHandler.ResultComputed].
Proof.
  intros all w.
  apply (overlapping_cycles_dispatch_twice 0 0 120 121
           [Some EventHandler.ResultComputed] w); reflexivity.
Defined.

(** X20. [cleanup()] silences the poller for good: after it, as long as no
    handlers are set again, no handler is called whatever happens, even when
    poll cycles were waiting for the network when it was called. *)
Theorem cleanup_ends_all_dispatch :
  forall (w : EventHandler.World) (ts : list EventHandler.Task),
    keepsHandlers ts ->
    EventHandler.invoked
      (EventHandler.run ts (EventHandler.step EventHandler.Cleanup w))
    = EventHandler.invoked w.
Proof.
  intros w ts Hts. simpl.
  destruct (DispatchFacts.cleanup_silences w) as [Hh [Hl [_ Hi]]].
  rewrite (DispatchFacts.silent_run ts _ Hts Hh Hl). exact Hi.
Qed.

Lemma cleanup_ends_all_dispatch_witness :
  let all : EventHandler.EventHandlers := fun _ => true in
  let w := EventHandler.run
             [EventHandler.Initialize all; EventHandler.TimerFires 0;
              EventHandler.BlockNumber 0 (Some 120)]
             EventHandler.initial in
  EventHandler.invoked
    (EventHandler.run
       [EventHandler.Logs 0 (Some [Some EventHandler.ResultComputed])]
       (EventHandler.step EventHandler.Cleanup w))
  = [].
Proof.
  intros all w.
  apply (cleanup_ends_all_dispatch w
           [EventHandler.Logs 0 (Some [Some EventHandler.ResultComputed])]).
  reflexivity.
Defined.

(** X21. The look-back window: when the block number [latest] arrives for a
    cycle of a poller that still has its contract, the logs are asked from
    block [max(0, latest - 10)] to block [latest]: at most eleven blocks,
    all of them when the chain has ten blocks or fewer. *)
Theorem lookback_is_ten_blocks :
  forall (k latest : nat) (w : EventHandler.World),
    nth_error (EventHandler.inFlight w) k
    = Some EventHandler.AwaitingBlockNumber ->
    EventHandler.contract (EventHandler.this w) = true ->
    exists fromBlock,
      nth_error
        (EventHandler.inFlight
           (EventHandler.blockNumberArrives k (Some latest) w)) k
      = Some (EventHandler.AwaitingLogs fromBlock latest) /\
      fromBlock <= latest /\
      latest - fromBlock <= 10 /\
      (latest <= 10 -> fromBlock = 0) /\
      (10 <= latest -> fromBlock + 10 = latest).
Proof.
  intros k latest w Hk Hc.
  exists (Nat.max 0 (latest - 10)).
  unfold EventHandler.blockNumberArrives. rewrite Hk, Hc. simpl.
  split.
  - apply DispatchFacts.nth_error_replaceAt.
    apply nth_error_Some. rewrite Hk. discriminate.
  - lia.
Qed.

Lemma lookback_is_ten_blocks_witness :
  let all : EventHandler.EventHandlers := fun _ => true in
  let w := EventHandler.run
             [EventHandler.Initialize all; EventHandler.TimerFires 0]
             EventHandler.initial in
  exists fromBlock,
    nth_error
      (EventHandler.inFlight (EventHandler.blockNumberArrives 0 (Some 7) w)) 0
    = Some (EventHandler.AwaitingLogs fromBlock 7) /\
    fromBlock <= 7 /\ 7 - fromBlock <= 10 /\
    (7 <= 10 -> fromBlock = 0) /\ (10 <= 7 -> fromBlock + 10 = 7).
Proof.
  intros all w.
  apply (lookback_is_ten_blocks 0 7 w); reflexivity.
Defined.

(** X22. A failed network answer ends only the cycle that waited for it: the
    cycle is dropped, the poller keeps listening with the same interval, no
    handler is called, and the next timer tick starts a new cycle. *)
Theorem failed_query_keeps_polling :
  forall (k id : nat) (w : EventHandler.World),
    let afterBlock := EventHandler.blockNumberArrives k None w in
    let afterLogs := EventHandler.logsArrive k None w in
    EventHandler.isListening (EventHandler.this w) = true ->
    EventHandler.contract (EventHandler.this w) = true ->
    (EventHandler.this afterBlock = EventHandler.this w /\
     EventHandler.timers afterBlock = EventHandler.timers w /\
     EventHandler.invoked afterBlock = EventHandler.invoked w /\
     EventHandler.started (EventHandler.pollCallback id afterBlock)
     = S (EventHandler.started w)) /\
    (EventHandler.this afterLogs = EventHandler.this w /\
     EventHandler.timers afterLogs = EventHandler.timers w /\
     EventHandler.invoked afterLogs = EventHandler.invoked w /\
     EventHandler.started (EventHandler.pollCallback id afterLogs)
     = S (EventHandler.started w)) /\
    (nth_error (EventHandler.inFlight w) k
     = Some EventHandler.AwaitingBlockNumber ->
     EventHandler.inFlight afterBlock
     = EventHandler.removeAt k (EventHandler.inFlight w)) /\
    (forall fromBlock latestBlock,
        nth_error (EventHandler.inFlight w) k
        = Some (EventHandler.AwaitingLogs fromBlock latestBlock) ->
        EventHandler.inFlight afterLogs
        = EventHandler.removeAt k (EventHandler.inFlight w)).
Proof.
  intros k id w afterBlock afterLogs Hl Hc.
  subst afterBlock afterLogs.
  unfold EventHandler.blockNumberArrives, EventHandler.logsArrive,
    EventHandler.pollCallback, EventHandler.checkForNewEvents.
  destruct (nth_error (EventHandler.inFlight w) k) as [[|a b]|] eqn:Hk;
    simpl; rewrite Hl, Hc; simpl.
  - split; [repeat split|]. split; [repeat split|].
    split; [reflexivity | discriminate].
  - split; [repeat split|]. split; [repeat split|].
    split; [discriminate | reflexivity].
  - split; [repeat split|]. split; [repeat split|].
    split; discriminate.
Qed.

Lemma failed_query_keeps_polling_witness :
  let all : EventHandler.EventHandlers := fun _ => true in
  let w := EventHandler.run
             [EventHandler.Initialize all; EventHandler.TimerFires 0]
             EventHandler.initial in
  EventHandler.started
    (EventHandler.pollCallback 0 (EventHandler.blockNumberArrives 0 None w))
  = S (EventHandler.started w).
Proof.
  intros all w.
  apply (failed_query_keeps_polling 0 0 w); reflexivity.
Defined.

(** ** The vault code of the create and join pages *)

Module VaultFacts.
Import VaultForm.

Lemma small_number n : n < 10 -> In n numbers.
Proof. unfold numbers. simpl. lia. Qed.

Ltac each_small H :=
  repeat (destruct H as [H|H]; [subst|]); try destruct H.

Lemma numberToString_digit n :
  n < 10 -> isDigitString (numberToString n) = true.
Proof.
  intros H. apply small_number in H. unfold numbers in H. simpl in H.
  each_small H; reflexivity.
Qed.

Lemma numberToString_injective n m :
  n < 10 -> m < 10 -> numberToString n = numberToString m -> n = m.
Proof.
  intros Hn Hm. apply small_number in Hn, Hm.
  unfold numbers in Hn, Hm. simpl in Hn, Hm.
  each_small Hn; each_small Hm; intros H; try reflexivity; discriminate H.
Qed.

Lemma digit_not_empty s : isDigitString s = true -> s <> EmptyString.
Proof. intros H ->. discriminate. Qed.

Lemma findIndex_slots ds :
  Keypad.findIndex isBlankSlot (map Some ds)
  = Keypad.findIndex GameScreen.isEmpty ds.
Proof.
  induction ds as [|d ds IH]; simpl; [reflexivity|].
  rewrite IH. destruct d; reflexivity.
Qed.

Lemma includes_slots value ds :
  includes value (map Some ds) = Keypad.includes value ds.
Proof.
  unfold includes, Keypad.includes.
  induction ds as [|d ds IH]; simpl; [reflexivity|].
  rewrite IH, (String.eqb_sym d value). reflexivity.
Qed.

Lemma assign_slots i v ds :
  i < length ds ->
  assign i (Some v) (map Some ds) = map Some (Keypad.setAt i v ds).
Proof.
  revert i. induction ds as [|d ds IH]; intros [|i] H; simpl in *; try lia.
  - reflexivity.
  - rewrite IH by lia. reflexivity.
Qed.

Lemma findIndex_bound {A : Type} (p : A -> bool) l i :
  Keypad.findIndex p l = Some i -> i < length l.
Proof.
  revert i. induction l as [|x l IH]; intros i; simpl; [discriminate|].
  destruct (p x); [intros H; injection H as <-; lia|].
  destruct (Keypad.findIndex p l) as [j|]; [|discriminate].
  simpl. intros H. injection H as <-. specialize (IH j eq_refl). lia.
Qed.

(** A keypad button of the vault form does what a keypad button of the game
    screen does. *)
Lemma pressNumber_slots num ds :
  num < 10 ->
  pressNumber num (map Some ds)
  = map Some (Keypad.handleDigitSelect (numberToString num) ds).
Proof.
  intros Hnum. unfold pressNumber, Keypad.handleDigitSelect.
  rewrite findIndex_slots, includes_slots.
  destruct (Keypad.findIndex GameScreen.isEmpty ds) as [i|] eqn:E;
    [|reflexivity].
  destruct (Keypad.includes (numberToString num) ds) eqn:Hin; simpl;
    [reflexivity|].
  unfold handleVaultCodeChange.
  rewrite includes_slots, Hin, (numberToString_digit num Hnum).
  rewrite orb_true_r.
  apply assign_slots. apply (findIndex_bound _ _ _ E).
Qed.

Lemma NoDup_map_on {A B : Type} (f : A -> B) (l : list A) :
  (forall x y, In x l -> In y l -> f x = f y -> x = y) ->
  NoDup l -> NoDup (map f l).
Proof.
  intros Hinj Hnd. induction Hnd as [|a l Ha Hnd IH]; simpl; constructor.
  - intros Hin. apply in_map_iff in Hin. destruct Hin as [y [Hy Hin]].
    assert (y = a).
    { apply Hinj; [right; exact Hin | left; reflexivity | exact Hy]. }
    subst. contradiction.
  - apply IH. intros x y Hx Hy. apply Hinj; right; assumption.
Qed.

Lemma NoDup_firstn {A : Type} k (l : list A) : NoDup l -> NoDup (firstn k l).
Proof.
  intros H. rewrite <- (firstn_skipn k l) in H.
  apply NoDup_app_remove_r in H. exact H.
Qed.

Lemma in_firstn {A : Type} k (l : list A) x : In x (firstn k l) -> In x l.
Proof.
  intros H. rewrite <- (firstn_skipn k l). apply in_or_app. left. exact H.
Qed.

Lemma numbers_small n : In n numbers -> n < 10.
Proof. unfold numbers. simpl. lia. Qed.

Lemma numbers_NoDup : NoDup numbers.
Proof.
  unfold numbers.
  repeat (constructor; [simpl; lia|]). constructor.
Qed.

Lemma chosen_digits ds :
  Forall (fun s => isDigitString s = true) ds -> Keypad.chosen ds = ds.
Proof.
  intros H. unfold Keypad.chosen. apply filter_id_iff. intros x Hx.
  rewrite Forall_forall in H. specialize (H x Hx). destruct x; [discriminate|].
  reflexivity.
Qed.

(** The random code: four distinct digits. *)
Lemma random_digits shuffled :
  Permutation shuffled numbers ->
  let ds := map numberToString (firstn 4 shuffled) in
  generateRandomCode shuffled = map Some ds /\
  length ds = 4 /\
  Forall (fun s => isDigitString s = true) ds /\
  NoDup ds.
Proof.
  intros Hperm ds. subst ds.
  assert (Hsmall : forall n, In n (firstn 4 shuffled) -> n < 10).
  { intros n Hn. apply numbers_small.
    apply (Permutation_in _ Hperm). apply (in_firstn 4), Hn. }
  split; [unfold generateRandomCode; rewrite map_map; reflexivity|].
  split.
  - rewrite length_map, length_firstn.
    rewrite (Permutation_length Hperm). reflexivity.
  - split.
    + apply Forall_forall. intros s Hs. apply in_map_iff in Hs.
      destruct Hs as [n [<- Hn]]. apply numberToString_digit, Hsmall, Hn.
    + apply NoDup_map_on.
      * intros x y Hx Hy. apply numberToString_injective; apply Hsmall; assumption.
      * apply NoDup_firstn.
        apply (Permutation_NoDup (Permutation_sym Hperm)), numbers_NoDup.
Qed.

Lemma soundCode_perform a code ds :
  allowed a -> soundCode code ds ->
  exists ds', soundCode (perform a code) ds'.
Proof.
  intros Ha [-> [Hlen [Hall Hnd]]]. destruct a as [num | | shuffled]; simpl in *.
  - rewrite (pressNumber_slots num ds Ha).
    exists (Keypad.handleDigitSelect (numberToString num) ds).
    split; [reflexivity|].
    destruct (KeypadFacts.wellFormed_press (Keypad.Digit (numberToString num)) ds
                (conj Hlen Hnd)) as [Hlen' Hnd'].
    simpl in Hlen', Hnd'. split; [exact Hlen'|]. split; [|exact Hnd'].
    destruct (KeypadFacts.handleDigitSelect_cases (numberToString num) ds)
      as [->|[front [back [-> [-> _]]]]]; [exact Hall|].
    apply Forall_app in Hall. destruct Hall as [Hf Hb].
    apply Forall_app. split; [exact Hf|].
    inversion Hb as [|x l Hx Hb']. constructor; [|exact Hb'].
    right. apply numberToString_digit, Ha.
  - exists [""; ""; ""; ""]. split; [reflexivity|]. split; [reflexivity|].
    split; [repeat constructor | constructor].
  - destruct (random_digits shuffled Ha) as [Hc [Hl [Hd Hn]]].
    exists (map numberToString (firstn 4 shuffled)).
    split; [exact Hc|]. split; [exact Hl|]. split.
    + apply Forall_forall. intros s Hs. right.
      rewrite Forall_forall in Hd. apply Hd, Hs.
    + rewrite chosen_digits by exact Hd. exact Hn.
Qed.

Lemma soundCode_performAll acts :
  forall code ds,
    Forall allowed acts -> soundCode code ds ->
    exists ds', soundCode (performAll acts code) ds'.
Proof.
  unfold performAll.
  induction acts as [|a acts IH]; intros code ds Hacts Hs; simpl.
  - exists ds. exact Hs.
  - inversion Hacts as [|x l Ha Hrest]. subst.
    destruct (soundCode_perform a code ds Ha Hs) as [ds' Hs'].
    apply (IH _ ds' Hrest Hs').
Qed.

Lemma complete_slots ds :
  isVaultComplete (map Some ds) = Keypad.isComplete ds.
Proof.
  unfold isVaultComplete, Keypad.isComplete.
  induction ds as [|d ds IH]; simpl; [reflexivity|].
  rewrite IH. destruct d; reflexivity.
Qed.

End VaultFacts.

(** X23. The vault code of the create and join pages, under any sequence of
    keypad presses, "Clear" and "Random": it always has four slots without
    gaps, every slot is empty or one decimal digit, and no digit occurs
    twice; so whenever the code is complete, it is four distinct decimal
    digits. *)
Theorem vault_code_is_four_distinct_digits :
  forall (acts : list VaultForm.Action),
    Forall VaultForm.allowed acts ->
    exists ds,
      soundCode (VaultForm.performAll acts VaultForm.initialCode) ds /\
      (VaultForm.isVaultComplete
         (VaultForm.performAll acts VaultForm.initialCode) = true ->
       Forall (fun s => VaultForm.isDigitString s = true) ds /\ NoDup ds).
Proof.
  intros acts Hacts.
  destruct (VaultFacts.soundCode_performAll acts VaultForm.initialCode
              [""; ""; ""; ""] Hacts) as [ds Hs].
  { split; [reflexivity|]. split; [reflexivity|].
    split; [repeat constructor | constructor]. }
  exists ds. split; [exact Hs|].
  destruct Hs as [Hc [Hlen [Hall Hnd]]]. rewrite Hc.
  rewrite VaultFacts.complete_slots. intros Hcomplete.
  rewrite (KeypadFacts.complete_chosen ds Hcomplete) in Hnd.
  split; [|exact Hnd].
  apply Forall_forall. intros s Hs.
  rewrite Forall_forall in Hall. destruct (Hall s Hs) as [->|Hd]; [|exact Hd].
  exfalso. unfold Keypad.isComplete in Hcomplete.
  rewrite forallb_forall in Hcomplete. specialize (Hcomplete _ Hs).
  discriminate.
Qed.

Lemma vault_code_is_four_distinct_digits_witness :
  exists ds,
    soundCode
      (VaultForm.performAll
         [ VaultForm.Number 3; VaultForm.Number 3; VaultForm.Number 9;
           VaultForm.Random [4; 2; 7; 1; 0; 3; 5; 6; 8; 9];
           VaultForm.ClearCode; VaultForm.Number 0 ]
         VaultForm.initialCode) ds /\
    (VaultForm.isVaultComplete
       (VaultForm.performAll
          [ VaultForm.Number 3; VaultForm.Number 3; VaultForm.Number 9;
            VaultForm.Random [4; 2; 7; 1; 0; 3; 5; 6; 8; 9];
            VaultForm.ClearCode; VaultForm.Number 0 ]
          VaultForm.initialCode) = true ->
     Forall (fun s => VaultForm.isDigitString s = true) ds /\ NoDup ds).
Proof.
  apply vault_code_is_four_distinct_digits.
  repeat (apply Forall_cons; [simpl; try lia; try exact I|]).
  - apply (Permutation_cons_app [0; 1; 2; 3] [5; 6; 7; 8; 9] 4).
    apply (Permutation_cons_app [0; 1] [3; 5; 6; 7; 8; 9] 2).
    apply (Permutation_cons_app [0; 1; 3; 5; 6] [8; 9] 7).
    apply (Permutation_cons_app [0] [3; 5; 6; 8; 9] 1).
    apply Permutation_refl.
  - apply Forall_nil.
Defined.

(** X24. "Random" always gives a complete code: whatever rearrangement of
    [0..9] the shuffle produced, the code is its first four numbers printed
    in decimal, four distinct digits, and the vault part of the form is
    valid at once. *)
Theorem random_code_is_complete :
  forall (shuffled : list nat),
    Permutation shuffled VaultForm.numbers ->
    VaultForm.isVaultComplete (VaultForm.generateRandomCode shuffled) = true /\
    exists a b c d,
      shuffled = a :: b :: c :: d :: skipn 4 shuffled /\
      VaultForm.generateRandomCode shuffled
      = [ Some (VaultForm.numberToString a); Some (VaultForm.numberToString b);
          Some (VaultForm.numberToString c); Some (VaultForm.numberToString d) ] /\
      NoDup [a; b; c; d] /\
      a < 10 /\ b < 10 /\ c < 10 /\ d < 10.
Proof.
  intros shuffled Hperm.
  pose proof (Permutation_length Hperm) as Hlen. simpl in Hlen.
  destruct shuffled as [|a [|b [|c [|d rest]]]]; try discriminate Hlen.
  assert (Hnd : NoDup (a :: b :: c :: d :: rest)).
  { apply (Permutation_NoDup (Permutation_sym Hperm)),
      VaultFacts.numbers_NoDup. }
  assert (Hsmall : forall n, In n [a; b; c; d] -> n < 10).
  { intros n Hn. apply VaultFacts.numbers_small.
    apply (Permutation_in _ Hperm). simpl in *. tauto. }
  split.
  - destruct (VaultFacts.random_digits _ Hperm) as [Hc [_ [Hd _]]].
    rewrite Hc, VaultFacts.complete_slots.
    unfold Keypad.isComplete. apply forallb_forall. intros s Hs.
    rewrite Forall_forall in Hd. specialize (Hd s Hs).
    destruct s; [discriminate Hd | reflexivity].
  - exists a, b, c, d. split; [reflexivity|]. split; [reflexivity|].
    split.
    + apply (VaultFacts.NoDup_firstn 4) in Hnd. exact Hnd.
    + repeat split; apply Hsmall; simpl; tauto.
Qed.

Lemma random_code_is_complete_witness :
  VaultForm.isVaultComplete
    (VaultForm.generateRandomCode [4; 2; 7; 1; 0; 3; 5; 6; 8; 9]) = true.
Proof.
  apply (random_code_is_complete [4; 2; 7; 1; 0; 3; 5; 6; 8; 9]).
  apply (Permutation_cons_app [0; 1; 2; 3] [5; 6; 7; 8; 9] 4).
  apply (Permutation_cons_app [0; 1] [3; 5; 6; 7; 8; 9] 2).
  apply (Permutation_cons_app [0; 1; 3; 5; 6] [8; 9] 7).
  apply (Permutation_cons_app [0] [3; 5; 6; 8; 9] 1).
  apply Permutation_refl.
Defined.

Module SlotFacts.
Import VaultForm.

Lemma split_at {A : Type} i (l : list A) :
  i < length l ->
  exists front x back, l = front ++ x :: back /\ length front = i.
Proof.
  revert i. induction l as [|a l IH]; intros [|i] H; simpl in *; try lia.
  - exists [], a, l. split; reflexivity.
  - destruct (IH i ltac:(lia)) as [front [x [back [-> Hlen]]]].
    exists (a :: front), x, back. split; [reflexivity | simpl; lia].
Qed.

Lemma nth_setAt i j v l :
  i < length l ->
  nth j (Keypad.setAt i v l) EmptyString
  = if Nat.eqb j i then v else nth j l EmptyString.
Proof.
  revert i j. induction l as [|a l IH]; intros [|i] [|j] H; simpl in *;
    try lia; try reflexivity.
  apply IH. lia.
Qed.

Lemma chosen_cons_empty l : Keypad.chosen (EmptyString :: l) = Keypad.chosen l.
Proof. reflexivity. Qed.

Lemma chosen_cons_filled v l :
  v <> EmptyString -> Keypad.chosen (v :: l) = v :: Keypad.chosen l.
Proof. intros H. destruct v; [contradiction | reflexivity]. Qed.

(** Writing an accepted value over a slot keeps the digits distinct. *)
Lemma overwrite_keeps_distinct front x back v :
  NoDup (Keypad.chosen (front ++ x :: back)) ->
  v = EmptyString \/ ~ In v (front ++ x :: back) ->
  NoDup (Keypad.chosen (front ++ v :: back)).
Proof.
  intros Hnd Hv.
  rewrite KeypadFacts.chosen_app in *.
  change (x :: back) with ([x] ++ back) in Hnd.
  rewrite KeypadFacts.chosen_app in Hnd.
  apply KeypadFacts.NoDup_remove_middle in Hnd.
  destruct (string_dec v EmptyString) as [->|Hne].
  - rewrite chosen_cons_empty. exact Hnd.
  - destruct Hv as [->|Hnew]; [contradiction|].
    rewrite chosen_cons_filled by exact Hne.
    apply KeypadFacts.NoDup_insert_middle; [exact Hnd|].
    intros Hin. apply Hnew. apply in_app_or in Hin. apply in_or_app.
    destruct Hin as [Hin|Hin].
    + left. apply KeypadFacts.chosen_subset, Hin.
    + right. right. apply KeypadFacts.chosen_subset, Hin.
Qed.

Lemma assign_length index value code :
  length (assign index value code) = Nat.max (length code) (S index).
Proof.
  revert code. induction index as [|i IH]; intros [|x code]; simpl;
    try reflexivity.
  - lia.
  - rewrite IH. simpl. lia.
  - rewrite IH. lia.
Qed.

End SlotFacts.

(** X25. [handleVaultCodeChange] accepts only the empty string and a single
    decimal digit that the code does not hold yet; on a sound code and a
    slot the code has, it keeps the code sound, changes no other slot, and
    the slot then holds the value or the code is as before.  An accepted
    value written past the end makes the array longer, the gap left
    undefined. *)
Theorem handleVaultCodeChange_keeps_code_sound :
  forall (index : nat) (value : string) (vaultCode : list VaultForm.Slot)
         (ds : list string),
    soundCode vaultCode ds ->
    index < 4 ->
    (exists ds',
        soundCode (VaultForm.handleVaultCodeChange index value vaultCode) ds' /\
        (forall j, j <> index ->
                   nth j ds' EmptyString = nth j ds EmptyString) /\
        (nth index ds' EmptyString = value \/ ds' = ds)) /\
    (VaultForm.handleVaultCodeChange index value vaultCode <> vaultCode ->
     value = EmptyString \/
     (VaultForm.isDigitString value = true /\ ~ In value ds)) /\
    (forall far accepted,
        accepted = EmptyString \/
        (VaultForm.isDigitString accepted = true /\ ~ In accepted ds) ->
        length
          (VaultForm.handleVaultCodeChange (4 + far) accepted vaultCode)
        = 5 + far).
Proof.
  intros index value vaultCode ds [-> [Hlen [Hall Hnd]]] Hindex.
  assert (Hin : index < length ds) by lia.
  unfold VaultForm.handleVaultCodeChange.
  rewrite VaultFacts.includes_slots.
  split; [|split].
  - destruct (String.eqb value "" ||
              (VaultForm.isDigitString value
               && negb (Keypad.includes value ds))) eqn:Hok.
    + rewrite VaultFacts.assign_slots by exact Hin.
      exists (Keypad.setAt index value ds).
      assert (Hvalue : value = EmptyString \/
                       (VaultForm.isDigitString value = true /\
                        ~ In value ds)).
      { apply orb_true_iff in Hok. destruct Hok as [H|H].
        - left. apply String.eqb_eq, H.
        - right. apply andb_true_iff in H. destruct H as [Hd Hnew].
          split; [exact Hd|]. apply negb_true_iff in Hnew.
          apply KeypadFacts.includes_false_iff, Hnew. }
      destruct (SlotFacts.split_at index ds Hin)
        as [front [x [back [Hds Hfront]]]].
      split; [|split].
      * split; [reflexivity|].
        split; [rewrite KeypadFacts.setAt_length; exact Hlen|].
        subst ds. rewrite <- Hfront, KeypadFacts.setAt_middle. split.
        -- apply Forall_app in Hall. destruct Hall as [Hf Hb].
           apply Forall_app. split; [exact Hf|].
           inversion Hb as [|y l Hy Hb']. constructor; [|exact Hb'].
           destruct Hvalue as [->|[Hd _]]; [left; reflexivity | right; exact Hd].
        -- apply (SlotFacts.overwrite_keeps_distinct front x back value Hnd).
           destruct Hvalue as [->|[_ Hnew]]; [left; reflexivity | right; exact Hnew].
      * intros j Hj. rewrite SlotFacts.nth_setAt by exact Hin.
        apply Nat.eqb_neq in Hj. rewrite Hj. reflexivity.
      * left. rewrite SlotFacts.nth_setAt by exact Hin.
        rewrite Nat.eqb_refl. reflexivity.
    + exists ds. split; [repeat split; assumption|].
      split; [reflexivity | right; reflexivity].
  - destruct (String.eqb value "") eqn:He; simpl.
    + intros _. left. apply String.eqb_eq, He.
    + destruct (VaultForm.isDigitString value) eqn:Hd; simpl;
        [|intros H; contradiction].
      destruct (Keypad.includes value ds) eqn:Hi; simpl;
        [intros H; contradiction|].
      intros _. right. split; [reflexivity|].
      apply KeypadFacts.includes_false_iff, Hi.
  - intros far accepted Haccepted.
    rewrite VaultFacts.includes_slots.
    assert (Hok : String.eqb accepted "" ||
                  (VaultForm.isDigitString accepted
                   && negb (Keypad.includes accepted ds)) = true).
    { destruct Haccepted as [->|[Hd Hnew]]; [reflexivity|].
      apply KeypadFacts.includes_false_iff in Hnew.
      rewrite Hd, Hnew. apply orb_true_r. }
    rewrite Hok.
    rewrite SlotFacts.assign_length, length_map, Hlen. lia.
Qed.

Lemma handleVaultCodeChange_keeps_code_sound_witness :
  exists ds',
    soundCode
      (VaultForm.handleVaultCodeChange 0 "5"
         [Some "7"; Some ""; Some "2"; Some ""]) ds' /\
    (forall j, j <> 0 ->
               nth j ds' EmptyString = nth j ["7"; ""; "2"; ""] EmptyString) /\
    (nth 0 ds' EmptyString = "5" \/ ds' = ["7"; ""; "2"; ""]).
Proof.
  apply (handleVaultCodeChange_keeps_code_sound 0 "5"
           [Some "7"; Some ""; Some "2"; Some ""] ["7"; ""; "2"; ""]).
  - split; [reflexivity|]. split; [reflexivity|]. split.
    + repeat constructor; (left; reflexivity) || (right; reflexivity).
    + simpl. repeat constructor; simpl; intuition discriminate.
  - lia.
Defined.

(** ** Checking the room to join *)

Module TrimFacts.
Import RoomCheck.

Lemma trimStart_nil s :
  trimStart s = [] <-> forall u, In u s -> isWhiteSpace u = true.
Proof.
  induction s as [|u s IH]; simpl.
  - split; [intros _ x [] | reflexivity].
  - destruct (isWhiteSpace u) eqn:Hu.
    + rewrite IH. split.
      * intros H x [<-|Hx]; [exact Hu | apply H, Hx].
      * intros H x Hx. apply H. right. exact Hx.
    + split; [discriminate|].
      intros H. rewrite (H u (or_introl eq_refl)) in Hu. discriminate.
Qed.

(** What [trimStart] leaves begins with a character that is not white
    space. *)
Lemma trimStart_white s :
  (forall u, In u (trimStart s) -> isWhiteSpace u = true) ->
  trimStart s = [].
Proof.
  induction s as [|u s IH]; simpl; [reflexivity|].
  destruct (isWhiteSpace u) eqn:Hu; [exact IH|].
  intros H. rewrite (H u (or_introl eq_refl)) in Hu. discriminate.
Qed.

Lemma rev_nil {A : Type} (l : list A) : rev l = [] <-> l = [].
Proof.
  split; [|intros ->; reflexivity].
  intros H. apply (f_equal (@length A)) in H. rewrite length_rev in H.
  destruct l; [reflexivity | discriminate].
Qed.

Lemma trim_nil s :
  trim s = [] <-> forall u, In u s -> isWhiteSpace u = true.
Proof.
  unfold trim, trimEnd, CodeUnits. rewrite rev_nil.
  rewrite (trimStart_nil (rev (trimStart s))).
  rewrite <- (trimStart_nil s). split.
  - intros H. apply trimStart_white. intros u Hu. apply H.
    apply in_rev in Hu. exact Hu.
  - intros H u Hu. rewrite H in Hu. destruct Hu.
Qed.

Lemma isBlank_iff s :
  isBlank s = true <-> forall u, In u s -> isWhiteSpace u = true.
Proof.
  rewrite <- trim_nil. unfold isBlank.
  destruct (trim s); split; try reflexivity; discriminate.
Qed.

End TrimFacts.

(** X26. The room id is blank, that is empty once trimmed, exactly when all
    its characters are white space of ECMAScript.  The join page accepts a
    room exactly when the room id is not blank, [getRoom] returned a room,
    its creator is not the zero address, its phase is "waiting for join" (0)
    and its creator is not the connected address, up to letter case.  An
    accepted room has no error and its data is kept; a room refused, or a
    blank id, leaves no room data.  The page stays in [isChecking] exactly
    when the id is not blank and [getRoom] never settles, and then keeps the
    room data it had.  The message "Room not found" is never shown: a room
    read as [null] ends as "Failed to check room". *)
Theorem room_is_accepted_exactly_when_joinable :
  forall (address : option string) (roomIdToCheck : RoomCheck.CodeUnits)
         (answer : RoomCheck.GetRoom) (before : RoomCheck.Checked),
    let c :=
      RoomCheck.checkRoomValidity address roomIdToCheck answer before in
    (RoomCheck.isBlank roomIdToCheck = true <->
     forall u, In u roomIdToCheck -> RoomCheck.isWhiteSpace u = true) /\
    (RoomCheck.isValid (RoomCheck.roomValidation c) = true <->
     RoomCheck.isBlank roomIdToCheck = false /\
     exists room,
       answer = RoomCheck.Room (Some room) /\
       GameScreen.creator room <> RoomCheck.zeroAddress /\
       GameScreen.phase room = 0 /\
       (forall a, address = Some a ->
                  GameScreen.toLowerCase (GameScreen.creator room)
                  <> GameScreen.toLowerCase a)) /\
    (RoomCheck.isValid (RoomCheck.roomValidation c) = true ->
     answer = RoomCheck.Room (RoomCheck.roomData c) /\
     RoomCheck.error (RoomCheck.roomValidation c) = None) /\
    (RoomCheck.isValid (RoomCheck.roomValidation c) = false ->
     RoomCheck.isBlank roomIdToCheck = true \/
     answer <> RoomCheck.NeverSettles ->
     RoomCheck.roomData c = None) /\
    (RoomCheck.isChecking (RoomCheck.roomValidation c) = true <->
     RoomCheck.isBlank roomIdToCheck = false /\
     answer = RoomCheck.NeverSettles) /\
    (RoomCheck.isChecking (RoomCheck.roomValidation c) = true ->
     RoomCheck.roomData c = RoomCheck.roomData before) /\
    RoomCheck.error (RoomCheck.roomValidation c) <> Some "Room not found" /\
    (answer = RoomCheck.Room None -> RoomCheck.isBlank roomIdToCheck = false ->
     RoomCheck.error (RoomCheck.roomValidation c)
     = Some "Failed to check room").
Proof.
  intros address roomIdToCheck answer before c.
  split; [apply TrimFacts.isBlank_iff|].
  subst c. unfold RoomCheck.checkRoomValidity.
  assert (Hrejects :
            forall (reason : option string) (P Q R S G G' : Prop),
              (P -> False) ->
              (Q -> False) ->
              reason <> Some "Room not found" ->
              (G -> G' -> reason = Some "Failed to check room") ->
              (false = true <-> P) /\
              (false = true ->
               answer = RoomCheck.Room None /\ reason = None) /\
              (false = false -> R ->
               @None GameScreen.RoomMetadata = None) /\
              (false = true <-> Q) /\
              (false = true -> S) /\
              reason <> Some "Room not found" /\
              (G -> G' -> reason = Some "Failed to check room")).
  { intros reason P Q R S G G' HP HQ Hr Hf.
    split; [split; [discriminate | intros H; destruct (HP H)]|].
    split; [discriminate|]. split; [reflexivity|].
    split; [split; [discriminate | intros H; destruct (HQ H)]|].
    split; [discriminate|]. split; assumption. }
  destruct (RoomCheck.isBlank roomIdToCheck) eqn:Hblank.
  { apply Hrejects; [intros [H _]; discriminate H
                    | intros [H _]; discriminate H
                    | discriminate
                    | intros _ H; discriminate H]. }
  destruct answer as [[room|]| |].
  2:{ apply Hrejects; [intros [_ [room [H _]]]; discriminate H
                      | intros [_ H]; discriminate H
                      | discriminate
                      | reflexivity]. }
  2:{ apply Hrejects; [intros [_ [room [H _]]]; discriminate H
                      | intros [_ H]; discriminate H
                      | discriminate
                      | reflexivity]. }
  2:{ cbn [RoomCheck.roomValidation RoomCheck.isValid RoomCheck.isChecking
           RoomCheck.error RoomCheck.roomData].
      split; [split; [discriminate
                     | intros [_ [room [H _]]]; discriminate H]|].
      split; [discriminate|].
      split; [intros _ [H|H]; [discriminate H | destruct (H eq_refl)]|].
      split; [split; [intros _; split; reflexivity | reflexivity]|].
      split; [reflexivity|].
      split; [discriminate | intros H; discriminate H]. }
  destruct (String.eqb (GameScreen.creator room) RoomCheck.zeroAddress) eqn:Hzero.
  { apply String.eqb_eq in Hzero.
    apply Hrejects; [| intros [_ H]; discriminate H
                     | discriminate | intros H; discriminate H].
    intros [_ [room' [H [Hc _]]]]. injection H as <-. contradiction. }
  apply String.eqb_neq in Hzero.
  destruct (GameScreen.phase room =? 0) eqn:Hphase.
  2:{ apply Nat.eqb_neq in Hphase. cbn [negb].
      apply Hrejects; [| intros [_ H]; discriminate H
                       | | intros H; discriminate H].
      - intros [_ [room' [H [_ [Hp _]]]]]. injection H as <-. contradiction.
      - simpl. discriminate. }
  apply Nat.eqb_eq in Hphase. cbn [negb].
  assert (Haccepts :
            (forall a, address = Some a ->
                       GameScreen.toLowerCase (GameScreen.creator room)
                       <> GameScreen.toLowerCase a) ->
            false = false /\
            exists room',
              RoomCheck.Room (Some room) = RoomCheck.Room (Some room') /\
              GameScreen.creator room' <> RoomCheck.zeroAddress /\
              GameScreen.phase room' = 0 /\
              (forall a, address = Some a ->
                         GameScreen.toLowerCase (GameScreen.creator room')
                         <> GameScreen.toLowerCase a)).
  { intros Hme. split; [reflexivity|]. exists room.
    split; [reflexivity|]. split; [exact Hzero|]. split; [exact Hphase|].
    exact Hme. }
  assert (Haccepted :
            forall P : Prop,
              P ->
              (true = true <-> P) /\
              (true = true ->
               RoomCheck.Room (Some room) = RoomCheck.Room (Some room) /\
               @None string = None) /\
              (true = false ->
               false = true \/
               RoomCheck.Room (Some room) <> RoomCheck.NeverSettles ->
               Some room = None) /\
              (false = true <->
               false = false /\
               RoomCheck.Room (Some room) = RoomCheck.NeverSettles) /\
              (false = true -> Some room = RoomCheck.roomData before) /\
              @None string <> Some "Room not found" /\
              (RoomCheck.Room (Some room) = RoomCheck.Room None ->
               false = false ->
               @None string = Some "Failed to check room")).
  { intros P HP.
    split; [split; [intros _; exact HP | reflexivity]|].
    split; [intros _; split; reflexivity|].
    split; [discriminate|].
    split; [split; [discriminate | intros [_ H]; discriminate H]|].
    split; [discriminate|].
    split; [discriminate | intros H; discriminate H]. }
  destruct address as [a|]; simpl.
  - destruct (String.eqb (GameScreen.toLowerCase (GameScreen.creator room))
                         (GameScreen.toLowerCase a)) eqn:Hown.
    + apply String.eqb_eq in Hown.
      apply Hrejects; [| intros [_ H]; discriminate H
                       | discriminate | intros H; discriminate H].
      intros [_ [room' [H [_ [_ Hme]]]]]. injection H as <-.
      destruct (Hme a eq_refl Hown).
    + apply String.eqb_neq in Hown.
      apply Haccepted. apply Haccepts.
      intros a' H. injection H as <-. exact Hown.
  - apply Haccepted. apply Haccepts. intros a' H. discriminate H.
Qed.

Example own_room_is_refused :
  RoomCheck.checkRoomValidity (Some "0xABCDEF") [49; 50]%N
    (RoomCheck.Room (Some (GameScreen.mkRoom "0xabcdef" "" "0.01" 0 0)))
    {| RoomCheck.roomValidation :=
         {| RoomCheck.isValid := false; RoomCheck.isChecking := false;
            RoomCheck.error := None |};
       RoomCheck.roomData := None |}
  = RoomCheck.rejected "Cannot join your own room".
Proof. reflexivity. Qed.

(** A room id made of a no-break space is blank; while [getRoom] does not
    settle the page keeps checking. *)
Example no_break_space_is_blank :
  RoomCheck.isBlank [160]%N = true /\
  RoomCheck.isChecking
    (RoomCheck.roomValidation
       (RoomCheck.checkRoomValidity None [49; 50]%N RoomCheck.NeverSettles
          (RoomCheck.rejected "Invalid room"))) = true.
Proof. split; reflexivity. Qed.

(** ** The short form of an address *)

Module SliceFacts.
Import Wallet.

Lemma take_length n s : String.length (take n s) = Nat.min n (String.length s).
Proof.
  revert s. induction n as [|n IH]; intros [|c s]; simpl; try reflexivity.
  rewrite IH. reflexivity.
Qed.

Lemma drop_length n s : String.length (drop n s) = String.length s - n.
Proof.
  revert s. induction n as [|n IH]; intros [|c s]; simpl; try reflexivity.
  apply IH.
Qed.

Lemma append_length a b :
  String.length (a ++ b)%string = String.length a + String.length b.
Proof. induction a as [|c a IH]; simpl; [reflexivity | rewrite IH; reflexivity]. Qed.

Lemma take_drop n s : (take n s ++ drop n s)%string = s.
Proof.
  revert s. induction n as [|n IH]; intros [|c s]; simpl; try reflexivity.
  rewrite IH. reflexivity.
Qed.

Lemma drop_drop k m s : drop m (drop k s) = drop (k + m) s.
Proof.
  revert s. induction k as [|k IH]; intros s; simpl; [reflexivity|].
  destruct s as [|c s]; [destruct m; reflexivity | apply IH].
Qed.

End SliceFacts.

(** X27. [formatAddress] shows nothing for an empty address and otherwise
    the first six characters, three dots and the last four: at most thirteen
    characters.  For an address of ten characters or more the two ends do
    not overlap, so the address is the shown head, some middle part and the
    shown tail; a shorter address has characters shown twice. *)
Theorem formatAddress_shows_both_ends :
  forall (address : string),
    let n := String.length address in
    (address = EmptyString -> Wallet.formatAddress address = EmptyString) /\
    (address <> EmptyString ->
     Wallet.formatAddress address
     = (Wallet.sliceFirst 6 address ++ "..." ++ Wallet.sliceLast 4 address)%string /\
     String.length (Wallet.formatAddress address)
     = Nat.min 6 n + 3 + Nat.min 4 n) /\
    String.length (Wallet.formatAddress address) <= 13 /\
    (10 <= n ->
     exists middle,
       address = (Wallet.sliceFirst 6 address ++ middle
                    ++ Wallet.sliceLast 4 address)%string /\
       String.length middle = n - 10) /\
    (0 < n < 10 ->
     String.length (Wallet.sliceFirst 6 address)
     + String.length (Wallet.sliceLast 4 address) > n).
Proof.
  intros address n.
  assert (Hfirst : String.length (Wallet.sliceFirst 6 address) = Nat.min 6 n)
    by apply SliceFacts.take_length.
  assert (Hlast : String.length (Wallet.sliceLast 4 address) = Nat.min 4 n).
  { unfold Wallet.sliceLast. rewrite SliceFacts.drop_length. fold n. lia. }
  assert (Hfmt : address <> EmptyString ->
                 Wallet.formatAddress address
                 = (Wallet.sliceFirst 6 address ++ "..."
                      ++ Wallet.sliceLast 4 address)%string).
  { intros Hne. unfold Wallet.formatAddress.
    destruct address; [contradiction | reflexivity]. }
  assert (Hlen : address <> EmptyString ->
                 String.length (Wallet.formatAddress address)
                 = Nat.min 6 n + 3 + Nat.min 4 n).
  { intros Hne. rewrite (Hfmt Hne).
    rewrite !SliceFacts.append_length, Hfirst, Hlast. simpl. lia. }
  split; [intros ->; reflexivity|].
  split; [intros Hne; split; [apply Hfmt, Hne | apply Hlen, Hne]|].
  split; [|split].
  - destruct (string_dec address EmptyString) as [->|Hne]; [simpl; lia|].
    rewrite (Hlen Hne). lia.
  - intros Hn. exists (Wallet.take (n - 10) (Wallet.drop 6 address)). split.
    + unfold Wallet.sliceFirst, Wallet.sliceLast. fold n.
      replace (n - 4) with (6 + (n - 10)) by lia.
      rewrite <- SliceFacts.drop_drop.
      rewrite SliceFacts.take_drop, SliceFacts.take_drop. reflexivity.
    + rewrite SliceFacts.take_length, SliceFacts.drop_length. fold n. lia.
  - intros Hn. rewrite Hfirst, Hlast. lia.
Qed.

Example short_forms :
  Wallet.formatAddress "0x1234567890abcdef1234567890abcdef12345678"
  = "0x1234...5678" /\
  Wallet.formatAddress "0xabc" = "0xabc...xabc" /\
  Wallet.formatAddress "" = "".
Proof. repeat split; reflexivity. Qed.
